(** * PetCar voice pipeline: a shallow embedding and its properties

    The development follows the Python sources of the repository:

    - [car/audio/vad.py]                      (module [Vad])
    - [server/pipeline/streaming_manager.py]  (module [Streaming])
    - [server/api/protocol.py]                (module [Protocol])
    - [server/models/asr_engine.py]           (module [Asr])
    - [server/pipeline/conversation.py]       (module [Conversation])
    - [server/api/server.py]                  (module [Server])
    - [car/audio/mic_client.py]               (module [Mic])
    - [car/main.py]                           (module [Car])
    - [car/comm/client.py]                    (module [Client])

    Python integers are [Z], [bytes] are lists of bytes, [str] is a list of
    Unicode code points, objects are records and every method takes the
    object and returns its updated copy.  A Python exception is a value of
    [outcome]. *)

From Stdlib Require Import Strings.String Strings.Ascii Strings.Byte.
From Stdlib Require Import ZArith NArith List Bool Lia.
Import ListNotations.

Set Implicit Arguments.
Set Warnings "-register-all".
Open Scope Z_scope.

(* ===================================================================== *)
(** * Python values shared by all modules *)
(* ===================================================================== *)

Module Py.

(** The exception classes the sources raise or catch. *)
Inductive exn : Type :=
| ValueError
| RuntimeError
| TypeError
| JSONDecodeError
| ConnectionClosed
| OverflowError.

(** The result of a call: a returned value or a raised exception. *)
Inductive outcome (A : Type) : Type :=
| Returned (a : A)
| Raised (e : exn).

Arguments Raised {A} e.

Definition bytes : Type := list byte.

(** Sequencing of calls: an exception ends the sequence. *)
Definition bind {A B : Type} (x : outcome A) (k : A -> outcome B) : outcome B :=
  match x with
  | Returned a => k a
  | Raised e => Raised e
  end.

Notation "x <- e ;; k" := (bind e (fun x => k))
  (at level 61, e at next level, right associativity).

(** [len(x)] as a Python integer. *)
Definition len {A : Type} (l : list A) : Z := Z.of_nat (List.length l).

(** The last [n] elements of a list. *)
Definition lastn {A : Type} (n : nat) (l : list A) : list A :=
  skipn (List.length l - n)%nat l.

(** [collections.deque(maxlen=n).append(x)]: the element goes to the right
    end and, once more than [n] elements are held, the left end is dropped. *)
Definition deque_append {A : Type} (maxlen : nat) (d : list A) (x : A)
  : list A :=
  lastn maxlen (d ++ [x]).

(** ** [float]: the quotient of two integers

    [a / b] on integers is the double nearest to the quotient, ties going
    to the even significand; [OverflowError] is raised when that is not a
    finite double.  [int] of a float drops its fractional part. *)

(** The integer nearest to [n / d], ties to even, for [0 <= n] and
    [0 < d]. *)
Definition round_half_even (n d : Z) : Z :=
  let q := n / d in
  match 2 * (n mod d) ?= d with
  | Lt => q
  | Gt => q + 1
  | Eq => if Z.even q then q else q + 1
  end.

(** The exponent [e] of the leading bit of [n / d], for [0 < n] and
    [0 < d]: [2 ^ e <= n / d < 2 ^ (e + 1)]. *)
Definition quotient_exponent (n d : Z) : Z :=
  let e := Z.log2 n - Z.log2 d in
  if d * 2 ^ Z.max e 0 <=? n * 2 ^ Z.max (- e) 0 then e else e - 1.

(** [int(a / b)] for a divisor [0 < b].  The significand [m] has 53 bits
    and the unit in the last place is [2 ^ s], not below [2 ^ -1074]. *)
Definition int_true_div (a b : Z) : outcome Z :=
  if a =? 0 then Returned 0
  else
    let n := Z.abs a in
    let s := Z.max (quotient_exponent n b - 52) (-1074) in
    let m := round_half_even (n * 2 ^ Z.max (- s) 0) (b * 2 ^ Z.max s 0) in
    if (0 <=? s) && (2 ^ 1024 <=? m * 2 ^ s) then Raised OverflowError
    else Returned (Z.sgn a * (m * 2 ^ Z.max s 0 / 2 ^ Z.max (- s) 0)).

(** ** [str]

    A Python string is a sequence of Unicode code points. *)
Definition char : Type := N.
Definition str : Type := list char.

(** Decoding of the UTF-8 bytes of a literal of this file into its code
    points, so that the literals of the sources can be written as they are. *)
Fixpoint utf8_decode (l : list N) : str :=
  match l with
  | [] => []
  | b :: r =>
      if (b <? 128)%N then b :: utf8_decode r
      else if (b <? 224)%N then
        match r with
        | c1 :: r' => ((b - 192) * 64 + (c1 - 128))%N :: utf8_decode r'
        | _ => []
        end
      else if (b <? 240)%N then
        match r with
        | c1 :: c2 :: r' =>
            ((b - 224) * 4096 + (c1 - 128) * 64 + (c2 - 128))%N
            :: utf8_decode r'
        | _ => []
        end
      else
        match r with
        | c1 :: c2 :: c3 :: r' =>
            ((b - 240) * 262144 + (c1 - 128) * 4096 + (c2 - 128) * 64
             + (c3 - 128))%N :: utf8_decode r'
        | _ => []
        end
  end.

Definition lit (s : string) : str :=
  utf8_decode (map N_of_ascii (list_ascii_of_string s)).

Definition char_eqb (a b : char) : bool := N.eqb a b.

Fixpoint str_eqb (a b : str) : bool :=
  match a, b with
  | [], [] => true
  | x :: a', y :: b' => char_eqb x y && str_eqb a' b'
  | _, _ => false
  end.

(** [s.startswith(p)] *)
Fixpoint startswith (p s : str) : bool :=
  match p, s with
  | [], _ => true
  | x :: p', y :: s' => char_eqb x y && startswith p' s'
  | _ :: _, [] => false
  end.

(** [needle in s] on strings: [needle] occurs as a contiguous substring. *)
Fixpoint contains (needle s : str) : bool :=
  startswith needle s ||
  match s with
  | [] => false
  | _ :: s' => contains needle s'
  end.

(** [s.replace(old, new, count)] for a non-empty [old]; [count = None] is
    the call without a count.  Occurrences are taken from the left and do
    not overlap: after a replacement the scan resumes behind the occurrence
    ([skip] counts the characters of it still to be passed over). *)
Fixpoint replace_go (old new : str) (count : option nat) (skip : nat) (s : str)
  : str :=
  match s with
  | [] => []
  | c :: r =>
      match skip with
      | S k => replace_go old new count k r
      | O =>
          let allowed :=
            match count with Some O => false | _ => true end in
          if allowed && startswith old s then
            new ++ replace_go old new (option_map Nat.pred count)
                     (List.length old - 1) r
          else c :: replace_go old new count 0 r
      end
  end.

(** For an empty [old] Python inserts [new] before every character and at
    the end, at most [count] times. *)
Fixpoint replace_empty (new : str) (count : option nat) (s : str) : str :=
  match count with
  | Some O => s
  | _ =>
      match s with
      | [] => new
      | c :: r => new ++ c :: replace_empty new (option_map Nat.pred count) r
      end
  end.

Definition replace (old new : str) (count : option nat) (s : str) : str :=
  match old with
  | [] => replace_empty new count s
  | _ :: _ => replace_go old new count 0 s
  end.

(** The occurrence of [w] behind [pre] in [pre ++ w ++ post] is the
    leftmost one: [w] occurs at no position inside [pre]. *)
Definition leftmost (w pre post : str) : Prop :=
  forall p1 p2,
    pre = p1 ++ p2 -> p2 <> [] -> startswith w (p2 ++ w ++ post) = false.

(** The Unicode character tables of the interpreter beyond ASCII:
    [str.isalnum] and [str.isspace] of a single character. *)
Class UnicodeTables : Type := {
  uni_isalnum : char -> bool;
  uni_isspace : char -> bool
}.

(** The tables restricted to ASCII: no other character is alphanumeric or
    white space. *)
Definition ascii_only : UnicodeTables :=
  {| uni_isalnum := fun _ => false; uni_isspace := fun _ => false |}.

Section Classes.
Context {tables : UnicodeTables}.

Definition between (lo hi c : N) : bool := (lo <=? c)%N && (c <=? hi)%N.

(** [c.isalnum()] *)
Definition isalnum (c : char) : bool :=
  if (c <? 128)%N
  then between 48 57 c || between 65 90 c || between 97 122 c
  else uni_isalnum c.

(** [c.isspace()]: among ASCII, TAB..CR, FS..US and the space. *)
Definition isspace (c : char) : bool :=
  if (c <? 128)%N
  then between 9 13 c || between 28 32 c
  else uni_isspace c.

(** [s.lstrip()], [s.rstrip()] and [s.strip()] without argument. *)
Fixpoint lstrip (s : str) : str :=
  match s with
  | [] => []
  | c :: r => if isspace c then lstrip r else s
  end.

Definition rstrip (s : str) : str := rev (lstrip (rev s)).

Definition strip (s : str) : str := rstrip (lstrip s).

End Classes.

End Py.

Import Py.

(* ===================================================================== *)
(** * car/audio/vad.py *)
(* ===================================================================== *)

Module Vad.

(** The detection backend ([webrtcvad.Vad] or [MockWebRTCVAD]): an object with
    a constructor taking the aggressiveness mode and a method [is_speech]
    that may update the object. *)
Class VadBackend : Type := {
  Backend : Type;
  Backend_new : Z -> Backend;
  is_speech : Backend -> bytes -> Z -> bool * Backend
}.

(** [MockWebRTCVAD]: calls 1..9 and 21..29 answer speech, all others silence. *)
Record MockWebRTCVAD : Type := {
  mode : Z;
  counter : Z
}.

Definition MockWebRTCVAD_init (mode : Z) : MockWebRTCVAD :=
  {| mode := mode; counter := 0 |}.

Definition MockWebRTCVAD_is_speech (self : MockWebRTCVAD) (audio_chunk : bytes)
  (sample_rate : Z) : bool * MockWebRTCVAD :=
  let self := {| mode := mode self; counter := counter self + 1 |} in
  if (counter self <? 10) || ((20 <? counter self) && (counter self <? 30))
  then (true, self)
  else (false, self).

Definition mock_backend : VadBackend :=
  {| Backend := MockWebRTCVAD;
     Backend_new := MockWebRTCVAD_init;
     is_speech := MockWebRTCVAD_is_speech |}.

Definition SUPPORTED_VAD_RATES : list Z := [8000; 16000; 32000; 48000].
Definition VAD_MODE : Z := 3.
Definition SILENCE_TIMEOUT_MS : Z := 1500.
Definition SILENCE_CHUNK_COUNT : Z := 50.

(** [sample_rate in SUPPORTED_VAD_RATES] *)
Definition rate_supported (sample_rate : Z) : bool :=
  existsb (Z.eqb sample_rate) SUPPORTED_VAD_RATES.

(** [maxlen = SILENCE_CHUNK_COUNT // 2] of the frame buffer. *)
Definition frame_buffer_maxlen : nat := Z.to_nat (SILENCE_CHUNK_COUNT / 2).

Section Detector.
Context {backend : VadBackend}.

Record VADDetector : Type := {
  sample_rate : Z;
  chunk_duration_ms : Z;
  chunk_size : Z;
  _vad : Backend;
  silence_chunks_count : Z;
  active_speech_detected : bool;
  frame_buffer : list bytes
}.

(** [VADDetector.__init__].  The rate is checked first;
    [int((sample_rate * chunk_duration_ms * 2) / 1000)] goes through the
    float quotient, which is rounded and may be out of range. *)
Definition VADDetector_init (sample_rate chunk_duration_ms aggressiveness : Z)
  : outcome VADDetector :=
  if negb (rate_supported sample_rate) then Raised ValueError
  else
    chunk_size <- int_true_div (sample_rate * chunk_duration_ms * 2) 1000 ;;
    Returned
      {| sample_rate := sample_rate;
         chunk_duration_ms := chunk_duration_ms;
         chunk_size := chunk_size;
         _vad := Backend_new aggressiveness;
         silence_chunks_count := 0;
         active_speech_detected := false;
         frame_buffer := [] |}.

Definition set_vad (self : VADDetector) (v : Backend) : VADDetector :=
  {| sample_rate := sample_rate self;
     chunk_duration_ms := chunk_duration_ms self;
     chunk_size := chunk_size self;
     _vad := v;
     silence_chunks_count := silence_chunks_count self;
     active_speech_detected := active_speech_detected self;
     frame_buffer := frame_buffer self |}.

Definition set_state (self : VADDetector) (count : Z) (active : bool)
  (buffer : list bytes) : VADDetector :=
  {| sample_rate := sample_rate self;
     chunk_duration_ms := chunk_duration_ms self;
     chunk_size := chunk_size self;
     _vad := _vad self;
     silence_chunks_count := count;
     active_speech_detected := active;
     frame_buffer := buffer |}.

(** [VADDetector.process_chunk] *)
Definition process_chunk (self : VADDetector) (audio_chunk : bytes)
  : bool * VADDetector :=
  if negb (len audio_chunk =? chunk_size self) then (false, self)
  else
    let (speech, v) := is_speech (_vad self) audio_chunk (sample_rate self) in
    let self := set_vad self v in
    if speech then
      (true, set_state self 0 true (frame_buffer self))
    else
      let count :=
        if active_speech_detected self
        then silence_chunks_count self + 1
        else silence_chunks_count self in
      (false,
       set_state self count (active_speech_detected self)
         (deque_append frame_buffer_maxlen (frame_buffer self) audio_chunk)).

(** [VADDetector.is_silence_end] *)
Definition is_silence_end (self : VADDetector) : bool * VADDetector :=
  if active_speech_detected self
     && (SILENCE_CHUNK_COUNT <? silence_chunks_count self)
  then (true, set_state self 0 false [])
  else (false, self).

(** [VADDetector.get_buffered_frames] *)
Definition get_buffered_frames (self : VADDetector)
  : list bytes * VADDetector :=
  (frame_buffer self,
   set_state self (silence_chunks_count self) (active_speech_detected self) []).

(** [VADDetector.reset] *)
Definition reset (self : VADDetector) : VADDetector :=
  set_state self 0 false [].

(** One frame handled as the callers do ([simulate_processing] in the module's
    own demonstration): classify it, then poll the end-of-utterance test.
    The result is [(is_speech, is_end)]. *)
Definition feed (self : VADDetector) (chunk : bytes)
  : (bool * bool) * VADDetector :=
  let (speech, self) := process_chunk self chunk in
  let (is_end, self) := is_silence_end self in
  ((speech, is_end), self).

Fixpoint feed_all (self : VADDetector) (chunks : list bytes)
  : list (bool * bool) * VADDetector :=
  match chunks with
  | [] => ([], self)
  | c :: rest =>
      let (r, self) := feed self c in
      let (rs, self) := feed_all self rest in
      (r :: rs, self)
  end.

(** The detector after a sequence of [process_chunk] calls alone. *)
Fixpoint process_all (self : VADDetector) (chunks : list bytes) : VADDetector :=
  match chunks with
  | [] => self
  | c :: rest => process_all (snd (process_chunk self c)) rest
  end.

(** The classifications and the end-of-utterance answers of a run. *)
Definition verdicts (self : VADDetector) (chunks : list bytes) : list bool :=
  map fst (fst (feed_all self chunks)).

Definition polls (self : VADDetector) (chunks : list bytes) : list bool :=
  map snd (fst (feed_all self chunks)).

(** The calls a client may make on a detector, and their effect on it. *)
Inductive call : Type :=
| ProcessChunk (audio_chunk : bytes)
| IsSilenceEnd
| GetBufferedFrames
| Reset.

Definition apply_call (self : VADDetector) (c : call) : VADDetector :=
  match c with
  | ProcessChunk audio_chunk => snd (process_chunk self audio_chunk)
  | IsSilenceEnd => snd (is_silence_end self)
  | GetBufferedFrames => snd (get_buffered_frames self)
  | Reset => reset self
  end.

Definition apply_calls (self : VADDetector) (cs : list call) : VADDetector :=
  fold_left apply_call cs self.

(** The count is not negative and is zero while no speech is active. *)
Definition count_agrees (d : VADDetector) : Prop :=
  0 <= silence_chunks_count d
  /\ (active_speech_detected d = false -> silence_chunks_count d = 0).

(** The chunks of the size the detector expects. *)
Definition well_sized (d : VADDetector) (c : bytes) : bool :=
  len c =? chunk_size d.

End Detector.

(** A backend without memory that takes any frame with a non-zero byte for
    speech; the frames of the module's demonstration are [SILENCE_CHUNK],
    all zero, and [NOISE_CHUNK]. *)
Definition energy_backend : VadBackend :=
  {| Backend := unit;
     Backend_new := fun _ => tt;
     is_speech := fun v audio_chunk _ =>
       (existsb (fun b => negb (Byte.eqb b x00)) audio_chunk, v) |}.

(** [VADDetector(sample_rate=16000, chunk_duration_ms=20)] of the
    demonstration, over that backend. *)
Definition demo_detector : @VADDetector energy_backend :=
  @Build_VADDetector energy_backend 16000 20 640 tt 0 false [].

(** The same detector over the mock backend of the module. *)
Definition mock_detector : @VADDetector mock_backend :=
  @Build_VADDetector mock_backend 16000 20 640 (MockWebRTCVAD_init VAD_MODE)
    0 false [].

Definition SPEECH_CHUNK_SIZE : nat := 640.
Definition SILENCE_CHUNK : bytes := repeat x00 SPEECH_CHUNK_SIZE.
Definition NOISE_CHUNK : bytes := repeat x55 SPEECH_CHUNK_SIZE.

End Vad.

(* ===================================================================== *)
(** * server/pipeline/streaming_manager.py *)
(* ===================================================================== *)

Module Streaming.

(** The three queue classes share their code; [StreamQueue A] is that code
    for chunks of type [A].  The [asyncio.Queue] inside is unbounded and is
    the list of the items not yet taken, [None] being the end marker.  The
    [queue_id] of a [PCMQueue], the identity of the object that its messages
    print, is left out. *)
Section StreamQueue.
Variable A : Type.

Record StreamQueue : Type := {
  queue : list (option A);
  is_finished : bool
}.

(** [__init__] *)
Definition StreamQueue_init : StreamQueue :=
  {| queue := []; is_finished := false |}.

(** [put] *)
Definition put (self : StreamQueue) (chunk : A) : outcome StreamQueue :=
  if negb (is_finished self)
  then Returned {| queue := queue self ++ [Some chunk];
                   is_finished := is_finished self |}
  else Returned self.

(** [get]: [None] when the queue is empty, where the caller stays suspended. *)
Definition get (self : StreamQueue) : option (option A * StreamQueue) :=
  match queue self with
  | [] => None
  | x :: rest => Some (x, {| queue := rest; is_finished := is_finished self |})
  end.

(** [close] *)
Definition close (self : StreamQueue) : StreamQueue :=
  {| queue := queue self ++ [None]; is_finished := true |}.

(** What [async for chunk in self] iterates over. *)
Inductive iteration : Type :=
| Stopped (chunks : list A) (rest : StreamQueue)
| Suspended (chunks : list A).

(** [__anext__] repeated until [StopAsyncIteration]: the chunks before the
    first end marker, or [Suspended] when no end marker ever arrives. *)
Fixpoint drain_items (items : list (option A)) (fin : bool) (acc : list A)
  : iteration :=
  match items with
  | [] => Suspended (rev acc)
  | None :: rest => Stopped (rev acc) {| queue := rest; is_finished := fin |}
  | Some c :: rest => drain_items rest fin (c :: acc)
  end.

Definition drain (self : StreamQueue) : iteration :=
  drain_items (queue self) (is_finished self) [].

(** [is_empty] *)
Definition is_empty (self : StreamQueue) : bool :=
  match queue self with [] => true | _ => false end.

(** The queue after a [put], accepted or dropped. *)
Definition after_put (self : StreamQueue) (chunk : A) : StreamQueue :=
  if is_finished self then self
  else {| queue := queue self ++ [Some chunk];
          is_finished := is_finished self |}.

(** The calls a task may make on a queue, and their effect on it. *)
Inductive queue_call : Type :=
| Put (chunk : A)
| Get
| CloseQueue.

Definition apply_queue_call (self : StreamQueue) (c : queue_call)
  : StreamQueue :=
  match c with
  | Put chunk =>
      match put self chunk with
      | Returned q => q
      | Raised _ => self
      end
  | Get =>
      match get self with
      | Some (_, q) => q
      | None => self
      end
  | CloseQueue => close self
  end.

Definition apply_queue_calls (self : StreamQueue) (cs : list queue_call)
  : StreamQueue :=
  fold_left apply_queue_call cs self.

(** The chunks of a list put one after the other, as a producer does. *)
Fixpoint put_chunks (self : StreamQueue) (chunks : list A) : StreamQueue :=
  match chunks with
  | [] => self
  | c :: rest =>
      match put self c with
      | Returned q => put_chunks q rest
      | Raised _ => self
      end
  end.

End StreamQueue.

Definition AudioQueue : Type := StreamQueue bytes.
Definition TextQueue : Type := StreamQueue str.
Definition PCMQueue : Type := StreamQueue bytes.

Record StreamingManager : Type := {
  audio_in_queue : option AudioQueue;
  llm_text_out_queue : option TextQueue;
  pcm_out_queue : option PCMQueue
}.

(** [StreamingManager.__init__] *)
Definition StreamingManager_init : StreamingManager :=
  {| audio_in_queue := None;
     llm_text_out_queue := None;
     pcm_out_queue := None |}.

(** [start_new_conversation] *)
Definition start_new_conversation (self : StreamingManager)
  : StreamingManager :=
  {| audio_in_queue := Some (StreamQueue_init bytes);
     llm_text_out_queue := Some (StreamQueue_init str);
     pcm_out_queue := Some (StreamQueue_init bytes) |}.

(** [get_queues]: the dictionary is the triple (audio_in, text_out, pcm_out). *)
Definition get_queues (self : StreamingManager)
  : outcome (AudioQueue * TextQueue * PCMQueue) :=
  match audio_in_queue self, llm_text_out_queue self, pcm_out_queue self with
  | Some a, Some t, Some p => Returned (a, t, p)
  | _, _, _ => Raised RuntimeError
  end.

(** [close_all]: every queue held is closed and the references are dropped;
    the closed objects leave the model with them, and a caller that still
    holds one closes its own copy (see [run_pipeline]). *)
Definition close_all (self : StreamingManager) : StreamingManager :=
  StreamingManager_init.

End Streaming.

(* ===================================================================== *)
(** * server/api/protocol.py *)
(* ===================================================================== *)

Module Protocol.

(** The Python values that the fields of a frame hold.  A dictionary is the
    list of its items in insertion order; its keys are strings. *)
Inductive value : Type :=
| VNone
| VBool (b : bool)
| VInt (n : Z)
| VStr (s : str)
| VBytes (b : bytes)
| VList (l : list value)
| VDict (d : list (str * value)).

(** Keys of a dictionary are pairwise different. *)
Fixpoint unique_keys (ks : list str) : bool :=
  match ks with
  | [] => true
  | k :: rest => negb (existsb (str_eqb k) rest) && unique_keys rest
  end.

(** The values [json.dumps] accepts and [json.loads] gives back unchanged:
    no [bytes] inside, every dictionary a proper one. *)
Fixpoint serializable (v : value) : bool :=
  match v with
  | VBytes _ => false
  | VList l => forallb serializable l
  | VDict d =>
      unique_keys (map fst d) && forallb (fun kv => serializable (snd kv)) d
  | _ => true
  end.

(** The [json] module of the interpreter: [dumps] gives the text of a
    serializable value, [loads] returns [None] where Python raises
    [JSONDecodeError]. *)
Class JsonLib : Type := {
  dumps : value -> str;
  loads : str -> option value
}.

(** The contract of the library used below: a serializable value is read
    back from its text. *)
Definition roundtrips (J : JsonLib) : Prop :=
  forall v, serializable v = true -> loads (dumps v) = Some v.

(** [json.dumps(v)], with the [TypeError] of a value that is not
    serializable. *)
Definition json_dumps {J : JsonLib} (v : value) : outcome str :=
  if serializable v then Returned (dumps v) else Raised TypeError.

(** [d[k]] on the items of a dictionary. *)
Fixpoint lookup (k : str) (d : list (str * value)) : option value :=
  match d with
  | [] => None
  | (k', v) :: rest => if str_eqb k' k then Some v else lookup k rest
  end.

(** [k in v]: a key of a dictionary, an element of a list, a substring of a
    string; any other value is not iterable ([TypeError]). *)
Definition py_in (k : str) (v : value) : outcome bool :=
  match v with
  | VDict d => Returned (existsb (fun kv => str_eqb (fst kv) k) d)
  | VList l =>
      Returned (existsb (fun x => match x with
                                  | VStr s => str_eqb s k
                                  | _ => false
                                  end) l)
  | VStr s => Returned (contains k s)
  | _ => Raised TypeError
  end.

(** A dataclass with the fields [required] (no default) and [optional],
    called with the keywords [kw]: [TypeError] on a missing required field
    and on a keyword that is no field. *)
Definition accepts (required optional : list str) (kw : list (str * value))
  : bool :=
  forallb (fun kv => existsb (str_eqb (fst kv)) (required ++ optional)) kw
  && forallb (fun k => existsb (fun kv => str_eqb (fst kv) k) kw) required.

Definition field (k : str) (default : value) (kw : list (str * value))
  : value :=
  match lookup k kw with
  | Some v => v
  | None => default
  end.

Module AudioFrame.
Record t : Type := {
  seq : value;
  pcm_data : value;
  is_final : value
}.

(** [AudioFrame] applied to the keywords [kw] *)
Definition new (kw : list (str * value)) : outcome t :=
  if accepts [lit "seq"; lit "pcm_data"] [lit "is_final"] kw
  then Returned {| seq := field (lit "seq") VNone kw;
                   pcm_data := field (lit "pcm_data") VNone kw;
                   is_final := field (lit "is_final") (VBool false) kw |}
  else Raised TypeError.

(** [asdict(self)] followed by [del data['pcm_data']] *)
Definition header (self : t) : value :=
  VDict [(lit "seq", seq self); (lit "is_final", is_final self)].

(** [AudioFrame.to_json] *)
Definition to_json {J : JsonLib} (self : t) : outcome str :=
  json_dumps (header self).

(** The fields have the annotated types. *)
Definition valid (self : t) : Prop :=
  (exists n, seq self = VInt n) /\ (exists b, pcm_data self = VBytes b)
  /\ (exists b, is_final self = VBool b).
End AudioFrame.

Module TextFrame.
Record t : Type := {
  seq : value;
  text : value;
  type : value;
  is_final : value
}.

(** [TextFrame] applied to the keywords [kw] *)
Definition new (kw : list (str * value)) : outcome t :=
  if accepts [lit "seq"; lit "text"; lit "type"] [lit "is_final"] kw
  then Returned {| seq := field (lit "seq") VNone kw;
                   text := field (lit "text") VNone kw;
                   type := field (lit "type") VNone kw;
                   is_final := field (lit "is_final") (VBool false) kw |}
  else Raised TypeError.

Definition asdict (self : t) : value :=
  VDict [(lit "seq", seq self); (lit "text", text self);
         (lit "type", type self); (lit "is_final", is_final self)].

(** [TextFrame.to_json] *)
Definition to_json {J : JsonLib} (self : t) : outcome str :=
  json_dumps (asdict self).

Definition valid (self : t) : Prop :=
  (exists n, seq self = VInt n) /\ (exists s, text self = VStr s)
  /\ (exists s, type self = VStr s) /\ (exists b, is_final self = VBool b).
End TextFrame.

Module ControlCmd.
Record t : Type := {
  type : value;
  value_ : value;
  extra : value
}.

(** [ControlCmd] applied to the keywords [kw] *)
Definition new (kw : list (str * value)) : outcome t :=
  if accepts [lit "type"; lit "value"] [lit "extra"] kw
  then Returned {| type := field (lit "type") VNone kw;
                   value_ := field (lit "value") VNone kw;
                   extra := field (lit "extra") VNone kw |}
  else Raised TypeError.

Definition asdict (self : t) : value :=
  VDict [(lit "type", type self); (lit "value", value_ self);
         (lit "extra", extra self)].

(** [ControlCmd.to_json] *)
Definition to_json {J : JsonLib} (self : t) : outcome str :=
  json_dumps (asdict self).

(** [extra] is [None] or a dictionary of serializable values. *)
Definition valid (self : t) : Prop :=
  (exists s, type self = VStr s) /\ (exists s, value_ self = VStr s)
  /\ (extra self = VNone
      \/ exists d, extra self = VDict d /\ serializable (VDict d) = true).
End ControlCmd.

Module StatusMsg.
Record t : Type := {
  code : value;
  message : value;
  ref_seq : value
}.

(** [StatusMsg] applied to the keywords [kw] *)
Definition new (kw : list (str * value)) : outcome t :=
  if accepts [lit "code"; lit "message"] [lit "ref_seq"] kw
  then Returned {| code := field (lit "code") VNone kw;
                   message := field (lit "message") VNone kw;
                   ref_seq := field (lit "ref_seq") VNone kw |}
  else Raised TypeError.

Definition asdict (self : t) : value :=
  VDict [(lit "code", code self); (lit "message", message self);
         (lit "ref_seq", ref_seq self)].

(** [StatusMsg.to_json] *)
Definition to_json {J : JsonLib} (self : t) : outcome str :=
  json_dumps (asdict self).

Definition valid (self : t) : Prop :=
  (exists n, code self = VInt n) /\ (exists s, message self = VStr s)
  /\ (ref_seq self = VNone \/ exists n, ref_seq self = VInt n).
End StatusMsg.

(** What [parse_frame] returns when it is not [None]. *)
Inductive frame : Type :=
| Audio (f : AudioFrame.t)
| Text (f : TextFrame.t)
| Control (f : ControlCmd.t)
| Status (f : StatusMsg.t).

(** The fields the dataclass of a frame declares. *)
Definition fields_of (f : frame) : list str :=
  match f with
  | Audio _ => [lit "seq"; lit "pcm_data"; lit "is_final"]
  | Text _ => [lit "seq"; lit "text"; lit "type"; lit "is_final"]
  | Control _ => [lit "type"; lit "value"; lit "extra"]
  | Status _ => [lit "code"; lit "message"; lit "ref_seq"]
  end.

(** A dataclass called with the items of [data_dict] as keywords: the
    argument must be a mapping. *)
Definition construct {T : Type} (new : list (str * value) -> outcome T)
  (data_dict : value) : outcome T :=
  match data_dict with
  | VDict kw => new kw
  | _ => Raised TypeError
  end.

(** [x and y] on the outcomes of two membership tests: the second is not
    evaluated when the first is false. *)
Definition and_then (x : outcome bool) (y : outcome bool) : outcome bool :=
  match x with
  | Returned true => y
  | other => other
  end.

(** The body of the [try] block of [parse_frame]. *)
Definition parse_dict (data_dict : value) : outcome (option frame) :=
  let wrap {T} (c : T -> frame) (r : outcome T) : outcome (option frame) :=
    match r with
    | Returned f => Returned (Some (c f))
    | Raised e => Raised e
    end in
  match py_in (lit "pcm_data") data_dict with
  | Raised e => Raised e
  | Returned true => wrap Audio (construct AudioFrame.new data_dict)
  | Returned false =>
  match and_then (py_in (lit "text") data_dict)
                 (py_in (lit "type") data_dict) with
  | Raised e => Raised e
  | Returned true => wrap Text (construct TextFrame.new data_dict)
  | Returned false =>
  match and_then (py_in (lit "type") data_dict)
                 (py_in (lit "value") data_dict) with
  | Raised e => Raised e
  | Returned true => wrap Control (construct ControlCmd.new data_dict)
  | Returned false =>
  match and_then (py_in (lit "code") data_dict)
                 (py_in (lit "message") data_dict) with
  | Raised e => Raised e
  | Returned true => wrap Status (construct StatusMsg.new data_dict)
  | Returned false => Returned None
  end end end end.

(** [parse_frame]: both [except] clauses return [None]. *)
Definition parse_frame {J : JsonLib} (data : str) : option frame :=
  match loads data with
  | None => None
  | Some data_dict =>
      match parse_dict data_dict with
      | Returned r => r
      | Raised _ => None
      end
  end.

(** ** A small library that meets the contract

    [ToyJson] writes a value as a tag followed by its content, lists and
    dictionaries with their length in front.  It stands for the [json] module
    where a frame is to be encoded and parsed on an example. *)
Module ToyJson.

Definition enc_int (z : Z) : N :=
  match z with
  | Z0 => 0%N
  | Zpos p => Npos (xO p)
  | Zneg p => Npos (xI p)
  end.

Definition dec_int (n : N) : Z :=
  match n with
  | Npos (xO p) => Zpos p
  | Npos (xI p) => Zneg p
  | _ => Z0
  end.

Fixpoint enc (v : value) : str :=
  match v with
  | VNone => [0%N]
  | VBool b => [1%N; if b then 1%N else 0%N]
  | VInt n => [2%N; enc_int n]
  | VStr s => 3%N :: N.of_nat (List.length s) :: s
  | VBytes _ => [4%N]
  | VList l => 5%N :: N.of_nat (List.length l) :: flat_map enc l
  | VDict d =>
      6%N :: N.of_nat (List.length d)
      :: flat_map (fun kv : str * value =>
                     let (k, x) := kv in
                     N.of_nat (List.length k) :: k ++ enc x) d
  end.

Section Items.
Variable A : Type.
Variable item : str -> option (A * str).

(** [k] items read one after the other. *)
Fixpoint dec_items (k : nat) (s : str) : option (list A * str) :=
  match k with
  | O => Some ([], s)
  | S k' =>
      match item s with
      | None => None
      | Some (x, r) =>
          match dec_items k' r with
          | None => None
          | Some (l, r') => Some (x :: l, r')
          end
      end
  end.

End Items.

(** A key, its length in front, followed by a value read by [item]. *)
Definition dec_pair (item : str -> option (value * str)) (s : str)
  : option ((str * value) * str) :=
  match s with
  | [] => None
  | n :: r =>
      match item (skipn (N.to_nat n) r) with
      | None => None
      | Some (x, r') => Some ((firstn (N.to_nat n) r, x), r')
      end
  end.

(** The value at the start of [s] and what follows it; [fuel] bounds the
    nesting. *)
Fixpoint dec (fuel : nat) (s : str) : option (value * str) :=
  match fuel with
  | O => None
  | S fuel =>
      match s with
      | [] => None
      | tag :: r =>
          if (tag =? 0)%N then Some (VNone, r)
          else
            match r with
            | [] => None
            | n :: r =>
                if (tag =? 1)%N then Some (VBool (negb (n =? 0)%N), r)
                else if (tag =? 2)%N then Some (VInt (dec_int n), r)
                else if (tag =? 3)%N then
                  Some (VStr (firstn (N.to_nat n) r), skipn (N.to_nat n) r)
                else if (tag =? 5)%N then
                  match dec_items (dec fuel) (N.to_nat n) r with
                  | None => None
                  | Some (l, r') => Some (VList l, r')
                  end
                else if (tag =? 6)%N then
                  match dec_items (dec_pair (dec fuel)) (N.to_nat n) r with
                  | None => None
                  | Some (d, r') => Some (VDict d, r')
                  end
                else None
            end
      end
  end.

Definition toy_loads (s : str) : option value :=
  match dec (List.length s) s with
  | Some (v, []) => Some v
  | _ => None
  end.

Definition toy : JsonLib := {| dumps := enc; loads := toy_loads |}.

(** The nesting of lists and dictionaries in a value. *)
Fixpoint depth (v : value) : nat :=
  match v with
  | VList l => S (fold_right (fun x m => Nat.max (depth x) m) O l)
  | VDict d =>
      S (fold_right (fun (kv : str * value) m => Nat.max (depth (snd kv)) m)
           O d)
  | _ => O
  end.

End ToyJson.

(** ** Frames of the module's demonstration *)

(** [AudioFrame(seq=10, pcm_data=b'', is_final=False)] *)
Definition audio_cmd : AudioFrame.t :=
  {| AudioFrame.seq := VInt 10;
     AudioFrame.pcm_data := VBytes [];
     AudioFrame.is_final := VBool false |}.

(** [TextFrame(seq=1, text="好的，", type='llm_interim')] *)
Definition text_frame : TextFrame.t :=
  {| TextFrame.seq := VInt 1;
     TextFrame.text := VStr (lit "好的，");
     TextFrame.type := VStr (lit "llm_interim");
     TextFrame.is_final := VBool false |}.

End Protocol.

(* ===================================================================== *)
(** * server/models/asr_engine.py *)
(* ===================================================================== *)

Module Asr.

(** The transcription SDK ([SenseVoiceModel]): a stream object is created
    per utterance, fed chunk by chunk and flushed at the end. *)
Class SenseVoice : Type := {
  Stream : Type;
  create_stream : Z -> Z -> Stream;
  sdk_process_chunk : Stream -> bytes -> option str * Stream;
  sdk_end_stream : Stream -> option str
}.

(** An SDK that answers the chunks of a stream from a script, one entry
    per chunk, and flushes [final]. *)
Definition scripted_sdk (script : list (option str)) (final : option str)
  : SenseVoice :=
  {| Stream := list (option str);
     create_stream := fun _ _ => script;
     sdk_process_chunk := fun s _ =>
       match s with
       | [] => (None, [])
       | text :: rest => (text, rest)
       end;
     sdk_end_stream := fun _ => final |}.

Section Engine.
Context {sdk : SenseVoice}.

Record ASREngine : Type := {
  wakeup_word : str;
  sample_rate : Z;
  channels : Z;
  stream_instance : option Stream
}.

Definition set_stream (self : ASREngine) (s : option Stream) : ASREngine :=
  {| wakeup_word := wakeup_word self;
     sample_rate := sample_rate self;
     channels := channels self;
     stream_instance := s |}.

(** [ASREngine.__init__]; the default of [wakeup_word] is the literal below. *)
Definition default_wakeup_word : str := lit "小车小车".

Definition ASREngine_init (wakeup_word : str) : ASREngine :=
  {| wakeup_word := wakeup_word;
     sample_rate := 16000;
     channels := 1;
     stream_instance := None |}.

(** [ASREngine.end_stream] *)
Definition end_stream (self : ASREngine) : option str * ASREngine :=
  match stream_instance self with
  | None => (None, self)
  | Some s => (sdk_end_stream s, set_stream self None)
  end.

(** [ASREngine.start_stream] *)
Definition start_stream (self : ASREngine) : ASREngine :=
  let self :=
    match stream_instance self with
    | Some _ => snd (end_stream self)
    | None => self
    end in
  set_stream self (Some (create_stream (sample_rate self) (channels self))).

(** [ASREngine.transcribe_stream] *)
Definition transcribe_stream (self : ASREngine) (audio_chunk : bytes)
  : outcome (option str * ASREngine) :=
  match stream_instance self with
  | None => Raised RuntimeError
  | Some s =>
      let (text, s) := sdk_process_chunk s audio_chunk in
      Returned (text, set_stream self (Some s))
  end.

(** [transcribe_stream] called for the chunks of a list, one after the
    other, as the loop of [_asr_to_llm] and the module's demonstration do. *)
Fixpoint transcribe_all (self : ASREngine) (chunks : list bytes)
  : outcome (list (option str) * ASREngine) :=
  match chunks with
  | [] => Returned ([], self)
  | c :: rest =>
      r <- transcribe_stream self c ;;
      let (text, self) := r in
      rs <- transcribe_all self rest ;;
      let (texts, self) := rs in
      Returned (text :: texts, self)
  end.

(** The three characters [detect_wakeup_word] deletes from the text. *)
Definition fullwidth_comma : str := lit "，".
Definition ideographic_stop : str := lit "。".
Definition space : str := lit " ".

(** [text.replace('，', '').replace('。', '').replace(' ', '')] *)
Definition normalized (text : str) : str :=
  replace space [] None
    (replace ideographic_stop [] None (replace fullwidth_comma [] None text)).

(** The characters [normalized] keeps: all but U+FF0C, U+3002 and U+0020. *)
Definition kept (c : char) : bool :=
  negb (char_eqb c 65292%N) && negb (char_eqb c 12290%N)
  && negb (char_eqb c 32%N).

(** [ASREngine.detect_wakeup_word] *)
Definition detect_wakeup_word (self : ASREngine) (text : str) : bool :=
  match text with
  | [] => false
  | _ :: _ => contains (wakeup_word self) (normalized text)
  end.

End Engine.

End Asr.

(* ===================================================================== *)
(** * server/pipeline/conversation.py *)
(* ===================================================================== *)

Module Conversation.
Import Streaming Asr.

(** What iterating a generator to its end gives: the items it yields
    and, when it does not end normally, the exception it raises behind
    them. *)
Record generator (A : Type) : Type := {
  yielded : list A;
  raised : option exn
}.

(** The response engine and the synthesis engine.  The stream of the
    response engine is read inside the [try] of [_llm_chat_and_parse],
    which catches every exception: a stream that raises after some
    fragments behaves there as the stream of those fragments.  The stream
    of the synthesis engine is read by [_llm_to_tts], which catches
    nothing. *)
Class Engines : Type := {
  chat_stream : str -> list str;
  synthesize_stream : str -> generator bytes
}.

(** Engines that stream a given reply whatever the prompt and synthesize
    one chunk per text, as the mock engines of the module do. *)
Definition scripted_engines (reply : list str) : Engines :=
  {| chat_stream := fun _ => reply;
     synthesize_stream := fun _ =>
       {| yielded := [[x01; x01]]; raised := None |} |}.

(** The same with a synthesis engine that breaks down behind its first
    chunk. *)
Definition failing_synthesis (reply : list str) : Engines :=
  {| chat_stream := fun _ => reply;
     synthesize_stream := fun _ =>
       {| yielded := [[x01; x01]]; raised := Some RuntimeError |} |}.

(** The reply of the module's mock engine, which it yields one character at
    a time. *)
Definition mock_response : str :=
  lit "好的，我这就向前走五步。[ACTION:forward(5)]".

Definition mock_chat_stream : list str := map (fun c => [c]) mock_response.

Section Pattern.
Context {tables : UnicodeTables}.

(** [ACTION_PATTERN], the regular expression
    [\[ACTION:([a-zA-Z_]+\([\w\d\s,.]*\))]].  Neither character class
    contains the character that must follow its repetition, so the longest
    repetition is the only one that can lead to a match. *)
Definition name_char (c : char) : bool :=
  between 97 122 c || between 65 90 c || char_eqb c 95%N.

(** [\w], [\d], [\s], a comma or a full stop. *)
Definition arg_char (c : char) : bool :=
  isalnum c || char_eqb c 95%N || isspace c || char_eqb c 44%N
  || char_eqb c 46%N.

(** The longest prefix of characters of a class, and what follows it. *)
Fixpoint span (p : char -> bool) (s : str) : str * str :=
  match s with
  | [] => ([], [])
  | c :: r =>
      if p c then let (a, b) := span p r in (c :: a, b) else ([], s)
  end.

(** [s[len(p):]] when [s] starts with [p]. *)
Fixpoint strip_prefix (p s : str) : option str :=
  match p, s with
  | [], _ => Some s
  | x :: p', y :: s' => if char_eqb x y then strip_prefix p' s' else None
  | _ :: _, [] => None
  end.

(** A match of the pattern at the start of [s]: group 1 and the number of
    characters matched. *)
Definition match_here (s : str) : option (str * nat) :=
  match strip_prefix (lit "[ACTION:") s with
  | None => None
  | Some r =>
      let (name, r) := span name_char r in
      match name, r with
      | _ :: _, 40%N :: r =>
          let (args, r) := span arg_char r in
          match r with
          | 41%N :: 93%N :: _ =>
              let group := name ++ [40%N] ++ args ++ [41%N] in
              Some (group, (8 + List.length group + 1)%nat)
          | _ => None
          end
      | _, _ => None
      end
  end.

(** [ACTION_PATTERN.search(s)]: group 1 of the leftmost match. *)
Fixpoint search (s : str) : option str :=
  match match_here s with
  | Some (group, _) => Some group
  | None =>
      match s with
      | [] => None
      | _ :: r => search r
      end
  end.

(** [re.sub(ACTION_PATTERN, "", s)]: every match is deleted, from the left;
    [skip] counts the characters of a match still to be passed over. *)
Fixpoint sub_go (skip : nat) (s : str) : str :=
  match s with
  | [] => []
  | c :: r =>
      match skip with
      | S k => sub_go k r
      | O =>
          match match_here s with
          | Some (_, n) => sub_go (n - 1) r
          | None => c :: sub_go 0 r
          end
      end
  end.

Definition sub (s : str) : str := sub_go 0 s.

End Pattern.

Section Pipeline.
Context {tables : UnicodeTables} {sdk : SenseVoice} {engines : Engines}.

Record ConversationPipeline : Type := {
  asr_engine : ASREngine;
  manager : StreamingManager;
  conversation_active : bool
}.

(** [ConversationPipeline.__init__] *)
Definition ConversationPipeline_init (asr_engine : ASREngine)
  : ConversationPipeline :=
  {| asr_engine := asr_engine;
     manager := StreamingManager_init;
     conversation_active := false |}.

(** [start_new_session] *)
Definition start_new_session (self : ConversationPipeline)
  : ConversationPipeline :=
  {| asr_engine := start_stream (asr_engine self);
     manager := start_new_conversation (close_all (manager self));
     conversation_active := false |}.

(** Truth value of an [Optional[str]]. *)
Definition truthy (x : option str) : bool :=
  match x with
  | Some (_ :: _) => true
  | _ => false
  end.

(** The variables of the loop of [_llm_chat_and_parse]. *)
Record llm_vars : Type := {
  full_response : str;
  action_command : option str;
  llm_text_out : TextQueue
}.

(** One iteration of [for chunk in llm_stream]. *)
Definition llm_iteration (v : llm_vars) (chunk : str) : outcome llm_vars :=
  let full_response := full_response v ++ chunk in
  let found := search full_response in
  let (action_command, clean_chunk) :=
    match found with
    | Some group =>
        if negb (truthy (action_command v))
        then (Some group, sub chunk)
        else (action_command v, chunk)
    | None => (action_command v, chunk)
    end in
  text_out <- match clean_chunk with
              | [] => Returned (llm_text_out v)
              | _ :: _ => put (llm_text_out v) clean_chunk
              end ;;
  Returned {| full_response := full_response;
              action_command := action_command;
              llm_text_out := text_out |}.

Fixpoint llm_loop (v : llm_vars) (stream : list str) : outcome llm_vars :=
  match stream with
  | [] => Returned v
  | chunk :: rest => v <- llm_iteration v chunk ;; llm_loop v rest
  end.

(** The loop of [_llm_chat_and_parse] from its initial variables. *)
Definition llm_run (command_text : str) (text_out : TextQueue)
  : outcome llm_vars :=
  llm_loop {| full_response := []; action_command := None;
              llm_text_out := text_out |}
           (chat_stream command_text).

(** [_llm_chat_and_parse]: the loop, whose variables are dropped, and the
    [finally] clause.  The coroutine returns nothing; what remains of it is
    the queue. *)
Definition _llm_chat_and_parse (command_text : str) (text_out : TextQueue)
  : TextQueue :=
  match llm_run command_text text_out with
  | Returned v => close (llm_text_out v)
  | Raised _ => close text_out
  end.

(** The reply of a session in which the wake phrase was not heard. *)
Definition no_wakeup_reply : str :=
  lit "对不起，我没有听到唤醒词，请再说一次。".

(** The variables of the loop of [_asr_to_llm], with the objects it changes. *)
Record asr_vars : Type := {
  pipeline : ConversationPipeline;
  full_transcription : str;
  asr_text_out : TextQueue;
  launched : list str
}.

Definition set_engine (self : ConversationPipeline) (e : ASREngine)
  : ConversationPipeline :=
  {| asr_engine := e; manager := manager self;
     conversation_active := conversation_active self |}.

Definition set_active (self : ConversationPipeline) (b : bool)
  : ConversationPipeline :=
  {| asr_engine := asr_engine self; manager := manager self;
     conversation_active := b |}.

(** The text an iteration of the transcription loop adds to the transcript:
    what the engine returned, nothing for [None]. *)
Definition heard (text : option str) : str :=
  match text with
  | Some t => t
  | None => []
  end.

(** [full_transcription.replace(self.asr_engine.wakeup_word, "", 1).strip()] *)
Definition command_of (wakeup_word full_transcription : str) : str :=
  strip (replace wakeup_word [] (Some 1%nat) full_transcription).

(** One iteration of [async for audio_chunk in audio_in].  The task created
    for [_llm_chat_and_parse] is the only writer of [text_out] from then on
    and touches nothing else, so its effect on the queue is applied where it
    is created; [launched] records the prompts handed to it. *)
Definition asr_iteration (v : asr_vars) (audio_chunk : bytes)
  : outcome asr_vars :=
  r <- transcribe_stream (asr_engine (pipeline v)) audio_chunk ;;
  let (interim_text, engine) := r in
  let self := set_engine (pipeline v) engine in
  match interim_text with
  | Some (c :: t) =>
      let full_transcription := full_transcription v ++ c :: t in
      if negb (conversation_active self)
         && detect_wakeup_word (asr_engine self) full_transcription
      then
        let self := set_active self true in
        let command_text :=
          command_of (wakeup_word (asr_engine self)) full_transcription in
        Returned {| pipeline := self;
                    full_transcription := full_transcription;
                    asr_text_out :=
                      _llm_chat_and_parse command_text (asr_text_out v);
                    launched := launched v ++ [command_text] |}
      else
        Returned {| pipeline := self;
                    full_transcription := full_transcription;
                    asr_text_out := asr_text_out v;
                    launched := launched v |}
  | _ =>
      Returned {| pipeline := self;
                  full_transcription := full_transcription v;
                  asr_text_out := asr_text_out v;
                  launched := launched v |}
  end.

Fixpoint asr_loop (v : asr_vars) (chunks : list bytes) : outcome asr_vars :=
  match chunks with
  | [] => Returned v
  | c :: rest => v <- asr_iteration v c ;; asr_loop v rest
  end.

(** What [_asr_to_llm] returns and leaves behind. *)
Record asr_result : Type := {
  final_transcription : str;
  result_action_command : option str;
  after : asr_vars;
  audio_rest : AudioQueue
}.

(** The part of [_asr_to_llm] behind its loop. *)
Definition asr_finish (v : asr_vars) (audio_rest : AudioQueue)
  : outcome asr_result :=
  let action_command : option str := None in
  let (final_text, engine) := end_stream (asr_engine (pipeline v)) in
  let self := set_engine (pipeline v) engine in
  text_out <-
    (if negb (conversation_active self)
     then q <- put (asr_text_out v) no_wakeup_reply ;; Returned (close q)
     else Returned (asr_text_out v)) ;;
  Returned {| final_transcription := full_transcription v;
              result_action_command := action_command;
              after := {| pipeline := self;
                          full_transcription := full_transcription v;
                          asr_text_out := text_out;
                          launched := launched v |};
              audio_rest := audio_rest |}.

(** How the task of [_asr_to_llm] is found once it can go no further: it
    has returned; it has raised, in an iteration that began with the
    variables [v] and took its chunk, [audio_rest] being left; or it waits
    for audio that does not come. *)
Inductive asr_end : Type :=
| AsrReturned (r : asr_result)
| AsrRaised (e : exn) (v : asr_vars) (audio_rest : AudioQueue)
| AsrWaiting (v : asr_vars).

(** The coroutine over the items of the audio queue; taking an item that
    is there does not suspend it. *)
Fixpoint asr_items (v : asr_vars) (items : list (option bytes)) (fin : bool)
  : asr_end :=
  match items with
  | [] => AsrWaiting v
  | None :: rest =>
      match asr_finish v {| queue := rest; is_finished := fin |} with
      | Returned r => AsrReturned r
      | Raised e => AsrRaised e v {| queue := rest; is_finished := fin |}
      end
  | Some audio_chunk :: rest =>
      match asr_iteration v audio_chunk with
      | Returned v' => asr_items v' rest fin
      | Raised e => AsrRaised e v {| queue := rest; is_finished := fin |}
      end
  end.

Definition asr_task (self : ConversationPipeline) (audio_in : AudioQueue)
  (text_out : TextQueue) : asr_end :=
  asr_items {| pipeline := self; full_transcription := [];
               asr_text_out := text_out; launched := [] |}
            (queue audio_in) (is_finished audio_in).

(** [_asr_to_llm]: what awaiting it gives.  [None]: the coroutine stays
    suspended, the audio queue being never closed. *)
Definition _asr_to_llm (self : ConversationPipeline) (audio_in : AudioQueue)
  (text_out : TextQueue) : option (outcome asr_result) :=
  match asr_task self audio_in text_out with
  | AsrReturned r => Some (Returned r)
  | AsrRaised e _ _ => Some (Raised e)
  | AsrWaiting _ => None
  end.

(** How the task of [_llm_to_tts] is found once it can go no further: it
    has returned, the PCM queue closed; it has raised, in the synthesis of
    a text it took; or it waits for text that does not come.  [text_rest]
    is what it leaves in the text queue. *)
Inductive tts_end : Type :=
| TtsReturned (text_rest : TextQueue) (pcm_out : PCMQueue)
| TtsRaised (e : exn) (text_rest : TextQueue) (pcm_out : PCMQueue)
| TtsWaiting (pcm_out : PCMQueue).

(** The coroutine over the items of the text queue: the chunks a
    synthesis yields are put into [pcm_out], the exception it raises is
    not caught and leaves [pcm_out] as it is, open. *)
Fixpoint tts_items (items : list (option str)) (fin : bool)
  (pcm_out : PCMQueue) : tts_end :=
  match items with
  | [] => TtsWaiting pcm_out
  | None :: rest =>
      TtsReturned {| queue := rest; is_finished := fin |} (close pcm_out)
  | Some text_chunk :: rest =>
      let pcm_stream := synthesize_stream text_chunk in
      let pcm_out := put_chunks pcm_out (yielded pcm_stream) in
      match raised pcm_stream with
      | Some e => TtsRaised e {| queue := rest; is_finished := fin |} pcm_out
      | None => tts_items rest fin pcm_out
      end
  end.

(** [_llm_to_tts] *)
Definition _llm_to_tts (text_in : TextQueue) (pcm_out : PCMQueue) : tts_end :=
  tts_items (queue text_in) (is_finished text_in) pcm_out.

(** The items a task of [_llm_to_tts] leaves in the queue it read, and the
    PCM queue it leaves. *)
Definition text_left (t : tts_end) : list (option str) :=
  match t with
  | TtsReturned text_rest _ | TtsRaised _ text_rest _ => queue text_rest
  | TtsWaiting _ => []
  end.

Definition pcm_left (t : tts_end) : PCMQueue :=
  match t with
  | TtsReturned _ pcm_out | TtsRaised _ _ pcm_out | TtsWaiting pcm_out =>
      pcm_out
  end.

(** The state a call of [run_pipeline] leaves: the pipeline object and the
    three queue objects of the session. *)
Record session : Type := {
  self_after : ConversationPipeline;
  audio_in_after : AudioQueue;
  text_out_after : TextQueue;
  pcm_out_after : PCMQueue
}.

(** [run_pipeline], for an audio queue into which nothing more is put
    once the call has begun.  [get_queues] is outside the [try].  The tasks
    communicate through the queues only, each queue has one writer and one
    reader, and a task runs until it has to wait; the event loop starts
    them in the order of their creation: the task of [_asr_to_llm], that of
    [_llm_to_tts], then the one [_asr_to_llm] has created for
    [_llm_chat_and_parse], whose effect on the text queue is therefore
    applied where it is created, for what is read after it.
    - The transcription returns: the synthesis reads the text queue as the
      other two have left it, and the result is its own.
    - The transcription raises: the task of [_llm_to_tts] has by then made
      its first step, on the texts the queue held when the call began, and
      is cancelled with the rest of the queue unread.
    - A task that waits for ever: [None], the call never returns.
    The [finally] clause closes the three queues and drops the references
    of the manager. *)
Definition run_pipeline (self : ConversationPipeline)
  : option (outcome (bool * option str) * session) :=
  match get_queues (manager self) with
  | Raised e =>
      Some (Raised e,
            {| self_after := self;
               audio_in_after := StreamQueue_init bytes;
               text_out_after := StreamQueue_init str;
               pcm_out_after := StreamQueue_init bytes |})
  | Returned (audio_in, text_out, pcm_out) =>
      let finally (self : ConversationPipeline) a t p :=
        {| self_after :=
             {| asr_engine := asr_engine self;
                manager := close_all (manager self);
                conversation_active := conversation_active self |};
           audio_in_after := close a;
           text_out_after := close t;
           pcm_out_after := close p |} in
      match asr_task self audio_in text_out with
      | AsrWaiting _ => None
      | AsrRaised _ v audio_rest =>
          let first_step := _llm_to_tts text_out pcm_out in
          let taken :=
            (List.length (queue text_out)
             - List.length (text_left first_step))%nat in
          Some (Returned (false, None),
                finally (pipeline v) audio_rest
                  {| queue := skipn taken (queue (asr_text_out v));
                     is_finished := is_finished (asr_text_out v) |}
                  (pcm_left first_step))
      | AsrReturned final_result =>
          let action_command := result_action_command final_result in
          let v := after final_result in
          match _llm_to_tts (asr_text_out v) pcm_out with
          | TtsWaiting _ => None
          | TtsRaised _ text_rest pcm =>
              Some (Returned (false, None),
                    finally (pipeline v) (audio_rest final_result)
                      text_rest pcm)
          | TtsReturned text_rest pcm =>
              Some (Returned (true, action_command),
                    finally (pipeline v) (audio_rest final_result)
                      text_rest pcm)
          end
      end
  end.

(** The client of the module's demonstration ([mock_input_task]): the chunks
    are put into the audio queue of the session, which is then closed. *)
Fixpoint put_all (q : AudioQueue) (chunks : list bytes) : AudioQueue :=
  match chunks with
  | [] => q
  | c :: rest =>
      match put q c with
      | Returned q' => put_all q' rest
      | Raised _ => q
      end
  end.

Definition mock_input_task (self : ConversationPipeline) (chunks : list bytes)
  : ConversationPipeline :=
  {| asr_engine := asr_engine self;
     manager :=
       {| audio_in_queue :=
            option_map (fun q => close (put_all q chunks))
              (audio_in_queue (manager self));
          llm_text_out_queue := llm_text_out_queue (manager self);
          pcm_out_queue := pcm_out_queue (manager self) |};
     conversation_active := conversation_active self |}.

(** A session of the demonstration: a new pipeline, a new session, and the
    client's chunks uploaded. *)
Definition demo_session (wakeup_word : str) (chunks : list bytes)
  : ConversationPipeline :=
  mock_input_task
    (start_new_session
       (ConversationPipeline_init (ASREngine_init wakeup_word)))
    chunks.

(** [is_active] *)
Definition is_active (self : ConversationPipeline) : bool :=
  match audio_in_queue (manager self) with
  | Some _ => true
  | None => false
  end.

End Pipeline.

(** The chunks waiting in a text queue, and their concatenation: the text
    the synthesis stage will be given. *)
Definition chunks_of (q : TextQueue) : list str :=
  flat_map (fun item => match item with
                        | Some chunk => [chunk]
                        | None => []
                        end) (queue q).

Definition text_of (q : TextQueue) : str := concat (chunks_of q).

(** ** The scenarios of the demonstration

    One audio chunk is uploaded.  In the first scenario it is transcribed as
    the wake phrase and a command and the response engine is the mock one;
    in the second the reply comes in two fragments with one action each; in
    the third the transcript does not hold the wake phrase. *)
Definition demo_transcript : str := lit "小车小车，请向前走五步。".

Definition demo_sdk : SenseVoice := scripted_sdk [Some demo_transcript] None.

Definition unheard_sdk : SenseVoice := scripted_sdk [Some (lit "你好。")] None.

Definition demo_engines : Engines := scripted_engines mock_chat_stream.

Definition two_action_engines : Engines :=
  scripted_engines [lit "好的[ACTION:forward(5)]"; lit "然后[ACTION:stop()]"].

Definition split_action_engines : Engines :=
  scripted_engines [lit "好的[ACTION:forward"; lit "(5)]"].

Definition demo_audio : list bytes := [[x00; x00]].

End Conversation.

(* ===================================================================== *)
(** * server/api/server.py *)
(* ===================================================================== *)

Module Server.
Import Streaming Asr Conversation.

(** A connection object is known by its identity. *)
Definition WebSocket : Type := Z.

(** What a handler does to a connection. *)
Inductive event : Type :=
| SendBinary (ws : WebSocket) (payload : bytes)
| SendText (ws : WebSocket) (payload : str)
| Close (ws : WebSocket) (code : Z) (reason : str).

Section PetCar.
Context {tables : UnicodeTables} {sdk : SenseVoice} {engines : Engines}.

Record PetCarServer : Type := {
  host : str;
  port : Z;
  pipeline : ConversationPipeline;
  car_connection : option WebSocket;
  current_audio_queue : option AudioQueue;
  current_pcm_queue : option PCMQueue
}.

(** [PetCarServer.__init__] *)
Definition PetCarServer_init (host : str) (port : Z)
  (pipeline : ConversationPipeline) : PetCarServer :=
  {| host := host; port := port; pipeline := pipeline;
     car_connection := None;
     current_audio_queue := None;
     current_pcm_queue := None |}.

Definition set_car_connection (self : PetCarServer) (c : option WebSocket)
  : PetCarServer :=
  {| host := host self; port := port self; pipeline := pipeline self;
     car_connection := c;
     current_audio_queue := current_audio_queue self;
     current_pcm_queue := current_pcm_queue self |}.

Definition set_pipeline (self : PetCarServer) (p : ConversationPipeline)
  : PetCarServer :=
  {| host := host self; port := port self; pipeline := p;
     car_connection := car_connection self;
     current_audio_queue := current_audio_queue self;
     current_pcm_queue := current_pcm_queue self |}.

(** A coroutine of the server run to its end: how it ended, the server
    object it leaves and what it did to the connections, in order. *)
Definition run : Type := outcome unit * PetCarServer * list event.

(** The handlers of the three paths, which [_handle_connection] awaits. *)
Variable _audio_in_handler : PetCarServer -> WebSocket -> run.
Variable _audio_out_handler : PetCarServer -> WebSocket -> run.
Variable _control_handler : PetCarServer -> WebSocket -> run.

(** [_handle_connection] *)
Definition _handle_connection (self : PetCarServer) (websocket : WebSocket)
  (path : str) : run :=
  match car_connection self with
  | Some _ =>
      (Returned tt, self, [Close websocket 1008 (lit "Already connected")])
  | None =>
      let self := set_car_connection self (Some websocket) in
      let '(r, self, events) :=
        if str_eqb path (lit "/audio/in") then
          _audio_in_handler self websocket
        else if str_eqb path (lit "/audio/out") then
          _audio_out_handler self websocket
        else if str_eqb path (lit "/control") then
          _control_handler self websocket
        else
          (Returned tt, self, [Close websocket 1000 (lit "Unknown path")]) in
      (* except websockets.exceptions.ConnectionClosed *)
      let r :=
        match r with
        | Raised ConnectionClosed => Returned tt
        | other => other
        end in
      (* finally *)
      let self := set_car_connection self None in
      let self :=
        if is_active (pipeline self)
        then set_pipeline self
               {| asr_engine := asr_engine (pipeline self);
                  manager := close_all (manager (pipeline self));
                  conversation_active := conversation_active (pipeline self) |}
        else self in
      (r, self, events)
  end.

End PetCar.

Section Sending.
Context {sdk : SenseVoice} {J : Protocol.JsonLib}.

(** [_send_control_cmd].  [closed] tells whether the connection is closed
    when the frame is sent; [send] then raises [ConnectionClosed], which is
    caught. *)
Definition _send_control_cmd (self : PetCarServer) (closed : bool)
  (action_cmd_value : str) : outcome unit * list event :=
  match car_connection self with
  | Some ws =>
      match (cmd <- Protocol.ControlCmd.new
                      [(lit "type", Protocol.VStr (lit "action"));
                       (lit "value", Protocol.VStr action_cmd_value)] ;;
             Protocol.ControlCmd.to_json cmd) with
      | Returned payload =>
          if closed then (Returned tt, [])
          else (Returned tt, [SendText ws payload])
      | Raised e => (Raised e, [])
      end
  | None => (Returned tt, [])
  end.

End Sending.

(** A server that holds the connection 1, with the session of the
    demonstration, and handlers that do nothing. *)
Definition busy_server : @PetCarServer demo_sdk :=
  set_car_connection
    (PetCarServer_init (lit "0.0.0.0") 8765
       (@demo_session demo_sdk default_wakeup_word demo_audio))
    (Some 1).

Definition idle_handler (self : @PetCarServer demo_sdk) (ws : WebSocket)
  : @run demo_sdk :=
  (Returned tt, self, []).

End Server.

(* ===================================================================== *)
(** * car/audio/mic_client.py *)
(* ===================================================================== *)

Module Mic.
Import Vad.

(** The settings the module imports from [car.config]. *)
Record Config : Type := {
  AUDIO_CHUNK_SIZE : Z;
  AUDIO_RATE : Z;
  VAD_ENABLED : bool
}.

(** The values of [car/config.py]. *)
Definition car_config : Config :=
  {| AUDIO_CHUNK_SIZE := 1024; AUDIO_RATE := 16000; VAD_ENABLED := true |}.

(** The values the module falls back to when [car.config] is missing. *)
Definition fallback_config : Config :=
  {| AUDIO_CHUNK_SIZE := 1024; AUDIO_RATE := 16000; VAD_ENABLED := false |}.

Section Client.
Context {backend : VadBackend}.
Variable cfg : Config.

(** The part of a [MicClient] that decides what is sent: its detector. *)
Record MicClient : Type := {
  vad : option VADDetector;
  is_recording : bool
}.

(** How [MicClient.__init__] ends. *)
Inductive construction : Type :=
| Built (self : MicClient)
| RaisedValueError
| RaisedOverflowError
| RaisedZeroDivisionError.

(** [MicClient.__init__]: with [VAD_ENABLED] the detector is built for
    [(AUDIO_CHUNK_SIZE * 1000) // (AUDIO_RATE * 2)] milliseconds. *)
Definition MicClient_init : construction :=
  if VAD_ENABLED cfg then
    if AUDIO_RATE cfg * 2 =? 0 then RaisedZeroDivisionError
    else
      match VADDetector_init (AUDIO_RATE cfg)
              ((AUDIO_CHUNK_SIZE cfg * 1000) / (AUDIO_RATE cfg * 2))
              VAD_MODE with
      | Returned d => Built {| vad := Some d; is_recording := false |}
      | Raised OverflowError => RaisedOverflowError
      | Raised _ => RaisedValueError
      end
  else Built {| vad := None; is_recording := false |}.

(** The variables of the loop of [stream_audio_to_server], with the chunks
    sent so far. *)
Record streaming : Type := {
  detector : option VADDetector;
  voice_active : bool;
  sent : list bytes
}.

(** The truth value of a chunk, which [if not audio_chunk] tests. *)
Definition nonempty (audio_chunk : bytes) : bool :=
  match audio_chunk with [] => false | _ :: _ => true end.

(** What [process_chunk] answers for a chunk in the loop; false where the
    loop does not ask (an empty chunk, no detector). *)
Definition heard_speech (st : streaming) (audio_chunk : bytes) : bool :=
  match audio_chunk, (if VAD_ENABLED cfg then detector st else None) with
  | _ :: _, Some d => fst (process_chunk d audio_chunk)
  | _, _ => false
  end.

(** One iteration of [while self.is_recording] for a chunk the microphone
    returned, every [send] succeeding. *)
Definition stream_step (st : streaming) (audio_chunk : bytes) : streaming :=
  match audio_chunk with
  | [] => st
  | _ :: _ =>
      match (if VAD_ENABLED cfg then detector st else None) with
      | Some d =>
          let (is_speech, d) := process_chunk d audio_chunk in
          let '(d, voice_active, skip) :=
            if negb (voice_active st) && is_speech then (d, true, false)
            else if voice_active st && negb is_speech then
              let (ended, d) := is_silence_end d in
              if ended then (d, false, true) else (d, voice_active st, false)
            else (d, voice_active st, false) in
          if skip || negb voice_active then
            {| detector := Some d; voice_active := voice_active;
               sent := sent st |}
          else
            {| detector := Some d; voice_active := voice_active;
               sent := sent st ++ [audio_chunk] |}
      | None =>
          {| detector := detector st; voice_active := voice_active st;
             sent := sent st ++ [audio_chunk] |}
      end
  end.

(** The flag of the loop and the flag of the detector agree. *)
Definition in_step (st : streaming) : Prop :=
  exists d, detector st = Some d
            /\ voice_active st = active_speech_detected d.

(** [stream_audio_to_server] over the chunks read until the loop is left. *)
Definition stream_audio_to_server (self : MicClient) (reads : list bytes)
  : streaming :=
  fold_left stream_step reads
    {| detector := vad self; voice_active := false; sent := [] |}.

(** The chunks, empty ones apart, after which the detector, classifying
    and then polled as in [feed], holds active speech. *)
Fixpoint voiced (d : VADDetector) (reads : list bytes) : list bytes :=
  match reads with
  | [] => []
  | [] :: rest => voiced d rest
  | (_ :: _) as c :: rest =>
      (if active_speech_detected (snd (feed d c)) then [c] else [])
      ++ voiced (snd (feed d c)) rest
  end.

(** The answers of [process_chunk] along the loop. *)
Fixpoint heard_all (st : streaming) (reads : list bytes) : list bool :=
  match reads with
  | [] => []
  | c :: rest => heard_speech st c :: heard_all (stream_step st c) rest
  end.

End Client.

(** The client that [MicClient(url)] builds from the values of
    [car/config.py], over the backend of the demonstration, and chunks of
    the size its detector expects. *)
Definition car_client : @MicClient energy_backend :=
  {| vad := Some (@Build_VADDetector energy_backend 16000 32 1024 tt 0
                    false []);
     is_recording := false |}.

Definition QUIET_CHUNK : bytes := repeat x00 1024.
Definition LOUD_CHUNK : bytes := repeat x55 1024.

End Mic.

(* ===================================================================== *)
(** * car/main.py *)
(* ===================================================================== *)

Module Car.
Import Protocol.

(** [int(x)] of the interpreter for a string [x]; [None] where it raises
    [ValueError]. *)
Class IntReader : Type := {
  py_int : str -> option Z
}.

(** A reader for the numerals made of ASCII digits only, which [int] reads
    in base ten; it refuses everything else. *)
Fixpoint digits (acc : Z) (s : str) : option Z :=
  match s with
  | [] => Some acc
  | c :: r =>
      if between 48 57 c then digits (10 * acc + (Z.of_N c - 48)) r
      else None
  end.

Definition plain_digits : IntReader :=
  {| py_int := fun s => match s with [] => None | _ :: _ => digits 0 s end |}.

(** [s.split(sep)] for a separator of one character. *)
Fixpoint split (sep : char) (s : str) : list str :=
  match s with
  | [] => [[]]
  | c :: r =>
      if char_eqb c sep then [] :: split sep r
      else
        match split sep r with
        | x :: xs => (c :: x) :: xs
        | [] => [[c]]
        end
  end.

(** [s.rstrip(chars)] for a single character. *)
Fixpoint lstrip_char (ch : char) (s : str) : str :=
  match s with
  | [] => []
  | c :: r => if char_eqb c ch then lstrip_char ch r else s
  end.

Definition rstrip_char (ch : char) (s : str) : str :=
  rev (lstrip_char ch (rev s)).

(** The methods [execute_action_command] calls on the controller. *)
Inductive call : Type :=
| _move_car (direction : str) (duration_steps : Z)
| _turn_car (direction : str) (duration_degrees : Z)
| _stop_car.

(** How a coroutine of the controller ends. *)
Inductive ending : Type :=
| Returns
| RaisesAttributeError.

Section Controller.
Context {tables : UnicodeTables} {ints : IntReader}.

(** [int(params[0]) if params and params[0] else default]; [None] is the
    [ValueError] of [int]. *)
Definition first_param (params : list str) (default : Z) : option Z :=
  match params with
  | (_ :: _) as p :: _ => py_int p
  | _ => Some default
  end.

(** The branches on [action_name], inside the [try]: a [ValueError] of
    [int] is caught by the [except] clause, which stops the car.  The
    methods called raise nothing. *)
Definition perform (action_name : str) (params : list str) : list call :=
  let with_param (method : Z -> call) (default : Z) : list call :=
    match first_param params default with
    | Some n => [method n]
    | None => [_stop_car]
    end in
  if str_eqb action_name (lit "forward") then
    with_param (_move_car (lit "forward")) 1
  else if str_eqb action_name (lit "backward") then
    with_param (_move_car (lit "backward")) 1
  else if str_eqb action_name (lit "turn_left") then
    with_param (_turn_car (lit "left")) 90
  else if str_eqb action_name (lit "turn_right") then
    with_param (_turn_car (lit "right")) 90
  else if str_eqb action_name (lit "stop") then [_stop_car]
  else [].

(** [execute_action_command].  [cmd.value.strip()] is outside the [try]:
    a value without that method raises [AttributeError] to the caller;
    [bytes] have it, and fail in [split], inside the [try].  The
    [IndexError] of [split('(')[1]] is caught. *)
Definition execute_action_command (cmd : ControlCmd.t)
  : ending * list call :=
  let is_action :=
    match ControlCmd.type cmd with
    | VStr t => str_eqb t (lit "action")
    | _ => false
    end in
  if negb is_action then (Returns, [])
  else
    match ControlCmd.value_ cmd with
    | VStr value =>
        let action_str := strip value in
        match split 40%N action_str with
        | action_name :: second :: _ =>
            let params := split 44%N (rstrip_char 41%N second) in
            (Returns, perform action_name params)
        | _ => (Returns, [_stop_car])
        end
    | VBytes _ => (Returns, [_stop_car])
    | _ => (RaisesAttributeError, [])
    end.

End Controller.

End Car.

(* ===================================================================== *)
(** * car/comm/client.py *)
(* ===================================================================== *)

Module Client.
Import Protocol Car.

(** What the connection delivers. *)
Inductive message : Type :=
| Binary (payload : bytes)
| TextMessage (payload : str).

Section Listener.
Context {J : JsonLib}.

(** The handler the client was built with, [None] when it has none: a
    coroutine that takes a [ControlCmd]; how it ends and the calls it has
    made on the controller.  [CarController.__init__] passes
    [execute_action_command]. *)
Variable _control_handler : option (ControlCmd.t -> ending * list call).

(** [listen_for_control_commands] on an open connection, for the messages
    received until it is closed: the calls made on the controller.  The
    loop is inside the [try], so that an exception of the handler, caught by
    [except Exception], ends it.  A status message and an unknown frame are
    printed, a binary message is passed over. *)
Fixpoint listen_for_control_commands (messages : list message) : list call :=
  match messages with
  | [] => []
  | Binary _ :: rest => listen_for_control_commands rest
  | TextMessage payload :: rest =>
      match parse_frame payload, _control_handler with
      | Some (Control frame), Some handler =>
          match handler frame with
          | (Returns, calls) => calls ++ listen_for_control_commands rest
          | (RaisesAttributeError, calls) => calls
          end
      | _, _ => listen_for_control_commands rest
      end
  end.

End Listener.

End Client.

(* ===================================================================== *)
(** * Properties of the voice activity detector *)
(* ===================================================================== *)

Section VadProperties.
Import Vad.
Context {backend : VadBackend}.

Lemma rate_supported_In (r : Z) :
  rate_supported r = true <-> In r SUPPORTED_VAD_RATES.
Proof.
  unfold rate_supported. rewrite existsb_exists. split.
  - intros [x [Hin Heq]]. apply Z.eqb_eq in Heq. now subst.
  - intros Hin. exists r. split; [assumption | apply Z.eqb_refl].
Qed.

(** The quotient of a multiple of the divisor is exact as long as it is
    a float: below [2 ^ 53] in magnitude. *)
Lemma int_true_div_exact (b n : Z) :
  0 < b -> Z.abs n < 2 ^ 53 -> int_true_div (b * n) b = Returned n.
Proof.
  intros Hb Hn. unfold int_true_div.
  destruct (Z.eqb_spec (b * n) 0) as [E | E].
  - f_equal. nia.
  - assert (Hm : 0 < Z.abs n) by nia.
    rewrite Z.abs_mul, (Z.abs_eq b) by lia.
    set (m := Z.abs n) in *.
    assert (He : quotient_exponent (b * m) b <= 52).
    { unfold quotient_exponent.
      set (e := Z.log2 (b * m) - Z.log2 b).
      destruct (Z.leb_spec (b * 2 ^ Z.max e 0) (b * m * 2 ^ Z.max (- e) 0))
        as [H | _].
      - destruct (Z.le_gt_cases e 52) as [Hle | Hgt]; [exact Hle |].
        exfalso. rewrite Z.max_l, Z.max_r in H by lia.
        assert (H1 : 2 ^ 53 <= 2 ^ e) by (apply Z.pow_le_mono_r; lia).
        nia.
      - assert (H1 : Z.log2 (b * m) <= Z.log2 b + Z.log2 m + 1)
          by (apply Z.log2_mul_above; lia).
        assert (H2 : Z.log2 m < 53) by (apply Z.log2_lt_pow2; lia).
        unfold e. lia. }
    set (s := Z.max (quotient_exponent (b * m) b - 52) (-1074)).
    assert (Hs : s <= 0) by (unfold s; lia).
    assert (Hlow : -1074 <= s) by (unfold s; lia).
    rewrite (Z.max_r s 0), (Z.max_l (- s) 0) by lia.
    assert (Hp : 0 < 2 ^ (- s)) by (apply Z.pow_pos_nonneg; lia).
    assert (Hr : round_half_even (b * m * 2 ^ (- s)) (b * 2 ^ 0)
                 = m * 2 ^ (- s)).
    { unfold round_half_even. rewrite Z.pow_0_r, Z.mul_1_r.
      replace (b * m * 2 ^ (- s)) with (m * 2 ^ (- s) * b) by ring.
      rewrite Z.div_mul, Z.mod_mul by lia.
      destruct (Z.compare_spec (2 * 0) b); lia. }
    rewrite Hr.
    assert (Hno : (0 <=? s) && (2 ^ 1024 <=? m * 2 ^ (- s) * 2 ^ s) = false).
    { destruct (Z.leb_spec 0 s) as [H0 | H0]; [| reflexivity].
      assert (s = 0) by lia. subst s. rewrite H. simpl andb.
      apply Z.leb_gt. change (2 ^ (- 0)) with 1. change (2 ^ 0) with 1.
      assert (2 ^ 53 < 2 ^ 1024) by (apply Z.pow_lt_mono_r; lia).
      lia. }
    rewrite Hno. f_equal.
    rewrite Z.pow_0_r, Z.mul_1_r, Z.div_mul by lia.
    rewrite Z.sgn_mul, (Z.sgn_pos b) by lia.
    unfold m. destruct n; simpl; lia.
Qed.

(** The chunk size of a supported rate is a multiple of the duration. *)
Lemma supported_rate_product (r ms : Z) :
  In r SUPPORTED_VAD_RATES -> exists k, r * ms * 2 = 1000 * (k * ms).
Proof.
  unfold SUPPORTED_VAD_RATES. intros H.
  cbn [In] in H. destruct H as [<- | [<- | [<- | [<- | []]]]];
    [exists 16 | exists 32 | exists 64 | exists 96]; ring.
Qed.

Lemma init_returned (r ms a : Z) (d : VADDetector) :
  VADDetector_init r ms a = Returned d ->
  In r SUPPORTED_VAD_RATES
  /\ sample_rate d = r /\ chunk_duration_ms d = ms
  /\ int_true_div (r * ms * 2) 1000 = Returned (chunk_size d)
  /\ silence_chunks_count d = 0
  /\ active_speech_detected d = false
  /\ frame_buffer d = [].
Proof.
  unfold VADDetector_init. destruct (rate_supported r) eqn:Hr; simpl.
  - destruct (int_true_div (r * ms * 2) 1000) as [c | e]; simpl;
      [| discriminate].
    intros H. injection H as <-. simpl.
    apply rate_supported_In in Hr. repeat split; auto.
  - discriminate.
Qed.

(** C10, as the code has it.  A sample rate outside 8000, 16000, 32000 and
    48000, and only such a rate, makes the constructor raise [ValueError],
    whatever the duration.  For a supported rate, as long as
    [sample_rate * chunk_duration_ms * 2 / 1000] is below [2 ^ 53] in
    magnitude, the constructor gives a detector in the initial state whose
    chunk size is that number, the division being exact.  For a supported
    rate and any duration, it either raises [OverflowError], the float
    quotient being out of range, or gives a detector in the initial state
    whose chunk size is the integer part of the float quotient. *)
Theorem init_rejects_unsupported_rates
  (sample_rate chunk_duration_ms aggr : Z) :
  (~ In sample_rate SUPPORTED_VAD_RATES <->
   VADDetector_init sample_rate chunk_duration_ms aggr = Raised ValueError)
  /\ (In sample_rate SUPPORTED_VAD_RATES ->
      Z.abs (sample_rate * chunk_duration_ms * 2) < 1000 * 2 ^ 53 ->
      exists d,
        VADDetector_init sample_rate chunk_duration_ms aggr = Returned d
        /\ chunk_size d = sample_rate * chunk_duration_ms * 2 / 1000
        /\ chunk_size d * 1000 = sample_rate * chunk_duration_ms * 2
        /\ Vad.sample_rate d = sample_rate
        /\ silence_chunks_count d = 0
        /\ active_speech_detected d = false
        /\ frame_buffer d = [])
  /\ (In sample_rate SUPPORTED_VAD_RATES ->
      VADDetector_init sample_rate chunk_duration_ms aggr
      = Raised OverflowError
      \/ exists d,
           VADDetector_init sample_rate chunk_duration_ms aggr = Returned d
           /\ int_true_div (sample_rate * chunk_duration_ms * 2) 1000
              = Returned (chunk_size d)
           /\ Vad.sample_rate d = sample_rate
           /\ silence_chunks_count d = 0
           /\ active_speech_detected d = false
           /\ frame_buffer d = []).
Proof.
  split; [| split].
  - unfold VADDetector_init. rewrite <- rate_supported_In.
    destruct (rate_supported sample_rate); simpl.
    + split; [congruence |].
      destruct (int_true_div _ 1000) as [c | e] eqn:E; simpl;
        [discriminate |].
      unfold int_true_div in E.
      destruct (_ =? 0); [discriminate |].
      destruct (_ && _); [| discriminate].
      injection E as <-. discriminate.
    + split; intros H; congruence.
  - intros Hin Hbound.
    destruct (supported_rate_product chunk_duration_ms Hin) as [k Hk].
    apply rate_supported_In in Hin.
    unfold VADDetector_init. rewrite Hin. cbn [negb].
    rewrite Hk in *. rewrite int_true_div_exact by lia. cbn [bind].
    eexists. split; [reflexivity |].
    cbn [chunk_size Vad.sample_rate silence_chunks_count
         active_speech_detected frame_buffer].
    rewrite (Z.mul_comm 1000), Z.div_mul by lia.
    repeat split.
  - intros Hin. apply rate_supported_In in Hin.
    unfold VADDetector_init. rewrite Hin. simpl.
    destruct (int_true_div _ 1000) as [c | e] eqn:E; simpl.
    + right. eexists. repeat split.
    + left. unfold int_true_div in E.
      destruct (_ =? 0); [discriminate |].
      destruct (_ && _); [| discriminate].
      injection E as <-. reflexivity.
Qed.

(** ** Runs of [feed] *)

Lemma feed_all_cons (d : VADDetector) (c : bytes) (rest : list bytes) :
  feed_all d (c :: rest) =
  (fst (feed d c) :: fst (feed_all (snd (feed d c)) rest),
   snd (feed_all (snd (feed d c)) rest)).
Proof.
  simpl. destruct (feed d c) as [r d1]. simpl.
  destruct (feed_all d1 rest) as [rs d2]. reflexivity.
Qed.

Lemma verdicts_cons (d : VADDetector) (c : bytes) (rest : list bytes) :
  verdicts d (c :: rest) =
  fst (fst (feed d c)) :: verdicts (snd (feed d c)) rest.
Proof. unfold verdicts. now rewrite feed_all_cons. Qed.

Lemma polls_cons (d : VADDetector) (c : bytes) (rest : list bytes) :
  polls d (c :: rest) = snd (fst (feed d c)) :: polls (snd (feed d c)) rest.
Proof. unfold polls. now rewrite feed_all_cons. Qed.

Lemma final_cons (d : VADDetector) (c : bytes) (rest : list bytes) :
  snd (feed_all d (c :: rest)) = snd (feed_all (snd (feed d c)) rest).
Proof. now rewrite feed_all_cons. Qed.

Lemma feed_eq (d : VADDetector) (c : bytes) :
  feed d c =
  ((fst (process_chunk d c), fst (is_silence_end (snd (process_chunk d c)))),
   snd (is_silence_end (snd (process_chunk d c)))).
Proof.
  unfold feed. destruct (process_chunk d c) as [sp d1]. simpl.
  destruct (is_silence_end d1) as [e d2]. reflexivity.
Qed.

(** ** The cases of [process_chunk] and [is_silence_end] *)

Lemma process_chunk_missized (d : VADDetector) (c : bytes) :
  len c <> chunk_size d -> process_chunk d c = (false, d).
Proof.
  intros H. unfold process_chunk.
  apply Z.eqb_neq in H. rewrite H. reflexivity.
Qed.

Lemma process_chunk_speech (d : VADDetector) (c : bytes) :
  fst (process_chunk d c) = true ->
  active_speech_detected (snd (process_chunk d c)) = true
  /\ silence_chunks_count (snd (process_chunk d c)) = 0
  /\ chunk_size (snd (process_chunk d c)) = chunk_size d
  /\ frame_buffer (snd (process_chunk d c)) = frame_buffer d.
Proof.
  unfold process_chunk. destruct (negb (len c =? chunk_size d)).
  - discriminate.
  - destruct (is_speech (_vad d) c (sample_rate d)) as [sp v].
    destruct sp; simpl; [auto | discriminate].
Qed.

Lemma process_chunk_silence (d : VADDetector) (c : bytes) :
  len c = chunk_size d ->
  fst (process_chunk d c) = false ->
  active_speech_detected (snd (process_chunk d c)) = active_speech_detected d
  /\ silence_chunks_count (snd (process_chunk d c)) =
     (if active_speech_detected d
      then silence_chunks_count d + 1
      else silence_chunks_count d)
  /\ chunk_size (snd (process_chunk d c)) = chunk_size d
  /\ frame_buffer (snd (process_chunk d c)) =
     deque_append frame_buffer_maxlen (frame_buffer d) c.
Proof.
  intros Hlen. unfold process_chunk. rewrite Hlen, Z.eqb_refl. simpl.
  destruct (is_speech (_vad d) c (sample_rate d)) as [sp v].
  destruct sp; simpl; [discriminate | auto].
Qed.

Lemma process_chunk_stays_silent (d : VADDetector) (c : bytes) :
  active_speech_detected d = false ->
  fst (process_chunk d c) = false ->
  active_speech_detected (snd (process_chunk d c)) = false.
Proof.
  intros Ha Hv. destruct (Z.eq_dec (len c) (chunk_size d)) as [E | E].
  - destruct (process_chunk_silence d c E Hv) as [H _]. congruence.
  - rewrite process_chunk_missized by assumption. exact Ha.
Qed.

Lemma is_silence_end_inactive (d : VADDetector) :
  active_speech_detected d = false -> is_silence_end d = (false, d).
Proof. intros H. unfold is_silence_end. rewrite H. reflexivity. Qed.

Lemma is_silence_end_active (d : VADDetector) :
  active_speech_detected d = true ->
  is_silence_end d =
  if SILENCE_CHUNK_COUNT <? silence_chunks_count d
  then (true, set_state d 0 false [])
  else (false, d).
Proof. intros H. unfold is_silence_end. rewrite H. reflexivity. Qed.

Lemma process_chunk_chunk_size (d : VADDetector) (c : bytes) :
  chunk_size (snd (process_chunk d c)) = chunk_size d.
Proof.
  unfold process_chunk. destruct (negb (len c =? chunk_size d)).
  - reflexivity.
  - destruct (is_speech (_vad d) c (sample_rate d)) as [sp v].
    destruct sp; reflexivity.
Qed.

Lemma is_silence_end_chunk_size (d : VADDetector) :
  chunk_size (snd (is_silence_end d)) = chunk_size d.
Proof.
  unfold is_silence_end.
  destruct (active_speech_detected d
            && (SILENCE_CHUNK_COUNT <? silence_chunks_count d));
    reflexivity.
Qed.

Lemma feed_all_chunk_size (l : list bytes) :
  forall d : VADDetector, chunk_size (snd (feed_all d l)) = chunk_size d.
Proof.
  induction l as [| c rest IH]; intros d.
  - reflexivity.
  - rewrite final_cons, IH, feed_eq. simpl.
    now rewrite is_silence_end_chunk_size, process_chunk_chunk_size.
Qed.

(** A frame that is not speech, met while no speech is active, keeps the
    detector silent and the end-of-utterance test false. *)
Lemma feed_silent (d : VADDetector) (c : bytes) :
  active_speech_detected d = false ->
  fst (fst (feed d c)) = false ->
  snd (fst (feed d c)) = false
  /\ active_speech_detected (snd (feed d c)) = false.
Proof.
  intros Ha. rewrite feed_eq. simpl. intros Hv.
  pose proof (process_chunk_stays_silent d c Ha Hv) as Ha'.
  rewrite (is_silence_end_inactive _ Ha'). auto.
Qed.

Lemma feed_all_silent (frames : list bytes) :
  forall d : VADDetector,
    active_speech_detected d = false ->
    Forall (fun v => v = false) (verdicts d frames) ->
    Forall (fun e => e = false) (polls d frames)
    /\ active_speech_detected (snd (feed_all d frames)) = false.
Proof.
  induction frames as [| c rest IH]; intros d Ha Hv.
  - split; [constructor | exact Ha].
  - rewrite verdicts_cons in Hv. inversion Hv as [| ? ? Hc Hrest]; subst.
    destruct (feed_silent d c Ha Hc) as [Hp Ha'].
    destruct (IH _ Ha' Hrest) as [Hps Hfin].
    rewrite polls_cons, final_cons. split; [constructor |]; assumption.
Qed.

(** C8.  From the initial state, a run whose frames are all classified as
    not speech never makes [is_silence_end] answer true, at whatever frame
    it is asked, and leaves the detector without active speech. *)
Theorem silence_never_ends_an_utterance
  (sample_rate chunk_duration_ms aggr : Z) (d0 : VADDetector)
  (frames : list bytes) :
  VADDetector_init sample_rate chunk_duration_ms aggr = Returned d0 ->
  Forall (fun v => v = false) (verdicts d0 frames) ->
  Forall (fun e => e = false) (polls d0 frames)
  /\ active_speech_detected (snd (feed_all d0 frames)) = false.
Proof.
  intros Hinit Hv. apply init_returned in Hinit.
  apply feed_all_silent; [apply Hinit | exact Hv].
Qed.

(** The number of trailing silent frames at which the count first exceeds
    [SILENCE_CHUNK_COUNT]. *)
Local Abbreviation crossing := (S (Z.to_nat SILENCE_CHUNK_COUNT)).

(** A speech frame, in any state: speech becomes active, the count is zero
    and the end-of-utterance test is false. *)
Lemma feed_speech (d : VADDetector) (c : bytes) :
  fst (fst (feed d c)) = true ->
  snd (fst (feed d c)) = false
  /\ active_speech_detected (snd (feed d c)) = true
  /\ silence_chunks_count (snd (feed d c)) = 0
  /\ chunk_size (snd (feed d c)) = chunk_size d.
Proof.
  rewrite feed_eq. simpl. intros Hv.
  destruct (process_chunk_speech d c Hv) as (Ha & Hc & Hs & _).
  rewrite (is_silence_end_active _ Ha), Hc. simpl. auto.
Qed.

(** A well-sized frame that is not speech, met while speech is active:
    the count grows by one and the test answers whether it now exceeds the
    threshold, resetting the detector when it does. *)
Lemma feed_trailing_silence (d : VADDetector) (c : bytes) :
  active_speech_detected d = true ->
  len c = chunk_size d ->
  fst (fst (feed d c)) = false ->
  let d' := snd (feed d c) in
  snd (fst (feed d c)) = (SILENCE_CHUNK_COUNT <? silence_chunks_count d + 1)
  /\ chunk_size d' = chunk_size d
  /\ ((SILENCE_CHUNK_COUNT <? silence_chunks_count d + 1) = true ->
      active_speech_detected d' = false /\ silence_chunks_count d' = 0
      /\ frame_buffer d' = [])
  /\ ((SILENCE_CHUNK_COUNT <? silence_chunks_count d + 1) = false ->
      active_speech_detected d' = true
      /\ silence_chunks_count d' = silence_chunks_count d + 1).
Proof.
  intros Ha Hlen. rewrite feed_eq. simpl. intros Hv.
  destruct (process_chunk_silence d c Hlen Hv) as (Ha' & Hc & Hs & _).
  rewrite Ha in Ha', Hc.
  rewrite (is_silence_end_active _ Ha'), Hc.
  destruct (SILENCE_CHUNK_COUNT <? silence_chunks_count d + 1) eqn:E; simpl;
    repeat split; auto; discriminate.
Qed.

(** Trailing silence up to the crossing: the test is false on every frame
    but the last, true on the last, and the detector is reset. *)
Lemma trailing_silence_run (silences : list bytes) :
  forall d : VADDetector,
    active_speech_detected d = true ->
    0 <= silence_chunks_count d <= SILENCE_CHUNK_COUNT ->
    silence_chunks_count d + len silences = SILENCE_CHUNK_COUNT + 1 ->
    Forall (fun c => len c = chunk_size d) silences ->
    verdicts d silences = repeat false (List.length silences) ->
    polls d silences = repeat false (List.length silences - 1) ++ [true]
    /\ active_speech_detected (snd (feed_all d silences)) = false
    /\ silence_chunks_count (snd (feed_all d silences)) = 0
    /\ frame_buffer (snd (feed_all d silences)) = [].
Proof.
  unfold len. pose proof (eq_refl : SILENCE_CHUNK_COUNT = 50) as HS.
  induction silences as [| c rest IH]; intros d Ha Hk Hsum Hsz Hv.
  - simpl in Hsum. lia.
  - inversion Hsz as [| ? ? Hc Hrest]; subst.
    rewrite verdicts_cons in Hv. simpl in Hv.
    injection Hv as Hv1 Hv2.
    destruct (feed_trailing_silence d c Ha Hc Hv1) as (Hp & Hcs & Hyes & Hno).
    rewrite polls_cons, final_cons, Hp.
    destruct rest as [| c2 rest2].
    + simpl in Hsum. simpl.
      assert (E : (SILENCE_CHUNK_COUNT <? silence_chunks_count d + 1) = true)
        by (apply Z.ltb_lt; lia).
      rewrite E. destruct (Hyes E) as (? & ? & ?). auto.
    + assert (E : (SILENCE_CHUNK_COUNT <? silence_chunks_count d + 1) = false).
      { apply Z.ltb_ge. simpl List.length in Hsum. lia. }
      rewrite E. destruct (Hno E) as (Ha' & Hcnt').
      destruct (IH (snd (feed d c))) as (Hps & Hfin); auto.
      * rewrite Hcnt'. simpl List.length in Hsum. lia.
      * rewrite Hcnt'. simpl List.length in *. lia.
      * rewrite Hcs. exact Hrest.
      * split; [| exact Hfin].
        rewrite Hps. simpl List.length.
        replace (S (S (List.length rest2)) - 1)%nat
          with (S (S (List.length rest2) - 1))%nat by lia.
        reflexivity.
Qed.

(** One speech frame and the silence that follows it up to the crossing,
    from any state. *)
Lemma speech_then_silence (d : VADDetector) (speech : bytes)
  (silences : list bytes) :
  List.length silences = crossing ->
  Forall (fun c => len c = chunk_size d) silences ->
  verdicts d (speech :: silences) = true :: repeat false crossing ->
  polls d (speech :: silences) = repeat false crossing ++ [true]
  /\ active_speech_detected (snd (feed_all d (speech :: silences))) = false
  /\ silence_chunks_count (snd (feed_all d (speech :: silences))) = 0
  /\ frame_buffer (snd (feed_all d (speech :: silences))) = [].
Proof.
  intros Hlen Hsz Hv. rewrite verdicts_cons in Hv.
  injection Hv as Hv1 Hv2.
  destruct (feed_speech d speech Hv1) as (Hp & Ha & Hcnt & Hcs).
  rewrite polls_cons, final_cons, Hp.
  destruct (@trailing_silence_run silences (snd (feed d speech)))
    as (Hps & Hfin).
  - exact Ha.
  - rewrite Hcnt. unfold SILENCE_CHUNK_COUNT. lia.
  - rewrite Hcnt. unfold len. rewrite Hlen. reflexivity.
  - rewrite Hcs. exact Hsz.
  - rewrite Hlen. exact Hv2.
  - split; [| exact Hfin]. rewrite Hps, Hlen. reflexivity.
Qed.

(** C4.  From the initial state, one speech frame followed by silent frames:
    [is_silence_end] answers false on the speech frame and on the first
    [SILENCE_CHUNK_COUNT] silent frames, true on the next one, where the
    count crosses the threshold; the detector is then reset (no active
    speech, count zero, buffer empty), and the same sequence of frames fed
    again gives the same answers. *)
Theorem utterance_end_on_threshold_crossing
  (sample_rate chunk_duration_ms aggr : Z) (d0 : VADDetector)
  (speech : bytes) (silences : list bytes) :
  VADDetector_init sample_rate chunk_duration_ms aggr = Returned d0 ->
  List.length silences = crossing ->
  Forall (fun c => len c = chunk_size d0) silences ->
  verdicts d0 (speech :: silences) = true :: repeat false crossing ->
  let d1 := snd (feed_all d0 (speech :: silences)) in
  polls d0 (speech :: silences) = repeat false crossing ++ [true]
  /\ active_speech_detected d1 = false
  /\ silence_chunks_count d1 = 0
  /\ frame_buffer d1 = []
  /\ (verdicts d1 (speech :: silences) = true :: repeat false crossing ->
      polls d1 (speech :: silences) = repeat false crossing ++ [true]).
Proof.
  intros _ Hlen Hsz Hv d1.
  destruct (speech_then_silence d0 speech Hlen Hsz Hv) as (Hp & Ha & Hc & Hb).
  repeat split; try assumption.
  intros Hv1. apply speech_then_silence; try assumption.
  assert (Hcs : chunk_size d1 = chunk_size d0)
    by apply feed_all_chunk_size.
  rewrite Hcs. exact Hsz.
Qed.

(** ** The frame buffer *)

Lemma lastn_length (A : Type) (n : nat) (l : list A) :
  (List.length (lastn n l) <= n)%nat.
Proof. unfold lastn. rewrite length_skipn. lia. Qed.

Lemma process_chunk_buffer (d : VADDetector) (c : bytes) :
  frame_buffer (snd (process_chunk d c)) = frame_buffer d
  \/ frame_buffer (snd (process_chunk d c)) =
     deque_append frame_buffer_maxlen (frame_buffer d) c.
Proof.
  unfold process_chunk. destruct (negb (len c =? chunk_size d)).
  - now left.
  - destruct (is_speech (_vad d) c (sample_rate d)) as [sp v].
    destruct sp; simpl; [now left | now right].
Qed.

Lemma apply_call_bounded (d : VADDetector) (c : call) :
  (List.length (frame_buffer d) <= frame_buffer_maxlen)%nat ->
  (List.length (frame_buffer (apply_call d c)) <= frame_buffer_maxlen)%nat.
Proof.
  intros H. destruct c as [chunk | | |]; simpl.
  - destruct (process_chunk_buffer d chunk) as [E | E]; rewrite E.
    + exact H.
    + apply lastn_length.
  - unfold is_silence_end.
    destruct (active_speech_detected d
              && (SILENCE_CHUNK_COUNT <? silence_chunks_count d)); simpl.
    + lia.
    + exact H.
  - lia.
  - lia.
Qed.

Lemma apply_calls_bounded (cs : list call) :
  forall d : VADDetector,
    (List.length (frame_buffer d) <= frame_buffer_maxlen)%nat ->
    (List.length (frame_buffer (apply_calls d cs)) <= frame_buffer_maxlen)%nat.
Proof.
  unfold apply_calls. induction cs as [| c rest IH]; intros d H; simpl.
  - exact H.
  - apply IH. now apply apply_call_bounded.
Qed.

(** C6, as the code has it.  In every state [d] reached from the initial one
    by calls of the detector's methods, and for every chunk: the buffer of
    [d] and the buffer after [process_chunk] hold at most
    [SILENCE_CHUNK_COUNT // 2] frames; a frame classified as speech leaves
    the buffer as it is; a chunk of the wrong size leaves the detector as it
    is; a well-sized frame that is not speech is appended, the oldest frame
    being dropped on overflow, whether speech is active or not; and the
    buffer is emptied by [get_buffered_frames], by [reset] and by
    [is_silence_end] when it answers true. *)
Theorem frame_buffer_bounded_and_kept_on_speech
  (sample_rate chunk_duration_ms aggr : Z) (d0 : VADDetector)
  (cs : list call) (chunk : bytes) :
  VADDetector_init sample_rate chunk_duration_ms aggr = Returned d0 ->
  let d := apply_calls d0 cs in
  let r := process_chunk d chunk in
  (List.length (frame_buffer d) <= frame_buffer_maxlen)%nat
  /\ (List.length (frame_buffer (snd r)) <= frame_buffer_maxlen)%nat
  /\ (fst r = true -> frame_buffer (snd r) = frame_buffer d)
  /\ (len chunk <> chunk_size d -> r = (false, d))
  /\ (len chunk = chunk_size d -> fst r = false ->
      frame_buffer (snd r)
      = lastn frame_buffer_maxlen (frame_buffer d ++ [chunk]))
  /\ frame_buffer (snd (get_buffered_frames d)) = []
  /\ frame_buffer (reset d) = []
  /\ frame_buffer (snd (is_silence_end d)) =
     (if fst (is_silence_end d) then [] else frame_buffer d).
Proof.
  intros Hinit d r.
  assert (Hd : (List.length (frame_buffer d) <= frame_buffer_maxlen)%nat).
  { apply apply_calls_bounded. apply init_returned in Hinit.
    destruct Hinit as (_ & _ & _ & _ & _ & _ & Hb). rewrite Hb. simpl. lia. }
  split; [exact Hd |]. split.
  { apply (apply_call_bounded d (ProcessChunk chunk) Hd). }
  split. { intros Hv. apply (process_chunk_speech d chunk Hv). }
  split. { apply process_chunk_missized. }
  split. { intros Hlen Hv. apply (process_chunk_silence d chunk Hlen Hv). }
  split; [reflexivity |]. split; [reflexivity |].
  unfold is_silence_end.
  destruct (active_speech_detected d
            && (SILENCE_CHUNK_COUNT <? silence_chunks_count d)); reflexivity.
Qed.

End VadProperties.

(** ** The detector of the demonstration *)

Lemma demo_detector_init :
  @Vad.VADDetector_init Vad.energy_backend 16000 20 Vad.VAD_MODE
  = Returned Vad.demo_detector.
Proof. reflexivity. Qed.

Lemma mock_detector_init :
  @Vad.VADDetector_init Vad.mock_backend 16000 20 Vad.VAD_MODE
  = Returned Vad.mock_detector.
Proof. reflexivity. Qed.

(** C10 as stated fails for durations no frame has.  At 8000 Hz and
    [2 ^ 53 + 1] ms the float quotient is rounded and the chunk size is not
    [sample_rate * chunk_duration_ms * 2 / 1000]; at [10 ^ 400] ms the
    quotient is no float and the constructor, the rate being supported,
    raises [OverflowError]. *)
Lemma init_rounds_or_overflows_for_huge_durations :
  (exists d,
      @Vad.VADDetector_init Vad.energy_backend 8000 (2 ^ 53 + 1) Vad.VAD_MODE
      = Returned d
      /\ Vad.chunk_size d = 144115188075855872
      /\ 8000 * (2 ^ 53 + 1) * 2 / 1000 = 144115188075855888)
  /\ In 8000 Vad.SUPPORTED_VAD_RATES
  /\ @Vad.VADDetector_init Vad.energy_backend 8000 (10 ^ 400) Vad.VAD_MODE
     = Raised OverflowError.
Proof.
  split; [| split].
  - eexists. split; [vm_compute; reflexivity |]. split; reflexivity.
  - simpl. auto.
  - vm_compute. reflexivity.
Qed.

Lemma repeat_Forall (A : Type) (P : A -> Prop) (x : A) (n : nat) :
  P x -> Forall P (repeat x n).
Proof. intros H. induction n; simpl; constructor; assumption. Qed.

(** C8 on silence alone: sixty silent frames of the demonstration. *)
Lemma silence_never_ends_an_utterance_witness :
  Forall (fun e => e = false)
    (Vad.polls Vad.demo_detector (repeat Vad.SILENCE_CHUNK 60))
  /\ Vad.active_speech_detected
       (snd (Vad.feed_all Vad.demo_detector (repeat Vad.SILENCE_CHUNK 60)))
     = false.
Proof.
  apply (@silence_never_ends_an_utterance Vad.energy_backend
           16000 20 Vad.VAD_MODE).
  - reflexivity.
  - vm_compute. repeat constructor.
Defined.

(** C4 on one noise frame and fifty-one silent frames of the demonstration. *)
Lemma utterance_end_on_threshold_crossing_witness :
  Vad.polls Vad.demo_detector (Vad.NOISE_CHUNK :: repeat Vad.SILENCE_CHUNK 51)
  = repeat false 51 ++ [true].
Proof.
  refine (proj1 (@utterance_end_on_threshold_crossing Vad.energy_backend
                   16000 20 Vad.VAD_MODE Vad.demo_detector
                   Vad.NOISE_CHUNK (repeat Vad.SILENCE_CHUNK 51) _ _ _ _)).
  - reflexivity.
  - reflexivity.
  - apply repeat_Forall. reflexivity.
  - vm_compute. reflexivity.
Defined.

(** C6: the statement on the demonstration's detector after one silent
    frame. *)
Lemma frame_buffer_bounded_and_kept_on_speech_witness :
  (List.length
     (Vad.frame_buffer
        (Vad.apply_calls Vad.demo_detector
           [Vad.ProcessChunk Vad.SILENCE_CHUNK]))
   <= Vad.frame_buffer_maxlen)%nat.
Proof.
  refine (proj1 (@frame_buffer_bounded_and_kept_on_speech Vad.energy_backend
                   16000 20 Vad.VAD_MODE Vad.demo_detector
                   [Vad.ProcessChunk Vad.SILENCE_CHUNK] Vad.NOISE_CHUNK _)).
  reflexivity.
Defined.

(** C6 as stated fails.  With the backend that hears any non-zero byte: a
    silent frame followed by a noise frame, the second is classified as
    speech and the buffer still holds the first; a noise frame followed by a
    silent frame, the buffer holds a frame seen after the onset of speech.
    With the mock backend of the module, whose calls 1..9 and 21..29 answer
    speech: after ten frames speech is active and the buffer holds the
    tenth; the twenty-first frame is classified as speech and the buffer
    still holds the eleven frames before it. *)
Lemma frame_buffer_not_cleared_on_speech :
  fst (Vad.process_chunk
         (Vad.process_all Vad.demo_detector [Vad.SILENCE_CHUNK])
         Vad.NOISE_CHUNK) = true
  /\ Vad.frame_buffer
       (Vad.process_all Vad.demo_detector [Vad.SILENCE_CHUNK; Vad.NOISE_CHUNK])
     = [Vad.SILENCE_CHUNK]
  /\ Vad.active_speech_detected
       (Vad.process_all Vad.demo_detector [Vad.NOISE_CHUNK]) = true
  /\ Vad.frame_buffer
       (Vad.process_all Vad.demo_detector [Vad.NOISE_CHUNK; Vad.SILENCE_CHUNK])
     = [Vad.SILENCE_CHUNK]
  /\ Vad.active_speech_detected
       (Vad.process_all Vad.mock_detector (repeat Vad.SILENCE_CHUNK 10))
     = true
  /\ Vad.frame_buffer
       (Vad.process_all Vad.mock_detector (repeat Vad.SILENCE_CHUNK 10))
     = [Vad.SILENCE_CHUNK]
  /\ fst (Vad.process_chunk
            (Vad.process_all Vad.mock_detector (repeat Vad.SILENCE_CHUNK 20))
            Vad.SILENCE_CHUNK) = true
  /\ Vad.frame_buffer
       (Vad.process_all Vad.mock_detector (repeat Vad.SILENCE_CHUNK 21))
     = repeat Vad.SILENCE_CHUNK 11.
Proof. vm_compute. repeat split. Qed.

(* ===================================================================== *)
(** * Properties of the stream queues *)
(* ===================================================================== *)

Section QueueProperties.
Import Streaming.
Variable A : Type.

Lemma put_returns (q : StreamQueue A) (chunk : A) :
  exists q', put q chunk = Returned q' /\ is_finished q' = is_finished q.
Proof.
  unfold put. destruct (is_finished q) eqn:E; simpl.
  - exists q. auto.
  - eexists. split; [reflexivity | simpl; auto].
Qed.

Lemma apply_queue_call_finished (q : StreamQueue A) (c : queue_call A) :
  is_finished q = true -> is_finished (apply_queue_call q c) = true.
Proof.
  intros H. destruct c as [chunk | |]; simpl.
  - unfold put. rewrite H. simpl. exact H.
  - unfold get. destruct (queue q); simpl; assumption.
  - reflexivity.
Qed.

Lemma apply_queue_calls_finished (cs : list (queue_call A)) :
  forall q : StreamQueue A,
    is_finished q = true -> is_finished (apply_queue_calls q cs) = true.
Proof.
  unfold apply_queue_calls. induction cs as [| c rest IH]; intros q H; simpl.
  - exact H.
  - apply IH. now apply apply_queue_call_finished.
Qed.

(** C5, as the code has it.  Once [close] has been called, whatever calls
    follow, a [put] returns without an exception and leaves the queue as it
    is: the chunk is dropped.  The three queue classes are [StreamQueue] at
    the types of their chunks. *)
Theorem put_after_close_is_dropped (q : StreamQueue A)
  (cs : list (queue_call A)) (chunk : A) :
  let closed := apply_queue_calls (close q) cs in
  put closed chunk = Returned closed
  /\ is_finished closed = true
  /\ queue (close q) = queue q ++ [None].
Proof.
  intros closed.
  assert (H : is_finished closed = true)
    by (apply apply_queue_calls_finished; reflexivity).
  unfold put. rewrite H. simpl. auto.
Qed.

End QueueProperties.

(** C5 as stated fails: a [put] on a closed queue of each of the three
    classes returns, with the queue unchanged, and raises nothing. *)
Lemma put_after_close_raises_nothing :
  Streaming.put (Streaming.close (Streaming.StreamQueue_init bytes)) [x00]
  = Returned (Streaming.close (Streaming.StreamQueue_init bytes))
  /\ Streaming.put (Streaming.close (Streaming.StreamQueue_init str)) (lit "a")
     = Returned (Streaming.close (Streaming.StreamQueue_init str))
  /\ ~ (exists e,
         Streaming.put (Streaming.close (Streaming.StreamQueue_init bytes))
           [x00]
         = Raised e)
  /\ ~ (exists e,
         Streaming.put (Streaming.close (Streaming.StreamQueue_init str))
           (lit "a")
         = Raised e).
Proof.
  repeat split; try reflexivity; intros [e H]; discriminate H.
Qed.

(* ===================================================================== *)
(** * Properties of the server *)
(* ===================================================================== *)

Section ServerProperties.
Import Server.
Context {sdk : Asr.SenseVoice}.
Variable audio_in_handler : PetCarServer -> WebSocket -> run.
Variable audio_out_handler : PetCarServer -> WebSocket -> run.
Variable control_handler : PetCarServer -> WebSocket -> run.

(** C9.  While a car connection is held, handling another connection, on
    whatever path, closes that connection with code 1008, calls no handler
    and leaves the server object as it is: the connection held, the
    pipeline with its queues, and the queues of the session. *)
Theorem second_connection_is_refused (self : PetCarServer)
  (active websocket : WebSocket) (path : str) :
  car_connection self = Some active ->
  _handle_connection audio_in_handler audio_out_handler control_handler
    self websocket path
  = (Returned tt, self, [Close websocket 1008 (lit "Already connected")]).
Proof.
  intros H. unfold _handle_connection. rewrite H. reflexivity.
Qed.

End ServerProperties.

(** C9 on a second connection, 2, arriving on the audio path. *)
Lemma second_connection_is_refused_witness :
  Server._handle_connection Server.idle_handler Server.idle_handler
    Server.idle_handler Server.busy_server 2 (lit "/audio/in")
  = (Returned tt, Server.busy_server,
     [Server.Close 2 1008 (lit "Already connected")]).
Proof.
  apply (@second_connection_is_refused Conversation.demo_sdk
           Server.idle_handler Server.idle_handler Server.idle_handler
           Server.busy_server 1 2 (lit "/audio/in")).
  reflexivity.
Defined.

(* ===================================================================== *)
(** * Properties of the string operations *)
(* ===================================================================== *)

Section StringProperties.

Lemma startswith_spec (p s : str) :
  startswith p s = true <-> exists r, s = p ++ r.
Proof.
  revert s. induction p as [| x p IH]; intros s; simpl.
  - split; eauto.
  - destruct s as [| y s]; simpl.
    + split; [discriminate | intros [r H]; discriminate].
    + unfold char_eqb. rewrite andb_true_iff, N.eqb_eq, IH. split.
      * intros [-> [r ->]]. eauto.
      * intros [r H]. injection H as -> ->. eauto.
Qed.

Lemma startswith_app (p r : str) : startswith p (p ++ r) = true.
Proof. apply startswith_spec. eauto. Qed.

Lemma contains_spec (needle s : str) :
  contains needle s = true <-> exists pre post, s = pre ++ needle ++ post.
Proof.
  induction s as [| y s IH]; simpl.
  - rewrite orb_false_r, startswith_spec. split.
    + intros [r H]. exists [], r. exact H.
    + intros (pre & post & H). destruct pre as [| a pre]; simpl in H.
      * eauto.
      * discriminate.
  - rewrite orb_true_iff, startswith_spec, IH. split.
    + intros [[r H] | (pre & post & H)].
      * exists [], r. exact H.
      * exists (y :: pre), post. simpl. now rewrite H.
    + intros (pre & post & H). destruct pre as [| a pre]; simpl in H.
      * left. eauto.
      * right. injection H as _ H. eauto.
Qed.

(** Replacing a single character by nothing filters it out. *)
Lemma replace_char_filter (c : char) (s : str) :
  replace [c] [] None s = filter (fun x => negb (char_eqb c x)) s.
Proof.
  unfold replace. induction s as [| x r IH]; simpl.
  - reflexivity.
  - rewrite andb_true_r. destruct (char_eqb c x); simpl; now rewrite IH.
Qed.

Lemma filter_filter (A : Type) (f g : A -> bool) (l : list A) :
  filter f (filter g l) = filter (fun x => g x && f x) l.
Proof.
  induction l as [| x l IH]; simpl.
  - reflexivity.
  - destruct (g x); simpl; [destruct (f x) |]; now rewrite IH.
Qed.

Lemma normalized_filter (text : str) :
  Asr.normalized text = filter Asr.kept text.
Proof.
  unfold Asr.normalized.
  change Asr.space with [32%N].
  change Asr.ideographic_stop with [12290%N].
  change Asr.fullwidth_comma with [65292%N].
  rewrite !replace_char_filter, !filter_filter.
  apply filter_ext. intros x. unfold Asr.kept, char_eqb.
  rewrite (N.eqb_sym x 65292), (N.eqb_sym x 12290), (N.eqb_sym x 32).
  now rewrite andb_assoc.
Qed.

(** With the count exhausted nothing more is replaced. *)
Lemma replace_go_exhausted (old new s : str) :
  replace_go old new (Some 0%nat) 0 s = s.
Proof. induction s as [| x r IH]; simpl; [| rewrite IH]; reflexivity. Qed.

(** The characters of an occurrence still to be passed over are dropped. *)
Lemma replace_go_skip (old new : str) (count : option nat) (a b : str) :
  replace_go old new count (List.length a) (a ++ b)
  = replace_go old new count 0 b.
Proof. induction a as [| x a IH]; simpl; [reflexivity | exact IH]. Qed.

(** [replace(w, "", 1)] deletes the leftmost occurrence of [w]. *)
Lemma replace_first (w pre post : str) :
  w <> [] -> leftmost w pre post ->
  replace w [] (Some 1%nat) (pre ++ w ++ post) = pre ++ post.
Proof.
  intros Hw. unfold replace. destruct w as [| a w]; [contradiction |].
  clear Hw. induction pre as [| x pre IH]; intros Hleft.
  - change ([] ++ (a :: w) ++ post) with (a :: (w ++ post)).
    cbn [replace_go]. 
    change (a :: w ++ post) with ((a :: w) ++ post).
    rewrite startswith_app. simpl andb. cbv iota.
    simpl List.length. simpl option_map.
    replace (S (List.length w) - 1)%nat with (List.length w) by lia.
    rewrite replace_go_skip, replace_go_exhausted. reflexivity.
  - change ((x :: pre) ++ (a :: w) ++ post)
      with (x :: (pre ++ (a :: w) ++ post)).
    cbn [replace_go].
    change (x :: pre ++ (a :: w) ++ post)
      with ((x :: pre) ++ (a :: w) ++ post).
    rewrite (Hleft [] (x :: pre) eq_refl) by discriminate.
    simpl andb. cbv iota. simpl app. f_equal. apply IH.
    intros p1 p2 Hp Hne. apply (Hleft (x :: p1) p2); [| exact Hne].
    simpl. now rewrite Hp.
Qed.

End StringProperties.

(* ===================================================================== *)
(** * Properties of the conversation pipeline *)
(* ===================================================================== *)

Section PipelineProperties.
Import Streaming Asr Conversation.
Context {tables : UnicodeTables} {sdk : SenseVoice} {engines : Engines}.

Lemma put_eq (A : Type) (q : StreamQueue A) (chunk : A) :
  put q chunk =
  Returned (if is_finished q then q
            else {| queue := queue q ++ [Some chunk];
                    is_finished := is_finished q |}).
Proof. unfold put. destruct (is_finished q); reflexivity. Qed.

Lemma put_after_put (A : Type) (q : StreamQueue A) (chunk : A) :
  put q chunk = Returned (after_put q chunk).
Proof. unfold put, after_put. destruct (is_finished q); reflexivity. Qed.

(** A task that has returned has met the end marker behind chunks that
    raised nothing. *)
Lemma asr_items_returned (items : list (option bytes)) :
  forall (v : asr_vars) (fin : bool) (acc : list bytes) (r : asr_result),
    asr_items v items fin = AsrReturned r ->
    exists chunks rest v',
      drain_items items fin acc = Stopped (rev acc ++ chunks) rest
      /\ asr_loop v chunks = Returned v'
      /\ asr_finish v' rest = Returned r.
Proof.
  induction items as [| [c |] items IH]; intros v fin acc r; simpl.
  - discriminate.
  - destruct (asr_iteration v c) as [v1 | e] eqn:Hi; [| discriminate].
    intros H. destruct (IH v1 fin (c :: acc) r H)
      as (chunks & rest & v' & Hd & Hl & Hf).
    exists (c :: chunks), rest, v'. simpl in Hd. rewrite <- app_assoc in Hd.
    split; [exact Hd |]. split; [| exact Hf]. simpl. rewrite Hi. exact Hl.
  - destruct (asr_finish v {| queue := items; is_finished := fin |})
      as [r' | e] eqn:Hf; [| discriminate].
    intros [= <-]. exists [], {| queue := items; is_finished := fin |}, v.
    rewrite app_nil_r. auto.
Qed.

(** What a returning call of [_asr_to_llm] has done. *)
Lemma asr_to_llm_returned (self : ConversationPipeline)
  (audio_in : AudioQueue) (text_out : TextQueue) (r : asr_result) :
  _asr_to_llm self audio_in text_out = Some (Returned r) ->
  exists chunks rest v,
    drain audio_in = Stopped chunks rest
    /\ asr_loop {| pipeline := self; full_transcription := [];
                   asr_text_out := text_out; launched := [] |} chunks
       = Returned v
    /\ result_action_command r = None
    /\ final_transcription r = full_transcription v
    /\ conversation_active (pipeline (after r))
       = conversation_active (pipeline v)
    /\ launched (after r) = launched v
    /\ asr_text_out (after r)
       = (if conversation_active (pipeline v) then asr_text_out v
          else close (after_put (asr_text_out v) no_wakeup_reply)).
Proof.
  unfold _asr_to_llm, asr_task.
  destruct (asr_items _ (queue audio_in) (is_finished audio_in))
    as [r' | e v audio_rest | v] eqn:Ha; try discriminate.
  intros [= ->].
  destruct (asr_items_returned _ _ _ [] Ha)
    as (chunks & rest & v & Hd & Hloop & Hf).
  exists chunks, rest, v. split; [exact Hd |]. split; [exact Hloop |].
  revert Hf. unfold asr_finish.
  destruct (end_stream (asr_engine (pipeline v))) as [final engine].
  cbn [set_engine conversation_active].
  destruct (conversation_active (pipeline v)) eqn:Hact; simpl.
  - intros [= <-]. simpl. auto.
  - rewrite put_after_put. simpl. intros [= <-]. simpl. auto.
Qed.

(** [_asr_to_llm] never sets its [action_command]. *)
Lemma asr_to_llm_action_none (self : ConversationPipeline)
  (audio_in : AudioQueue) (text_out : TextQueue) (r : asr_result) :
  _asr_to_llm self audio_in text_out = Some (Returned r) ->
  result_action_command r = None.
Proof.
  intros H. apply asr_to_llm_returned in H.
  destruct H as (chunks & rest & v & _ & _ & H & _). exact H.
Qed.

Lemma asr_task_returned (self : ConversationPipeline)
  (audio_in : AudioQueue) (text_out : TextQueue) (r : asr_result) :
  asr_task self audio_in text_out = AsrReturned r <->
  _asr_to_llm self audio_in text_out = Some (Returned r).
Proof.
  unfold _asr_to_llm. destruct (asr_task self audio_in text_out);
    split; congruence.
Qed.

(** Whatever the session, when [run_pipeline] returns a pair its action
    command is [None]. *)
Lemma run_pipeline_reports_no_action (self : ConversationPipeline)
  (success : bool) (command : option str) (s : session) :
  run_pipeline self = Some (Returned (success, command), s) ->
  command = None.
Proof.
  unfold run_pipeline.
  destruct (get_queues (manager self)) as [[[a t] p] | e]; [| discriminate].
  destruct (asr_task self a t) as [r | e v rest | v] eqn:E;
    [| | discriminate].
  - apply asr_task_returned, asr_to_llm_action_none in E.
    destruct (_llm_to_tts (asr_text_out (after r)) p)
      as [t' p' | e t' p' | p']; [| | discriminate];
      intros H; injection H as _ <- _; auto.
  - intros H. injection H as _ <- _. reflexivity.
Qed.

(** The synthesis of texts none of which raises: their chunks reach the
    PCM queue in order, and the task goes on with the items that follow. *)
Lemma tts_items_texts (texts : list str) :
  forall (rest : list (option str)) (fin : bool) (pcm_out : PCMQueue),
    Forall (fun t => raised (synthesize_stream t) = None) texts ->
    tts_items (map Some texts ++ rest) fin pcm_out
    = tts_items rest fin
        (put_chunks pcm_out (flat_map (fun t => yielded (synthesize_stream t))
                               texts)).
Proof.
  induction texts as [| t texts IH]; intros rest fin pcm_out Hok; simpl.
  - reflexivity.
  - inversion Hok as [| ? ? Ht Hrest]; subst. rewrite Ht, IH by assumption.
    f_equal. clear. generalize pcm_out.
    induction (yielded (synthesize_stream t)) as [| c l IHl]; intros q; simpl.
    + reflexivity.
    + rewrite put_after_put. apply IHl.
Qed.

(** A queue that holds chunks only, closed: its items. *)
Lemma drain_stopped_items (A : Type) (items : list (option A)) :
  forall (fin : bool) (acc chunks : list A) (rest : StreamQueue A),
    drain_items items fin acc = Stopped chunks rest ->
    exists taken,
      chunks = rev acc ++ taken
      /\ items = map Some taken ++ None :: queue rest
      /\ is_finished rest = fin.
Proof.
  induction items as [| [c |] items IH]; intros fin acc chunks rest; simpl.
  - discriminate.
  - intros H. destruct (IH _ _ _ _ H) as (taken & H1 & H2 & H3).
    exists (c :: taken). simpl in H1. rewrite <- app_assoc in H1.
    simpl. split; [exact H1 |]. split; [now rewrite H2 | exact H3].
  - intros [= <- <-]. exists []. rewrite app_nil_r. auto.
Qed.

(** An end marker in the queue stops the iteration. *)
Lemma drain_items_stops (A : Type) (before : list (option A)) :
  forall (fin : bool) (acc : list A) (rest : list (option A)),
  exists chunks q,
    drain_items (before ++ None :: rest) fin acc = Stopped chunks q.
Proof.
  induction before as [| [c |] before' IH]; intros fin acc rest; simpl.
  - eauto.
  - apply IH.
  - eauto.
Qed.

(** ** The transcription loop *)

(** One iteration: the transcript grows by what the SDK returned; the wake
    phrase is looked for when that is not empty and the flag is false; on
    detection the flag is set and the generation stage is launched with the
    prompt [command_of]; otherwise flag, queue and launches are kept. *)
Lemma asr_iteration_returned (v v1 : asr_vars) (c : bytes) :
  asr_iteration v c = Returned v1 ->
  exists text engine,
    transcribe_stream (asr_engine (pipeline v)) c = Returned (text, engine)
    /\ asr_engine (pipeline v1) = engine
    /\ wakeup_word engine = wakeup_word (asr_engine (pipeline v))
    /\ full_transcription v1 = full_transcription v ++ heard text
    /\ (if match heard text with [] => false | _ :: _ => true end
           && negb (conversation_active (pipeline v))
           && detect_wakeup_word engine (full_transcription v1)
        then conversation_active (pipeline v1) = true
             /\ launched v1 =
                launched v
                ++ [command_of (wakeup_word engine) (full_transcription v1)]
             /\ asr_text_out v1 =
                _llm_chat_and_parse
                  (command_of (wakeup_word engine) (full_transcription v1))
                  (asr_text_out v)
        else conversation_active (pipeline v1)
             = conversation_active (pipeline v)
             /\ launched v1 = launched v
             /\ asr_text_out v1 = asr_text_out v).
Proof.
  unfold asr_iteration.
  destruct (transcribe_stream (asr_engine (pipeline v)) c)
    as [[text engine] | e] eqn:Ht; simpl; [| discriminate].
  assert (Hw : wakeup_word engine = wakeup_word (asr_engine (pipeline v))).
  { revert Ht. unfold transcribe_stream.
    destruct (stream_instance (asr_engine (pipeline v))) as [st |];
      [| discriminate].
    destruct (sdk_process_chunk st c) as [t st'].
    intros H. injection H as _ <-. reflexivity. }
  intros H. exists text, engine. split; [reflexivity |].
  destruct text as [[| x t] |]; simpl in *.
  - injection H as <-. simpl. rewrite app_nil_r. repeat split; auto.
  - destruct (negb (conversation_active (pipeline v))
              && detect_wakeup_word engine (full_transcription v ++ x :: t))
      eqn:Htrig; injection H as <-; simpl; rewrite ?Htrig;
      repeat split; auto.
  - injection H as <-. simpl. rewrite app_nil_r. repeat split; auto.
Qed.

(** The flag, once true, stays true and nothing more is launched. *)
Lemma asr_iteration_active (v v1 : asr_vars) (c : bytes) :
  asr_iteration v c = Returned v1 ->
  conversation_active (pipeline v) = true ->
  conversation_active (pipeline v1) = true
  /\ launched v1 = launched v /\ asr_text_out v1 = asr_text_out v.
Proof.
  intros H Ha. apply asr_iteration_returned in H.
  destruct H as (text & engine & _ & _ & _ & _ & H).
  rewrite Ha in H. simpl in H. rewrite andb_false_r in H. simpl in H.
  destruct H as (H1 & H2 & H3). rewrite H1. auto.
Qed.

Lemma asr_iteration_idle (v v1 : asr_vars) (c : bytes) :
  asr_iteration v c = Returned v1 ->
  conversation_active (pipeline v1) = false ->
  conversation_active (pipeline v) = false
  /\ launched v1 = launched v /\ asr_text_out v1 = asr_text_out v.
Proof.
  intros H Ha. apply asr_iteration_returned in H.
  destruct H as (text & engine & _ & _ & _ & _ & H).
  destruct (_ && _) in H.
  - destruct H as (H1 & _). congruence.
  - destruct H as (H1 & H2 & H3). rewrite <- H1. auto.
Qed.

(** A loop that ends with the flag false has launched nothing and has left
    the text queue alone. *)
Lemma asr_loop_idle (chunks : list bytes) :
  forall v v1 : asr_vars,
    asr_loop v chunks = Returned v1 ->
    conversation_active (pipeline v1) = false ->
    conversation_active (pipeline v) = false
    /\ launched v1 = launched v /\ asr_text_out v1 = asr_text_out v.
Proof.
  induction chunks as [| c rest IH]; intros v v1; simpl.
  - intros H. injection H as <-. auto.
  - destruct (asr_iteration v c) as [v' | e] eqn:Hi; simpl; [| discriminate].
    intros Hl Ha. destruct (IH _ _ Hl Ha) as (Ha' & Hl' & Ht').
    destruct (asr_iteration_idle _ _ Hi Ha') as (? & ? & ?).
    repeat split; congruence.
Qed.

(** At most one launch per loop: the flag tells whether it happened. *)
Lemma asr_loop_launches (chunks : list bytes) :
  forall v v1 : asr_vars,
    asr_loop v chunks = Returned v1 ->
    (conversation_active (pipeline v) = true ->
     conversation_active (pipeline v1) = true /\ launched v1 = launched v)
    /\ (conversation_active (pipeline v) = false ->
        (conversation_active (pipeline v1) = false /\ launched v1 = launched v)
        \/ (conversation_active (pipeline v1) = true
            /\ exists prompt, launched v1 = launched v ++ [prompt])).
Proof.
  induction chunks as [| c rest IH]; intros v v1; simpl.
  - intros H. injection H as <-. split; auto.
  - destruct (asr_iteration v c) as [v' | e] eqn:Hi; simpl; [| discriminate].
    intros Hl. destruct (IH _ _ Hl) as [IHa IHi]. split.
    + intros Ha. destruct (asr_iteration_active _ _ Hi Ha) as (Ha' & Hl' & _).
      destruct (IHa Ha') as [? ?]. split; congruence.
    + intros Ha. destruct (conversation_active (pipeline v')) eqn:Ha'.
      * right. destruct (IHa eq_refl) as [Hact1 Hl1]. split; [assumption |].
        apply asr_iteration_returned in Hi.
        destruct Hi as (text & engine & _ & _ & _ & _ & H).
        destruct (_ && _) in H.
        -- destruct H as (_ & Hl2 & _). rewrite Hl1, Hl2. eauto.
        -- destruct H as (Ha2 & _). congruence.
      * destruct (asr_iteration_idle _ _ Hi Ha') as (_ & Hl' & _).
        destruct (IHi eq_refl) as [[? ?] | [? [prompt ?]]].
        -- left. split; congruence.
        -- right. split; [assumption |]. exists prompt. congruence.
Qed.

(** With a synthesis that raises nothing, an end marker in the text queue
    makes the task of [_llm_to_tts] return. *)
Lemma tts_items_stops (before : list (option str)) :
  forall (rest : list (option str)) (fin : bool) (pcm_out : PCMQueue),
    (forall t, raised (synthesize_stream t) = None) ->
    exists text_rest pcm,
      tts_items (before ++ None :: rest) fin pcm_out
      = TtsReturned text_rest pcm.
Proof.
  induction before as [| [t |] before IH]; intros rest fin pcm_out Hok; simpl.
  - eauto.
  - rewrite Hok. now apply IH.
  - eauto.
Qed.

(** C2.  What the code does where the claim expects a failure: when the
    audio queue is closed, transcription raises nothing and the wake phrase
    was not detected, [_asr_to_llm] puts the fixed reply, which is not
    empty, into the open text queue and then closes it, as the claim says;
    and, the synthesis raising nothing, [run_pipeline] returns
    [(True, None)]: no action command, but a success flag that is true,
    although no dialogue with the response engine took place. *)
Theorem no_wake_reply_is_pushed_and_run_succeeds
  (self : ConversationPipeline) (audio_in : AudioQueue)
  (text_out : TextQueue) (pcm_out : PCMQueue) (r : asr_result) :
  get_queues (manager self) = Returned (audio_in, text_out, pcm_out) ->
  is_finished text_out = false ->
  _asr_to_llm self audio_in text_out = Some (Returned r) ->
  conversation_active (pipeline (after r)) = false ->
  (forall t, raised (synthesize_stream t) = None) ->
  queue (asr_text_out (after r))
  = queue text_out ++ [Some no_wakeup_reply; None]
  /\ is_finished (asr_text_out (after r)) = true
  /\ no_wakeup_reply <> []
  /\ result_action_command r = None
  /\ exists s, run_pipeline self = Some (Returned (true, None), s).
Proof.
  intros Hq Hopen Hasr Hidle Hok.
  destruct (asr_to_llm_returned _ _ _ Hasr)
    as (chunks & rest & v & _ & Hloop & Hnone & _ & Hact & _ & Hout).
  rewrite Hact in Hidle. rewrite Hidle in Hout.
  destruct (asr_loop_idle _ _ Hloop Hidle) as (_ & _ & Hkept).
  simpl in Hkept. rewrite Hkept in Hout.
  assert (Hitems : queue (asr_text_out (after r))
                   = queue text_out ++ [Some no_wakeup_reply; None]).
  { rewrite Hout. unfold after_put. rewrite Hopen. simpl.
    rewrite <- app_assoc. reflexivity. }
  split; [exact Hitems |]. split; [rewrite Hout; reflexivity |].
  split; [discriminate |]. split; [exact Hnone |].
  unfold run_pipeline. rewrite Hq.
  apply asr_task_returned in Hasr. rewrite Hasr.
  unfold _llm_to_tts. rewrite Hitems.
  replace (queue text_out ++ [Some no_wakeup_reply; None])
    with ((queue text_out ++ [Some no_wakeup_reply]) ++ None :: [])
    by (rewrite <- app_assoc; reflexivity).
  destruct (tts_items_stops (queue text_out ++ [Some no_wakeup_reply]) []
              (is_finished (asr_text_out (after r))) pcm_out Hok)
    as (t' & p' & Hd).
  rewrite Hd, Hnone. eauto.
Qed.

(** ** The wake phrase *)

Lemma detect_wakeup_word_spec (engine : ASREngine) (text : str) :
  detect_wakeup_word engine text = true <->
  text <> []
  /\ exists pre post, filter kept text = pre ++ wakeup_word engine ++ post.
Proof.
  unfold detect_wakeup_word. destruct text as [| c t].
  - split; [discriminate | intros [H _]; contradiction].
  - rewrite normalized_filter, contains_spec. split.
    + intros H. split; [discriminate | exact H].
    + intros [_ H]. exact H.
Qed.

Lemma nonempty_true (A : Type) (l : list A) :
  match l with [] => false | _ :: _ => true end = true <-> l <> [].
Proof. destruct l; split; congruence || discriminate. Qed.

(** C7, as the code has it.
    - [detect_wakeup_word] answers true exactly when the text is not empty
      and the wake phrase is a substring of the text without its characters
      U+FF0C, U+3002 and U+0020; no other character is removed.
    - An iteration of the transcription loop that starts with the flag
      false sets it exactly when the engine returned some text and the wake
      phrase is detected in the transcript; it then launches the generation
      stage once, with the prompt [command_of].
    - With the flag true an iteration keeps it and launches nothing; a
      whole run of [_asr_to_llm] launches at most once.
    - When the wake phrase occurs in the transcript itself, the prompt is
      the transcript without the leftmost occurrence, stripped of the white
      space at its ends. *)
Theorem wake_phrase_detection_and_prompt :
  (forall (engine : ASREngine) (text : str),
      detect_wakeup_word engine text = true <->
      text <> []
      /\ exists pre post,
           filter kept text = pre ++ wakeup_word engine ++ post)
  /\ (forall (v v1 : asr_vars) (c : bytes),
         asr_iteration v c = Returned v1 ->
         conversation_active (pipeline v) = false ->
         exists text engine,
           transcribe_stream (asr_engine (pipeline v)) c
           = Returned (text, engine)
           /\ full_transcription v1 = full_transcription v ++ heard text
           /\ (conversation_active (pipeline v1) = true <->
               heard text <> []
               /\ detect_wakeup_word engine (full_transcription v1) = true)
           /\ (conversation_active (pipeline v1) = true ->
               launched v1 =
               launched v
               ++ [command_of (wakeup_word engine) (full_transcription v1)])
           /\ (conversation_active (pipeline v1) = false ->
               launched v1 = launched v))
  /\ (forall (v v1 : asr_vars) (c : bytes),
         asr_iteration v c = Returned v1 ->
         conversation_active (pipeline v) = true ->
         conversation_active (pipeline v1) = true
         /\ launched v1 = launched v)
  /\ (forall (self : ConversationPipeline) (audio_in : AudioQueue)
        (text_out : TextQueue) (r : asr_result),
         _asr_to_llm self audio_in text_out = Some (Returned r) ->
         (List.length (launched (after r)) <= 1)%nat)
  /\ (forall w pre post : str,
         w <> [] -> leftmost w pre post ->
         command_of w (pre ++ w ++ post) = strip (pre ++ post)).
Proof.
  split; [exact detect_wakeup_word_spec |].
  split.
  { intros v v1 c Hi Ha. apply asr_iteration_returned in Hi.
    destruct Hi as (text & engine & Ht & _ & _ & Hfull & H).
    exists text, engine. split; [exact Ht |]. split; [exact Hfull |].
    rewrite Ha in H. simpl in H. rewrite andb_true_r in H.
    destruct (match heard text with [] => false | _ :: _ => true end)
      eqn:Hne; simpl in H.
    - apply nonempty_true in Hne.
      destruct (detect_wakeup_word engine (full_transcription v1)) eqn:Hd.
      + destruct H as (H1 & H2 & _). repeat split; auto. congruence.
      + destruct H as (H1 & H2 & _). rewrite H1.
        split; [split; [discriminate | intros [_ Hfalse]; discriminate] |].
        split; [discriminate | auto].
    - destruct H as (H1 & H2 & _). rewrite H1.
      split; [split; [discriminate | intros [Hfalse _]] |].
      + apply nonempty_true in Hfalse. congruence.
      + split; [discriminate | auto]. }
  split.
  { intros v v1 c Hi Ha.
    destruct (asr_iteration_active _ _ Hi Ha) as (H1 & H2 & _). auto. }
  split.
  { intros self audio_in text_out r Hr.
    destruct (asr_to_llm_returned _ _ _ Hr)
      as (chunks & rest & v & _ & Hloop & _ & _ & _ & Hl & _).
    rewrite Hl. destruct (asr_loop_launches _ _ Hloop) as [Hon Hoff].
    simpl in Hon, Hoff.
    destruct (conversation_active self).
    - destruct (Hon eq_refl) as [_ ->]. simpl. lia.
    - destruct (Hoff eq_refl) as [[_ ->] | [_ [prompt ->]]]; simpl; lia. }
  intros w pre post Hw Hleft. unfold command_of.
  now rewrite replace_first.
Qed.

End PipelineProperties.

(** ** The scenarios of the demonstration *)

(** C1 at the mock engine and at two replies with an action.  The loop of
    [_llm_chat_and_parse] finds [forward(5)], the first action, but
    [run_pipeline] returns [(True, None)].  The mock engine's reply comes one
    character at a time and all of it, the action included, is put into the
    text queue; of the two fragments with an action each, the second is put
    into the text queue with its action; so is an action that is split over
    two fragments. *)
Theorem extracted_action_is_not_reported :
  option_map fst
    (@Conversation.run_pipeline ascii_only Conversation.demo_sdk
       Conversation.demo_engines
       (@Conversation.demo_session Conversation.demo_sdk
          Asr.default_wakeup_word Conversation.demo_audio))
  = Some (Returned (true, None))
  /\ (exists v,
        @Conversation.llm_run ascii_only Conversation.demo_engines
          (lit "，请向前走五步。") (Streaming.StreamQueue_init str)
        = Returned v
        /\ Conversation.action_command v = Some (lit "forward(5)")
        /\ Conversation.text_of (Conversation.llm_text_out v)
           = Conversation.mock_response)
  /\ option_map fst
       (@Conversation.run_pipeline ascii_only Conversation.demo_sdk
          Conversation.two_action_engines
          (@Conversation.demo_session Conversation.demo_sdk
             Asr.default_wakeup_word Conversation.demo_audio))
     = Some (Returned (true, None))
  /\ (exists v,
        @Conversation.llm_run ascii_only Conversation.two_action_engines
          (lit "，请向前走五步。") (Streaming.StreamQueue_init str)
        = Returned v
        /\ Conversation.action_command v = Some (lit "forward(5)")
        /\ Conversation.chunks_of (Conversation.llm_text_out v)
           = [lit "好的"; lit "然后[ACTION:stop()]"])
  /\ (exists v,
        @Conversation.llm_run ascii_only Conversation.split_action_engines
          (lit "，请向前走五步。") (Streaming.StreamQueue_init str)
        = Returned v
        /\ Conversation.action_command v = Some (lit "forward(5)")
        /\ Conversation.chunks_of (Conversation.llm_text_out v)
           = [lit "好的[ACTION:forward"; lit "(5)]"]).
Proof.
  split; [vm_compute; reflexivity |].
  split; [eexists; split; [vm_compute; reflexivity | split; reflexivity] |].
  split; [vm_compute; reflexivity |].
  split; eexists; (split; [vm_compute; reflexivity | split; reflexivity]).
Qed.

(** The prompt of the first scenario is the one used above. *)
Lemma demo_prompt :
  @Conversation.command_of ascii_only Asr.default_wakeup_word
    Conversation.demo_transcript
  = lit "，请向前走五步。".
Proof. reflexivity. Qed.

(** C2 on the third scenario, where the transcript lacks the wake phrase. *)
Lemma no_wake_reply_is_pushed_and_run_succeeds_witness :
  exists s,
    @Conversation.run_pipeline ascii_only Conversation.unheard_sdk
      Conversation.demo_engines
      (@Conversation.demo_session Conversation.unheard_sdk
         Asr.default_wakeup_word Conversation.demo_audio)
    = Some (Returned (true, None), s).
Proof.
  eapply (@no_wake_reply_is_pushed_and_run_succeeds ascii_only
            Conversation.unheard_sdk Conversation.demo_engines).
  - reflexivity.
  - reflexivity.
  - vm_compute. reflexivity.
  - reflexivity.
  - reflexivity.
Defined.

(** The third scenario evaluated: the wake phrase is not detected and
    [run_pipeline] returns a success flag that is true, where C2 expects a
    failure. *)
Lemma no_wake_run_reports_success :
  @Asr.detect_wakeup_word Conversation.unheard_sdk
    (Asr.ASREngine_init Asr.default_wakeup_word) (lit "你好。") = false
  /\ option_map fst
       (@Conversation.run_pipeline ascii_only Conversation.unheard_sdk
          Conversation.demo_engines
          (@Conversation.demo_session Conversation.unheard_sdk
             Asr.default_wakeup_word Conversation.demo_audio))
     = Some (Returned (true, None))
  /\ option_map fst
       (@Conversation.run_pipeline ascii_only Conversation.unheard_sdk
          Conversation.demo_engines
          (@Conversation.demo_session Conversation.unheard_sdk
             Asr.default_wakeup_word Conversation.demo_audio))
     <> Some (Returned (false, None)).
Proof.
  split; [reflexivity |]. split; [vm_compute; reflexivity |].
  vm_compute. discriminate.
Qed.

(** C7 as stated fails.  An ASCII comma inside the wake phrase is
    punctuation, and without it the text is the wake phrase, yet nothing is
    detected.  With U+FF0C inside the wake phrase it is detected, and the
    replacement that makes the prompt leaves the transcript as it is, wake
    phrase included. *)
Lemma wake_phrase_with_other_punctuation :
  filter (fun c => negb (char_eqb c 44%N)) (lit "小车,小车")
  = Asr.default_wakeup_word
  /\ @Asr.detect_wakeup_word Conversation.demo_sdk
       (Asr.ASREngine_init Asr.default_wakeup_word) (lit "小车,小车") = false
  /\ @Asr.detect_wakeup_word Conversation.demo_sdk
       (Asr.ASREngine_init Asr.default_wakeup_word) (lit "小车，小车前进")
     = true
  /\ @Conversation.command_of ascii_only Asr.default_wakeup_word
       (lit "小车，小车前进")
     = lit "小车，小车前进".
Proof. repeat split. Qed.

(* ===================================================================== *)
(** * Properties of the frame codec *)
(* ===================================================================== *)

Section ProtocolProperties.
Import Protocol.
Context {J : JsonLib}.
Hypothesis json_roundtrips : roundtrips J.

Lemma json_dumps_returned (v : value) (s : str) :
  json_dumps v = Returned s -> loads s = Some v.
Proof.
  unfold json_dumps. destruct (serializable v) eqn:E; [| discriminate].
  intros H. injection H as <-. now apply json_roundtrips.
Qed.

Lemma text_round_trip (f : TextFrame.t) (s : str) :
  TextFrame.to_json f = Returned s -> parse_frame s = Some (Text f).
Proof.
  intros H. apply json_dumps_returned in H.
  unfold parse_frame. rewrite H. destruct f. reflexivity.
Qed.

Lemma control_round_trip (f : ControlCmd.t) (s : str) :
  ControlCmd.to_json f = Returned s -> parse_frame s = Some (Control f).
Proof.
  intros H. apply json_dumps_returned in H.
  unfold parse_frame. rewrite H. destruct f. reflexivity.
Qed.

Lemma status_round_trip (f : StatusMsg.t) (s : str) :
  StatusMsg.to_json f = Returned s -> parse_frame s = Some (Status f).
Proof.
  intros H. apply json_dumps_returned in H.
  unfold parse_frame. rewrite H. destruct f. reflexivity.
Qed.

(** The header of an audio frame is recognised as no frame at all. *)
Lemma audio_header_parses_to_none (f : AudioFrame.t) (s : str) :
  AudioFrame.to_json f = Returned s -> parse_frame s = None.
Proof.
  intros H. apply json_dumps_returned in H.
  unfold parse_frame. rewrite H. destruct f. reflexivity.
Qed.

(** C3, as the code has it.  With a [json] module that reads back what it
    writes, every text frame, control command and status message that
    [to_json] encodes is parsed back to itself, field for field; and the
    frames whose fields have the annotated types are encoded. *)
Theorem text_control_status_round_trip :
  (forall (f : TextFrame.t) (s : str),
      TextFrame.to_json f = Returned s -> parse_frame s = Some (Text f))
  /\ (forall (f : ControlCmd.t) (s : str),
         ControlCmd.to_json f = Returned s -> parse_frame s = Some (Control f))
  /\ (forall (f : StatusMsg.t) (s : str),
         StatusMsg.to_json f = Returned s -> parse_frame s = Some (Status f))
  /\ (forall f : TextFrame.t,
         TextFrame.valid f -> exists s, TextFrame.to_json f = Returned s)
  /\ (forall f : ControlCmd.t,
         ControlCmd.valid f -> exists s, ControlCmd.to_json f = Returned s)
  /\ (forall f : StatusMsg.t,
         StatusMsg.valid f -> exists s, StatusMsg.to_json f = Returned s).
Proof.
  split; [exact text_round_trip |].
  split; [exact control_round_trip |].
  split; [exact status_round_trip |].
  split; [| split].
  - intros [a b c d] ([n Hn] & [t Ht] & [k Hk] & [e He]). simpl in *. subst.
    eexists. reflexivity.
  - intros [a b c] ([t Ht] & [k Hk] & He). simpl in *. subst.
    unfold ControlCmd.to_json, json_dumps.
    destruct He as [-> | [d [-> Hd]]].
    + eexists. reflexivity.
    + assert (E : serializable
                    (ControlCmd.asdict
                       {| ControlCmd.type := VStr t;
                          ControlCmd.value_ := VStr k;
                          ControlCmd.extra := VDict d |}) = true).
      { change (serializable (VDict d) && true = true).
        now rewrite andb_true_r. }
      rewrite E. eexists. reflexivity.
  - intros [a b c] ([n Hn] & [t Ht] & He). simpl in *. subst.
    destruct He as [-> | [m ->]]; eexists; reflexivity.
Qed.

End ProtocolProperties.

(** ** The small library reads back what it writes *)

Section ValueInduction.
Import Protocol.
Variable P : value -> Prop.
Hypothesis HNone : P VNone.
Hypothesis HBool : forall b, P (VBool b).
Hypothesis HInt : forall n, P (VInt n).
Hypothesis HStr : forall s, P (VStr s).
Hypothesis HBytes : forall b, P (VBytes b).
Hypothesis HList : forall l, Forall P l -> P (VList l).
Hypothesis HDict :
  forall d, Forall (fun kv : str * value => P (snd kv)) d -> P (VDict d).

(** Induction on a value with the hypothesis on every element of a list and
    on every item of a dictionary. *)
Lemma value_nested_ind : forall v : value, P v.
Proof.
  fix IH 1. intros [| b | n | s | b | l | d].
  - exact HNone.
  - apply HBool.
  - apply HInt.
  - apply HStr.
  - apply HBytes.
  - apply HList. induction l as [| x r IHl]; constructor.
    + apply IH.
    + exact IHl.
  - apply HDict. induction d as [| kv r IHd]; constructor.
    + apply IH.
    + exact IHd.
Qed.

End ValueInduction.

Section ToyJsonProperties.
Import Protocol Protocol.ToyJson.

Lemma dec_int_enc_int (z : Z) : dec_int (enc_int z) = z.
Proof. destruct z; reflexivity. Qed.

Lemma firstn_length_app (A : Type) (a b : list A) :
  firstn (N.to_nat (N.of_nat (List.length a))) (a ++ b) = a.
Proof.
  rewrite Nat2N.id, firstn_app, Nat.sub_diag, firstn_all. simpl.
  apply app_nil_r.
Qed.

Lemma skipn_length_app (A : Type) (a b : list A) :
  skipn (N.to_nat (N.of_nat (List.length a))) (a ++ b) = b.
Proof.
  rewrite Nat2N.id, skipn_app, Nat.sub_diag, skipn_all. reflexivity.
Qed.

(** Items written one after the other are read back by [dec_items]. *)
Lemma dec_items_flat_map (A : Type) (write : A -> str)
  (item : str -> option (A * str)) (l : list A) :
  Forall (fun x => forall rest, item (write x ++ rest) = Some (x, rest)) l ->
  forall rest,
    dec_items item (List.length l) (flat_map write l ++ rest) = Some (l, rest).
Proof.
  induction 1 as [| x l Hx _ IH]; intros rest; simpl.
  - reflexivity.
  - rewrite <- app_assoc, Hx, IH. reflexivity.
Qed.

Lemma max_fold_le (A : Type) (f : A -> nat) (l : list A) (n : nat) :
  (fold_right (fun x m => Nat.max (f x) m) O l <= n)%nat ->
  Forall (fun x => (f x <= n)%nat) l.
Proof.
  induction l as [| x l IH]; simpl; intros H; constructor.
  - lia.
  - apply IH. lia.
Qed.

Lemma forallb_Forall_impl (A : Type) (p : A -> bool) (Q R : A -> Prop)
  (l : list A) :
  forallb p l = true -> Forall Q l -> Forall R l ->
  Forall (fun x => p x = true /\ Q x /\ R x) l.
Proof.
  intros Hp HQ. revert Hp.
  induction HQ as [| x l Hx _ IH]; simpl; intros Hp HR.
  - constructor.
  - apply andb_true_iff in Hp. destruct Hp as [Hpx Hpl].
    inversion HR; subst. constructor; auto.
Qed.

(** With fuel beyond its nesting, a serializable value is read back and the
    rest of the text is left. *)
Lemma dec_enc (v : value) :
  serializable v = true ->
  forall (fuel : nat) (rest : str),
    (depth v < fuel)%nat -> dec fuel (enc v ++ rest) = Some (v, rest).
Proof.
  induction v as [| b | n | s | b | l IH | d IH] using value_nested_ind;
    intros Hser fuel rest Hfuel;
    (destruct fuel as [| fuel]; [lia |]); simpl in *.
  - reflexivity.
  - destruct b; reflexivity.
  - now rewrite dec_int_enc_int.
  - now rewrite firstn_length_app, skipn_length_app.
  - discriminate.
  - rewrite Nat2N.id.
    rewrite (@dec_items_flat_map value enc (dec fuel) l); [reflexivity |].
    assert (Hd : Forall (fun x => (depth x <= fuel - 1)%nat) l)
      by (apply max_fold_le; lia).
    pose proof (forallb_Forall_impl _ Hser IH Hd) as Hall.
    eapply Forall_impl; [| exact Hall].
    intros x (Hs & Hx & Hdx) rest'. apply Hx; [exact Hs | lia].
  - rewrite Nat2N.id. apply andb_true_iff in Hser. destruct Hser as [_ Hser].
    rewrite (@dec_items_flat_map (str * value)
               (fun kv : str * value =>
                  let (k, x) := kv in N.of_nat (List.length k) :: k ++ enc x)
               (dec_pair (dec fuel)) d); [reflexivity |].
    assert (Hd : Forall (fun kv : str * value =>
                           (depth (snd kv) <= fuel - 1)%nat) d)
      by (apply (max_fold_le (fun kv : str * value => depth (snd kv))); lia).
    pose proof (forallb_Forall_impl _ Hser IH Hd) as Hall.
    eapply Forall_impl; [| exact Hall].
    intros [k x] (Hs & Hx & Hdx) rest'. simpl in *.
    rewrite <- app_assoc, skipn_length_app, firstn_length_app.
    rewrite Hx; [reflexivity | exact Hs | lia].
Qed.

Lemma depth_lt_length (v : value) : (depth v < List.length (enc v))%nat.
Proof.
  induction v as [| b | n | s | b | l IH | d IH] using value_nested_ind;
    simpl; try lia.
  - apply -> Nat.succ_lt_mono.
    induction IH as [| x l Hx _ IHl]; simpl; [lia |].
    rewrite length_app. lia.
  - apply -> Nat.succ_lt_mono.
    induction IH as [| kv d Hx _ IHd]; simpl in *; [lia |].
    destruct kv as [k x]. simpl in *. rewrite !length_app.
    set (F := fold_right _ _ d) in *.
    set (L := List.length (flat_map _ d)) in *. lia.
Qed.

(** The small library meets the contract of the [json] module. *)
Lemma toy_roundtrips : roundtrips toy.
Proof.
  intros v Hser. simpl. unfold toy_loads.
  pose proof (@dec_enc v Hser (List.length (enc v)) [] (depth_lt_length v))
    as H.
  rewrite app_nil_r in H. rewrite H. reflexivity.
Qed.

End ToyJsonProperties.

(** C3 on the text frame of the demonstration. *)
Lemma text_control_status_round_trip_witness :
  @Protocol.parse_frame Protocol.ToyJson.toy
    (Protocol.ToyJson.enc (Protocol.TextFrame.asdict Protocol.text_frame))
  = Some (Protocol.Text Protocol.text_frame).
Proof.
  refine (proj1 (@text_control_status_round_trip Protocol.ToyJson.toy
                   toy_roundtrips) Protocol.text_frame _ _).
  reflexivity.
Defined.

(** C3 as stated fails for an audio frame: the text [to_json] gives for the
    audio frame of the demonstration is parsed to no frame, the header
    dictionary having no [pcm_data] key; the other kinds of frame are not
    concerned. *)
Lemma audio_frame_does_not_round_trip :
  @Protocol.AudioFrame.to_json Protocol.ToyJson.toy Protocol.audio_cmd
  = Returned
      (Protocol.ToyJson.enc (Protocol.AudioFrame.header Protocol.audio_cmd))
  /\ @Protocol.parse_frame Protocol.ToyJson.toy
       (Protocol.ToyJson.enc (Protocol.AudioFrame.header Protocol.audio_cmd))
     = None
  /\ Protocol.parse_dict (Protocol.AudioFrame.header Protocol.audio_cmd)
     = Returned None.
Proof. repeat split. Qed.

(* ===================================================================== *)
(** * Further properties of the stream queues *)
(* ===================================================================== *)

Section QueueOrder.
Import Streaming.
Variable A : Type.

Lemma put_chunks_open (chunks : list A) :
  forall q : StreamQueue A,
    is_finished q = false ->
    queue (put_chunks q chunks) = queue q ++ map Some chunks
    /\ is_finished (put_chunks q chunks) = false.
Proof.
  induction chunks as [| c rest IH]; intros q Hopen; simpl.
  - now rewrite app_nil_r.
  - rewrite put_after_put.
    destruct (IH (after_put q c)) as [Hq Hf].
    { unfold after_put. rewrite Hopen. reflexivity. }
    rewrite Hq, Hf. unfold after_put. rewrite Hopen. simpl.
    now rewrite <- app_assoc.
Qed.

Lemma drain_items_chunks (chunks : list A) :
  forall (fin : bool) (acc : list A) (rest : list (option A)),
    drain_items (map Some chunks ++ rest) fin acc
    = drain_items rest fin (rev chunks ++ acc).
Proof.
  induction chunks as [| c chunks IH]; intros fin acc rest; simpl.
  - reflexivity.
  - rewrite IH, <- app_assoc. reflexivity.
Qed.

(** X1.  A queue that is open and holds chunks only: after the producer
    has put more chunks and closed it, the iteration yields the chunks held
    and the chunks put, in the order of the puts, then stops, and leaves the
    queue empty. *)
Theorem chunks_are_read_in_order_before_the_end
  (q : StreamQueue A) (held chunks : list A) :
  queue q = map Some held ->
  is_finished q = false ->
  drain (close (put_chunks q chunks))
  = Stopped (held ++ chunks) {| queue := []; is_finished := true |}.
Proof.
  intros Hq Hopen.
  destruct (put_chunks_open chunks q Hopen) as [Hitems _].
  unfold drain, close. simpl. rewrite Hitems, Hq, <- map_app.
  rewrite drain_items_chunks. simpl.
  now rewrite app_nil_r, rev_involutive.
Qed.

(** X2.  Without a [close] the iteration never stops: whatever chunks have
    been put into an open queue of chunks, the reader takes them all and
    stays suspended. *)
Theorem reader_of_an_unclosed_queue_stays_suspended
  (q : StreamQueue A) (held chunks : list A) :
  queue q = map Some held ->
  is_finished q = false ->
  drain (put_chunks q chunks) = Suspended (held ++ chunks).
Proof.
  intros Hq Hopen.
  destruct (put_chunks_open chunks q Hopen) as [Hitems _].
  unfold drain. rewrite Hitems, Hq, <- map_app.
  rewrite <- (app_nil_r (map Some (held ++ chunks))).
  rewrite drain_items_chunks. simpl.
  now rewrite app_nil_r, rev_involutive.
Qed.

(** X3.  [close] is not guarded: a second [close] of a queue of chunks
    raises nothing and adds a second end marker.  The iteration stops at the
    first one with all the chunks, and the marker left over ends a later
    iteration at once, with no chunk. *)
Theorem second_close_leaves_an_end_marker
  (q : StreamQueue A) (held : list A) :
  queue q = map Some held ->
  queue (close (close q)) = map Some held ++ [None; None]
  /\ drain (close (close q))
     = Stopped held {| queue := [None]; is_finished := true |}
  /\ drain {| queue := [None]; is_finished := true |}
     = Stopped (@nil A) {| queue := []; is_finished := true |}.
Proof.
  intros Hq. unfold drain, close. simpl. rewrite Hq, <- !app_assoc. simpl.
  split; [reflexivity |]. split; [| reflexivity].
  rewrite drain_items_chunks. simpl. now rewrite app_nil_r, rev_involutive.
Qed.

End QueueOrder.

(** X1 on a new audio queue and two chunks. *)
Lemma chunks_are_read_in_order_before_the_end_witness :
  Streaming.drain
    (Streaming.close
       (Streaming.put_chunks (Streaming.StreamQueue_init bytes)
          [[x01]; [x02]]))
  = Streaming.Stopped ([] ++ [[x01]; [x02]])
      {| Streaming.queue := []; Streaming.is_finished := true |}.
Proof.
  apply chunks_are_read_in_order_before_the_end; reflexivity.
Defined.

(** X2 on a new audio queue and two chunks. *)
Lemma reader_of_an_unclosed_queue_stays_suspended_witness :
  Streaming.drain
    (Streaming.put_chunks (Streaming.StreamQueue_init bytes) [[x01]; [x02]])
  = Streaming.Suspended ([] ++ [[x01]; [x02]]).
Proof.
  apply reader_of_an_unclosed_queue_stays_suspended; reflexivity.
Defined.

(** X3 on an audio queue that holds one chunk. *)
Lemma second_close_leaves_an_end_marker_witness :
  Streaming.queue
    (Streaming.close
       (Streaming.close
          (Streaming.put_chunks (Streaming.StreamQueue_init bytes) [[x01]])))
  = map Some [[x01]] ++ [None; None].
Proof.
  refine (proj1 (@second_close_leaves_an_end_marker bytes
                   (Streaming.put_chunks (Streaming.StreamQueue_init bytes)
                      [[x01]])
                   [[x01]] _)).
  reflexivity.
Defined.

Section ManagerLifecycle.
Import Streaming.

(** X4.  [get_queues] raises [RuntimeError] exactly when one of the three
    queues is missing: always on a new manager and after [close_all];
    after [start_new_conversation] it returns three queues that are new,
    empty and open. *)
Theorem get_queues_needs_a_conversation (m : StreamingManager) :
  (get_queues m = Raised RuntimeError <->
   audio_in_queue m = None \/ llm_text_out_queue m = None
   \/ pcm_out_queue m = None)
  /\ get_queues StreamingManager_init = Raised RuntimeError
  /\ get_queues (close_all m) = Raised RuntimeError
  /\ get_queues (start_new_conversation m)
     = Returned (StreamQueue_init bytes, StreamQueue_init str,
                 StreamQueue_init bytes)
  /\ get_queues (start_new_conversation (close_all m))
     = get_queues (start_new_conversation m).
Proof.
  repeat split; try reflexivity.
  - unfold get_queues.
    destruct (audio_in_queue m), (llm_text_out_queue m), (pcm_out_queue m);
      auto; discriminate.
  - unfold get_queues.
    intros [H | [H | H]]; rewrite H; try reflexivity;
      destruct (audio_in_queue m); try reflexivity;
      destruct (llm_text_out_queue m); reflexivity.
Qed.

End ManagerLifecycle.

(* ===================================================================== *)
(** * Further properties of the voice activity detector *)
(* ===================================================================== *)

Section VadInvariants.
Import Vad.
Context {backend : VadBackend}.

Lemma process_chunk_sample_rate (d : VADDetector) (c : bytes) :
  sample_rate (snd (process_chunk d c)) = sample_rate d.
Proof.
  unfold process_chunk. destruct (negb (len c =? chunk_size d)).
  - reflexivity.
  - destruct (is_speech (_vad d) c (sample_rate d)) as [sp v].
    destruct sp; reflexivity.
Qed.

Lemma process_chunk_count_agrees (d : VADDetector) (c : bytes) :
  count_agrees d -> count_agrees (snd (process_chunk d c)).
Proof.
  intros [Hpos Hzero]. unfold count_agrees, process_chunk.
  destruct (negb (len c =? chunk_size d)); [auto |].
  destruct (is_speech (_vad d) c (sample_rate d)) as [sp v].
  destruct sp; simpl.
  - split; [lia | reflexivity].
  - destruct (active_speech_detected d); split; try lia; auto;
      discriminate.
Qed.

Lemma is_silence_end_count_agrees (d : VADDetector) :
  count_agrees d -> count_agrees (snd (is_silence_end d)).
Proof.
  intros H. unfold is_silence_end.
  destruct (active_speech_detected d
            && (SILENCE_CHUNK_COUNT <? silence_chunks_count d)); simpl.
  - split; simpl; [lia | reflexivity].
  - exact H.
Qed.

Lemma apply_call_keeps (d : VADDetector) (c : call) :
  count_agrees d ->
  count_agrees (apply_call d c)
  /\ chunk_size (apply_call d c) = chunk_size d
  /\ sample_rate (apply_call d c) = sample_rate d.
Proof.
  intros H. destruct c as [chunk | | |]; simpl.
  - split; [now apply process_chunk_count_agrees |].
    split; [apply process_chunk_chunk_size | apply process_chunk_sample_rate].
  - split; [now apply is_silence_end_count_agrees |].
    split; [apply is_silence_end_chunk_size |].
    unfold is_silence_end.
    destruct (active_speech_detected d
              && (SILENCE_CHUNK_COUNT <? silence_chunks_count d));
      reflexivity.
  - split; [exact H | split; reflexivity].
  - split; [| split; reflexivity]. split; [simpl; lia | reflexivity].
Qed.

(** X5.  In every state reached from the initial one by calls of the
    detector's methods, the silence count is not negative and is zero
    whenever no speech is active, and the sample rate and the expected chunk
    size are those fixed by the constructor. *)
Theorem silence_count_is_zero_unless_speech_is_active
  (rate chunk_duration_ms aggr : Z) (d0 : VADDetector) (cs : list call) :
  VADDetector_init rate chunk_duration_ms aggr = Returned d0 ->
  let d := apply_calls d0 cs in
  0 <= silence_chunks_count d
  /\ (active_speech_detected d = false -> silence_chunks_count d = 0)
  /\ chunk_size d = chunk_size d0
  /\ sample_rate d = rate.
Proof.
  intros Hinit. apply init_returned in Hinit.
  destruct Hinit as (_ & Hrate & _ & _ & Hcount & Hactive & _).
  assert (H0 : count_agrees d0) by (split; [lia | auto]).
  rewrite <- Hrate. clear Hrate Hcount Hactive.
  unfold apply_calls.
  assert (G : forall (l : list call) (d : VADDetector),
             count_agrees d ->
             count_agrees (fold_left apply_call l d)
             /\ chunk_size (fold_left apply_call l d) = chunk_size d
             /\ sample_rate (fold_left apply_call l d) = sample_rate d).
  { induction l as [| c l IH]; intros d Hd; simpl.
    - auto.
    - destruct (apply_call_keeps c Hd) as (H1 & H2 & H3).
      destruct (IH _ H1) as (H4 & H5 & H6).
      split; [exact H4 |]. split; congruence. }
  destruct (G cs d0 H0) as ((Hpos & Hzero) & Hsize & Hsr).
  simpl. auto.
Qed.

(** X6.  [is_silence_end] answers true once: after an answer true the
    detector is reset and the next call answers false; and a call that
    answers false changes nothing. *)
Theorem silence_end_is_signalled_once (d : VADDetector) :
  (fst (is_silence_end d) = true ->
   is_silence_end (snd (is_silence_end d))
   = (false, snd (is_silence_end d))
   /\ active_speech_detected (snd (is_silence_end d)) = false
   /\ silence_chunks_count (snd (is_silence_end d)) = 0
   /\ frame_buffer (snd (is_silence_end d)) = []
   /\ active_speech_detected d = true
   /\ SILENCE_CHUNK_COUNT < silence_chunks_count d)
  /\ (fst (is_silence_end d) = false -> snd (is_silence_end d) = d).
Proof.
  unfold is_silence_end.
  destruct (active_speech_detected d) eqn:Ha; simpl.
  - destruct (SILENCE_CHUNK_COUNT <? silence_chunks_count d) eqn:Hc; simpl.
    + apply Z.ltb_lt in Hc. split; [| discriminate].
      intros _. repeat split; auto.
    + split; [discriminate | reflexivity].
  - split; [discriminate | reflexivity].
Qed.

(** One frame that is not speech while speech is active and the count is
    below the threshold: no end is signalled. *)
Lemma feed_quiet (d : VADDetector) (c : bytes) :
  active_speech_detected d = true ->
  0 <= silence_chunks_count d < SILENCE_CHUNK_COUNT ->
  fst (fst (feed d c)) = false ->
  snd (fst (feed d c)) = false
  /\ active_speech_detected (snd (feed d c)) = true
  /\ 0 <= silence_chunks_count (snd (feed d c)) <= silence_chunks_count d + 1.
Proof.
  intros Ha Hk Hv.
  destruct (Z.eq_dec (len c) (chunk_size d)) as [E | E].
  - destruct (feed_trailing_silence d c Ha E Hv) as (Hp & _ & _ & Hno).
    assert (F : (SILENCE_CHUNK_COUNT <? silence_chunks_count d + 1) = false)
      by (apply Z.ltb_ge; lia).
    rewrite F in Hp. destruct (Hno F) as [H1 H2]. rewrite H2.
    repeat split; auto; lia.
  - rewrite feed_eq. rewrite process_chunk_missized by assumption. simpl.
    rewrite (is_silence_end_active _ Ha).
    assert (F : (SILENCE_CHUNK_COUNT <? silence_chunks_count d) = false)
      by (apply Z.ltb_ge; lia).
    rewrite F. simpl. repeat split; auto; lia.
Qed.

Lemma quiet_run (frames : list bytes) :
  forall d : VADDetector,
    active_speech_detected d = true ->
    0 <= silence_chunks_count d ->
    silence_chunks_count d + len frames <= SILENCE_CHUNK_COUNT ->
    Forall (fun v => v = false) (verdicts d frames) ->
    Forall (fun e => e = false) (polls d frames)
    /\ active_speech_detected (snd (feed_all d frames)) = true.
Proof.
  unfold len.
  induction frames as [| c rest IH]; intros d Ha Hpos Hsum Hv.
  - split; [constructor | exact Ha].
  - rewrite verdicts_cons in Hv. inversion Hv as [| ? ? Hc Hrest]; subst.
    simpl List.length in Hsum.
    destruct (feed_quiet d c Ha) as (Hp & Ha' & Hk'); [lia | exact Hc |].
    destruct (IH (snd (feed d c)) Ha') as [Hps Hfin]; [lia | lia | exact Hrest |].
    rewrite polls_cons, final_cons. split; [constructor |]; assumption.
Qed.

(** X7.  After a frame classified as speech, in whatever state it arrives,
    up to [SILENCE_CHUNK_COUNT] frames that are not speech, well-sized or
    not, never make [is_silence_end] answer true, and speech stays active:
    every speech frame restarts the count. *)
Theorem speech_restarts_the_silence_count
  (d : VADDetector) (speech : bytes) (frames : list bytes) :
  len frames <= SILENCE_CHUNK_COUNT ->
  verdicts d (speech :: frames) = true :: repeat false (List.length frames) ->
  Forall (fun e => e = false) (polls d (speech :: frames))
  /\ active_speech_detected (snd (feed_all d (speech :: frames))) = true.
Proof.
  intros Hlen Hv. rewrite verdicts_cons in Hv. injection Hv as Hv1 Hv2.
  destruct (feed_speech d speech Hv1) as (Hp & Ha & Hc & _).
  destruct (@quiet_run frames (snd (feed d speech))) as [Hps Hfin].
  - exact Ha.
  - lia.
  - lia.
  - rewrite Hv2. apply repeat_Forall. reflexivity.
  - rewrite polls_cons, final_cons. split; [constructor |]; assumption.
Qed.

(** ** The frames kept for the client *)

Lemma lastn_app_lastn (A : Type) (n : nat) (l m : list A) :
  lastn n (lastn n l ++ m) = lastn n (l ++ m).
Proof.
  unfold lastn. rewrite !length_app, length_skipn.
  destruct (Nat.le_gt_cases (List.length l) n) as [H | H].
  - replace (List.length l - n)%nat with O by lia. simpl.
    rewrite Nat.sub_0_r. reflexivity.
  - replace (List.length l - (List.length l - n) + List.length m - n)%nat
      with (List.length m) by lia.
    replace (List.length l + List.length m - n)%nat
      with ((List.length l - n) + List.length m)%nat by lia.
    rewrite (Nat.add_comm (List.length l - n)), <- skipn_skipn.
    rewrite (skipn_app (List.length l - n) l m).
    replace (List.length l - n - List.length l)%nat with O by lia.
    reflexivity.
Qed.

Lemma lastn_short (A : Type) (n : nat) (l : list A) :
  (List.length l <= n)%nat -> lastn n l = l.
Proof.
  intros H. unfold lastn.
  replace (List.length l - n)%nat with O by lia. reflexivity.
Qed.

Lemma silent_run_buffer (frames : list bytes) :
  forall d : VADDetector,
    active_speech_detected d = false ->
    Forall (fun v => v = false) (verdicts d frames) ->
    frame_buffer (snd (feed_all d frames))
    = (if match filter (well_sized d) frames with [] => true | _ => false end
       then frame_buffer d
       else lastn frame_buffer_maxlen
              (frame_buffer d ++ filter (well_sized d) frames)).
Proof.
  induction frames as [| c rest IH]; intros d Ha Hv.
  - reflexivity.
  - rewrite verdicts_cons in Hv. inversion Hv as [| ? ? Hc Hrest]; subst.
    destruct (feed_silent d c Ha Hc) as [_ Ha'].
    rewrite final_cons, (IH _ Ha' Hrest).
    assert (Hsize : chunk_size (snd (feed d c)) = chunk_size d).
    { rewrite feed_eq. simpl.
      now rewrite is_silence_end_chunk_size, process_chunk_chunk_size. }
    assert (Hws : well_sized (snd (feed d c)) = well_sized d).
    { unfold well_sized. now rewrite Hsize. }
    rewrite Hws. clear Hws Hsize.
    rewrite feed_eq in Hc. simpl in Hc.
    assert (Hbuf : frame_buffer (snd (feed d c))
                   = if well_sized d c
                     then deque_append frame_buffer_maxlen (frame_buffer d) c
                     else frame_buffer d).
    { rewrite feed_eq. simpl.
      rewrite (is_silence_end_inactive _
                 (process_chunk_stays_silent d c Ha Hc)). simpl.
      unfold well_sized. destruct (len c =? chunk_size d) eqn:E.
      - apply Z.eqb_eq in E.
        apply (process_chunk_silence d c E Hc).
      - apply Z.eqb_neq in E. now rewrite process_chunk_missized. }
    rewrite Hbuf. simpl filter. destruct (well_sized d c); simpl.
    + unfold deque_append.
      destruct (filter (well_sized d) rest) as [| x r] eqn:F.
      * reflexivity.
      * rewrite lastn_app_lastn, <- app_assoc. reflexivity.
    + reflexivity.
Qed.

(** X8.  After a run from the initial state in which no frame is
    classified as speech, the buffer, which [get_buffered_frames] returns,
    holds the last [SILENCE_CHUNK_COUNT // 2] frames of the expected size,
    in the order of arrival; chunks of another size are not kept. *)
Theorem buffer_holds_the_latest_silent_frames
  (rate chunk_duration_ms aggr : Z) (d0 : VADDetector) (frames : list bytes) :
  VADDetector_init rate chunk_duration_ms aggr = Returned d0 ->
  Forall (fun v => v = false) (verdicts d0 frames) ->
  fst (get_buffered_frames (snd (feed_all d0 frames)))
  = lastn frame_buffer_maxlen (filter (well_sized d0) frames)
  /\ frame_buffer (snd (get_buffered_frames (snd (feed_all d0 frames)))) = [].
Proof.
  intros Hinit Hv. apply init_returned in Hinit.
  destruct Hinit as (_ & _ & _ & _ & _ & Ha & Hb).
  split; [| reflexivity]. simpl.
  rewrite (@silent_run_buffer frames d0 Ha Hv), Hb. simpl.
  destruct (filter (well_sized d0) frames); reflexivity.
Qed.

End VadInvariants.

(** X5 on the demonstration's detector after a noise frame and a poll. *)
Lemma silence_count_is_zero_unless_speech_is_active_witness :
  0 <= Vad.silence_chunks_count
         (Vad.apply_calls Vad.demo_detector
            [Vad.ProcessChunk Vad.NOISE_CHUNK; Vad.IsSilenceEnd]).
Proof.
  refine (proj1 (@silence_count_is_zero_unless_speech_is_active
                   Vad.energy_backend 16000 20 Vad.VAD_MODE Vad.demo_detector
                   [Vad.ProcessChunk Vad.NOISE_CHUNK; Vad.IsSilenceEnd] _)).
  reflexivity.
Defined.

(** X7 on a noise frame and fifty silent frames of the demonstration. *)
Lemma speech_restarts_the_silence_count_witness :
  Forall (fun e => e = false)
    (Vad.polls Vad.demo_detector
       (Vad.NOISE_CHUNK :: repeat Vad.SILENCE_CHUNK 50))
  /\ Vad.active_speech_detected
       (snd (Vad.feed_all Vad.demo_detector
               (Vad.NOISE_CHUNK :: repeat Vad.SILENCE_CHUNK 50))) = true.
Proof.
  apply (@speech_restarts_the_silence_count Vad.energy_backend
           Vad.demo_detector Vad.NOISE_CHUNK (repeat Vad.SILENCE_CHUNK 50)).
  - vm_compute. discriminate.
  - vm_compute. reflexivity.
Defined.

(** X8 on thirty silent frames of the demonstration. *)
Lemma buffer_holds_the_latest_silent_frames_witness :
  fst (Vad.get_buffered_frames
         (snd (Vad.feed_all Vad.demo_detector (repeat Vad.SILENCE_CHUNK 30))))
  = lastn Vad.frame_buffer_maxlen
      (filter (Vad.well_sized Vad.demo_detector)
         (repeat Vad.SILENCE_CHUNK 30)).
Proof.
  refine (proj1 (@buffer_holds_the_latest_silent_frames Vad.energy_backend
                   16000 20 Vad.VAD_MODE Vad.demo_detector
                   (repeat Vad.SILENCE_CHUNK 30) _ _)).
  - reflexivity.
  - vm_compute. repeat constructor.
Defined.

(* ===================================================================== *)
(** * Properties of the microphone client *)
(* ===================================================================== *)

Section MicProperties.
Import Vad Mic.
Context {backend : VadBackend}.
Variable cfg : Config.

(** An iteration with a detector, by cases on its answers. *)
Lemma stream_step_with_detector (st : streaming) (d : VADDetector)
  (c : bytes) :
  VAD_ENABLED cfg = true -> detector st = Some d -> c <> [] ->
  stream_step cfg st c =
  if fst (process_chunk d c) then
    {| detector := Some (snd (process_chunk d c)); voice_active := true;
       sent := sent st ++ [c] |}
  else if voice_active st then
    if fst (is_silence_end (snd (process_chunk d c))) then
      {| detector := Some (snd (is_silence_end (snd (process_chunk d c))));
         voice_active := false; sent := sent st |}
    else
      {| detector := Some (snd (is_silence_end (snd (process_chunk d c))));
         voice_active := true; sent := sent st ++ [c] |}
  else
    {| detector := Some (snd (process_chunk d c)); voice_active := false;
       sent := sent st |}.
Proof.
  intros Hon Hd Hc. unfold stream_step.
  destruct c as [| b c]; [contradiction |].
  rewrite Hon, Hd.
  destruct (process_chunk d (b :: c)) as [v d1]. simpl.
  destruct v, (voice_active st); simpl; try reflexivity.
  destruct (is_silence_end d1) as [e d2]. simpl.
  destruct e; reflexivity.
Qed.

Lemma heard_speech_with_detector (st : streaming) (d : VADDetector)
  (c : bytes) :
  VAD_ENABLED cfg = true -> detector st = Some d -> c <> [] ->
  heard_speech cfg st c = fst (process_chunk d c).
Proof.
  intros Hon Hd Hc. unfold heard_speech.
  destruct c as [| b c]; [contradiction |]. now rewrite Hon, Hd.
Qed.

(** In step with its detector, the loop does to it what [feed] does, and
    sends the chunk when speech is active afterwards. *)
Lemma stream_step_feed (st : streaming) (d : VADDetector) (c : bytes) :
  VAD_ENABLED cfg = true -> detector st = Some d ->
  voice_active st = active_speech_detected d -> c <> [] ->
  stream_step cfg st c =
  {| detector := Some (snd (feed d c));
     voice_active := active_speech_detected (snd (feed d c));
     sent := sent st
             ++ (if active_speech_detected (snd (feed d c))
                 then [c] else []) |}.
Proof.
  intros Hon Hd Hva Hc.
  rewrite (@stream_step_with_detector st d c Hon Hd Hc), feed_eq. simpl.
  destruct (fst (process_chunk d c)) eqn:Hv.
  - destruct (process_chunk_speech d c Hv) as (Ha & Hk & _).
    rewrite (is_silence_end_active _ Ha), Hk. simpl. rewrite Ha. reflexivity.
  - assert (Hkeep : active_speech_detected (snd (process_chunk d c))
                    = active_speech_detected d).
    { destruct (Z.eq_dec (len c) (chunk_size d)) as [E | E].
      - apply (process_chunk_silence d c E Hv).
      - now rewrite process_chunk_missized. }
    rewrite Hva. destruct (active_speech_detected d) eqn:Ha.
    + rewrite (is_silence_end_active _ Hkeep).
      destruct (SILENCE_CHUNK_COUNT
                <? silence_chunks_count (snd (process_chunk d c))); simpl.
      * now rewrite app_nil_r.
      * now rewrite Hkeep.
    + rewrite (is_silence_end_inactive _ Hkeep). simpl.
      now rewrite Hkeep, app_nil_r.
Qed.

Lemma stream_step_in_step (st : streaming) (c : bytes) :
  VAD_ENABLED cfg = true -> in_step st -> in_step (stream_step cfg st c).
Proof.
  intros Hon [d [Hd Hva]]. destruct c as [| b c]; [exists d; auto |].
  rewrite (@stream_step_feed st d (b :: c) Hon Hd Hva) by discriminate.
  eexists. split; reflexivity.
Qed.

Lemma fold_in_step (reads : list bytes) :
  forall st : streaming,
    VAD_ENABLED cfg = true -> in_step st ->
    in_step (fold_left (stream_step cfg) reads st).
Proof.
  induction reads as [| c rest IH]; intros st Hon H; simpl.
  - exact H.
  - apply IH; [exact Hon |]. now apply stream_step_in_step.
Qed.

Lemma init_built (self : MicClient) :
  MicClient_init cfg = Built self ->
  VAD_ENABLED cfg = true ->
  exists d,
    vad self = Some d
    /\ VADDetector_init (AUDIO_RATE cfg)
         ((AUDIO_CHUNK_SIZE cfg * 1000) / (AUDIO_RATE cfg * 2)) VAD_MODE
       = Returned d.
Proof.
  unfold MicClient_init. intros H Hon. rewrite Hon in H.
  destruct (AUDIO_RATE cfg * 2 =? 0); [discriminate |].
  destruct (VADDetector_init _ _ _) as [d | e];
    [| destruct e; discriminate].
  injection H as <-. exists d. auto.
Qed.

(** X9.  With the detector enabled, whatever chunks the microphone
    returns, the [voice_active] flag of the sending loop equals the
    [active_speech_detected] flag of the client's detector at the end of
    every iteration. *)
Theorem voice_flag_follows_the_detector (self : MicClient)
  (reads : list bytes) :
  MicClient_init cfg = Built self ->
  VAD_ENABLED cfg = true ->
  exists d,
    detector (stream_audio_to_server cfg self reads) = Some d
    /\ voice_active (stream_audio_to_server cfg self reads)
       = active_speech_detected d.
Proof.
  intros Hinit Hon. destruct (init_built Hinit Hon) as (d0 & Hv & Hd0).
  apply init_returned in Hd0.
  apply fold_in_step; [exact Hon |].
  exists d0. simpl. split; [exact Hv |].
  symmetry. apply Hd0.
Qed.

Lemma quiet_chunks_are_not_sent (reads : list bytes) :
  forall st : streaming,
    VAD_ENABLED cfg = true -> in_step st -> voice_active st = false ->
    Forall (fun v => v = false) (heard_all cfg st reads) ->
    sent (fold_left (stream_step cfg) reads st) = sent st
    /\ voice_active (fold_left (stream_step cfg) reads st) = false
    /\ in_step (fold_left (stream_step cfg) reads st).
Proof.
  induction reads as [| c rest IH]; intros st Hon Hin Hva Hq; simpl.
  - auto.
  - simpl in Hq. inversion Hq as [| ? ? Hc Hrest]; subst.
    assert (Hstep : sent (stream_step cfg st c) = sent st
                    /\ voice_active (stream_step cfg st c) = false).
    { destruct c as [| b c]; [auto |].
      destruct Hin as [d [Hd _]].
      rewrite (@heard_speech_with_detector st d (b :: c) Hon Hd) in Hc
        by discriminate.
      rewrite (@stream_step_with_detector st d (b :: c) Hon Hd)
        by discriminate.
      rewrite Hc, Hva. auto. }
    destruct Hstep as [Hs Hf].
    destruct (IH (stream_step cfg st c)) as (H1 & H2 & H3); auto.
    + now apply stream_step_in_step.
    + split; [congruence | auto].
Qed.

Lemma fold_left_app_step (a b : list bytes) (st : streaming) :
  fold_left (stream_step cfg) (a ++ b) st
  = fold_left (stream_step cfg) b (fold_left (stream_step cfg) a st).
Proof. apply fold_left_app. Qed.

Lemma heard_all_app (a b : list bytes) :
  forall st : streaming,
    heard_all cfg st (a ++ b)
    = heard_all cfg st a
      ++ heard_all cfg (fold_left (stream_step cfg) a st) b.
Proof.
  induction a as [| c a IH]; intros st; simpl.
  - reflexivity.
  - now rewrite IH.
Qed.

(** X10.  With the detector enabled, nothing is sent before the first
    chunk classified as speech, and that chunk is the first one sent: the
    chunks read before it are not transmitted. *)
Theorem leading_silence_is_not_sent (self : MicClient)
  (before : list bytes) (speech : bytes) :
  MicClient_init cfg = Built self ->
  VAD_ENABLED cfg = true ->
  heard_all cfg
    {| detector := vad self; voice_active := false; sent := [] |}
    (before ++ [speech])
  = repeat false (List.length before) ++ [true] ->
  sent (stream_audio_to_server cfg self before) = []
  /\ sent (stream_audio_to_server cfg self (before ++ [speech])) = [speech]
  /\ voice_active (stream_audio_to_server cfg self (before ++ [speech]))
     = true.
Proof.
  intros Hinit Hon Hheard.
  destruct (init_built Hinit Hon) as (d0 & Hv & Hd0).
  apply init_returned in Hd0.
  set (st0 := {| detector := vad self; voice_active := false; sent := [] |})
    in *.
  assert (Hin0 : in_step st0).
  { exists d0. split; [exact Hv |]. symmetry. apply Hd0. }
  rewrite heard_all_app in Hheard.
  assert (Hq : heard_all cfg st0 before = repeat false (List.length before)
               /\ heard_speech cfg
                    (fold_left (stream_step cfg) before st0) speech = true).
  { apply app_inj_tail. exact Hheard. }
  destruct Hq as [Hquiet Hspeech].
  destruct (@quiet_chunks_are_not_sent before st0 Hon Hin0 eq_refl)
    as (Hs & Hva & Hin).
  { rewrite Hquiet. apply repeat_Forall. reflexivity. }
  unfold stream_audio_to_server. fold st0.
  split; [exact Hs |].
  rewrite fold_left_app_step. simpl.
  destruct Hin as [d [Hd _]].
  assert (Hne : speech <> []).
  { intros ->. unfold heard_speech in Hspeech. discriminate. }
  rewrite (@heard_speech_with_detector _ d speech Hon Hd Hne) in Hspeech.
  rewrite (@stream_step_with_detector _ d speech Hon Hd Hne), Hspeech. simpl.
  rewrite Hs. auto.
Qed.

Lemma sent_voiced (reads : list bytes) :
  forall (st : streaming) (d : VADDetector),
    VAD_ENABLED cfg = true -> detector st = Some d ->
    voice_active st = active_speech_detected d ->
    sent (fold_left (stream_step cfg) reads st) = sent st ++ voiced d reads
    /\ voice_active (fold_left (stream_step cfg) reads st)
       = active_speech_detected (snd (feed_all d (filter nonempty reads))).
Proof.
  induction reads as [| c rest IH]; intros st d Hon Hd Hva.
  - simpl. now rewrite app_nil_r.
  - destruct c as [| b c].
    + simpl. now apply IH.
    + cbn [fold_left filter nonempty].
      rewrite (@stream_step_feed st d (b :: c) Hon Hd Hva) by discriminate.
      destruct (IH {| detector := Some (snd (feed d (b :: c)));
                      voice_active :=
                        active_speech_detected (snd (feed d (b :: c)));
                      sent := sent st
                              ++ (if active_speech_detected
                                       (snd (feed d (b :: c)))
                                  then [b :: c] else []) |}
                   (snd (feed d (b :: c))) Hon eq_refl eq_refl) as [H1 H2].
      split.
      * etransitivity; [exact H1 |]. cbn [sent voiced].
        now rewrite <- app_assoc.
      * etransitivity; [exact H2 |]. now rewrite final_cons.
Qed.

(** X12.  With the detector enabled, a chunk that is not empty is sent
    exactly when the detector holds active speech after it has classified
    the chunk and been polled: that the loop polls [is_silence_end] only
    on silence met during speech makes no difference.  The flag the loop is
    left with is the detector's. *)
Theorem sent_chunks_are_those_left_in_active_speech (self : MicClient)
  (d0 : VADDetector) (reads : list bytes) :
  MicClient_init cfg = Built self ->
  VAD_ENABLED cfg = true ->
  vad self = Some d0 ->
  sent (stream_audio_to_server cfg self reads) = voiced d0 reads
  /\ voice_active (stream_audio_to_server cfg self reads)
     = active_speech_detected (snd (feed_all d0 (filter nonempty reads))).
Proof.
  intros Hinit Hon Hv. destruct (init_built Hinit Hon) as (d & Hv' & Hd).
  rewrite Hv in Hv'. injection Hv' as <-. apply init_returned in Hd.
  unfold stream_audio_to_server.
  apply (@sent_voiced reads
           {| detector := vad self; voice_active := false; sent := [] |}
           d0 Hon Hv).
  simpl. symmetry. apply Hd.
Qed.

Lemma voiced_trailing (silences : list bytes) (last : bytes) :
  forall d : VADDetector,
    active_speech_detected d = true ->
    0 < chunk_size d ->
    0 <= silence_chunks_count d ->
    silence_chunks_count d + len silences = SILENCE_CHUNK_COUNT ->
    Forall (fun c => len c = chunk_size d) (silences ++ [last]) ->
    Forall (fun v => v = false) (verdicts d (silences ++ [last])) ->
    voiced d (silences ++ [last]) = silences.
Proof.
  unfold len.
  induction silences as [| c rest IH]; intros d Ha Hpos Hk Hsum Hsz Hv;
    cbn [app] in *;
    inversion Hsz as [| ? ? Hc Hrest]; subst;
    rewrite verdicts_cons in Hv; inversion Hv as [| ? ? Hv1 Hv2]; subst;
    destruct (feed_trailing_silence d _ Ha Hc Hv1) as (_ & Hcs & Hyes & Hno).
  - simpl in Hsum. destruct last as [| b l]; [simpl in Hc; lia |].
    cbn [voiced].
    assert (E : (SILENCE_CHUNK_COUNT <? silence_chunks_count d + 1) = true)
      by (apply Z.ltb_lt; lia).
    destruct (Hyes E) as (-> & _). reflexivity.
  - simpl List.length in Hsum.
    destruct c as [| b l]; [unfold len in Hc; simpl in Hc; lia |].
    cbn [voiced].
    assert (E : (SILENCE_CHUNK_COUNT <? silence_chunks_count d + 1) = false)
      by (apply Z.ltb_ge; lia).
    destruct (Hno E) as (Ha' & Hk').
    rewrite Ha'. cbn [app]. f_equal.
    apply IH; try assumption; try lia.
    + now rewrite Hcs.
Qed.

(** X13.  After a chunk classified as speech, the next
    [SILENCE_CHUNK_COUNT] chunks of the detector's size that are not speech
    are still sent; on the one after them the end of the utterance is
    detected, that chunk is not sent and the loop is back to waiting for
    speech. *)
Theorem trailing_silence_is_sent_until_the_end (self : MicClient)
  (d0 : VADDetector) (speech : bytes) (silences : list bytes)
  (last : bytes) :
  MicClient_init cfg = Built self ->
  VAD_ENABLED cfg = true ->
  vad self = Some d0 ->
  0 < chunk_size d0 ->
  speech <> [] ->
  len silences = SILENCE_CHUNK_COUNT ->
  Forall (fun c => len c = chunk_size d0) (silences ++ [last]) ->
  verdicts d0 (speech :: silences ++ [last])
  = true :: repeat false (S (List.length silences)) ->
  sent (stream_audio_to_server cfg self (speech :: silences ++ [last]))
  = speech :: silences.
Proof.
  intros Hinit Hon Hv Hpos Hne Hlen Hsz Hverd.
  destruct (init_built Hinit Hon) as (d & Hv' & Hd).
  rewrite Hv in Hv'. injection Hv' as <-. apply init_returned in Hd.
  unfold stream_audio_to_server.
  destruct (@sent_voiced (speech :: silences ++ [last]) 
              {| detector := vad self; voice_active := false; sent := [] |}
              d0 Hon Hv) as [Hs _].
  { simpl. symmetry. apply Hd. }
  rewrite Hs. cbn [sent app].
  rewrite verdicts_cons in Hverd. injection Hverd as Hv1 Hv2.
  destruct (feed_speech d0 speech Hv1) as (_ & Ha & Hk & Hcs).
  destruct speech as [| b l]; [contradiction |].
  cbn [voiced]. rewrite Ha. cbn [app]. f_equal.
  apply voiced_trailing.
  - exact Ha.
  - now rewrite Hcs.
  - lia.
  - now rewrite Hk.
  - now rewrite Hcs.
  - rewrite Hv2. constructor; [reflexivity |].
    apply repeat_Forall. reflexivity.
Qed.

(** X11.  Without a detector, disabled by the settings, every chunk that
    is not empty is sent, in the order read, and nothing else. *)
Theorem without_detector_every_chunk_is_sent (self : MicClient)
  (reads : list bytes) :
  VAD_ENABLED cfg = false ->
  sent (stream_audio_to_server cfg self reads) = filter nonempty reads.
Proof.
  intros Hoff. unfold stream_audio_to_server.
  assert (G : forall (l : list bytes) (st : streaming),
             sent (fold_left (stream_step cfg) l st)
             = sent st ++ filter nonempty l).
  { induction l as [| c l IH]; intros st; simpl.
    - now rewrite app_nil_r.
    - rewrite IH. unfold stream_step. rewrite Hoff.
      destruct c as [| b c]; simpl; [reflexivity |].
      now rewrite <- app_assoc. }
  now rewrite G.
Qed.

End MicProperties.

(** X9 on the car's client, for a loud chunk and a quiet one. *)
Lemma voice_flag_follows_the_detector_witness :
  exists d,
    Mic.detector
      (Mic.stream_audio_to_server Mic.car_config Mic.car_client
         [Mic.LOUD_CHUNK; Mic.QUIET_CHUNK]) = Some d
    /\ Mic.voice_active
         (Mic.stream_audio_to_server Mic.car_config Mic.car_client
            [Mic.LOUD_CHUNK; Mic.QUIET_CHUNK])
       = Vad.active_speech_detected d.
Proof.
  apply (@voice_flag_follows_the_detector Vad.energy_backend Mic.car_config
           Mic.car_client [Mic.LOUD_CHUNK; Mic.QUIET_CHUNK]); reflexivity.
Defined.

(** X10 on the car's client: two quiet chunks, then a loud one. *)
Lemma leading_silence_is_not_sent_witness :
  Mic.sent
    (Mic.stream_audio_to_server Mic.car_config Mic.car_client
       ([Mic.QUIET_CHUNK; Mic.QUIET_CHUNK] ++ [Mic.LOUD_CHUNK]))
  = [Mic.LOUD_CHUNK].
Proof.
  refine (proj1 (proj2 (@leading_silence_is_not_sent Vad.energy_backend
                          Mic.car_config Mic.car_client
                          [Mic.QUIET_CHUNK; Mic.QUIET_CHUNK] Mic.LOUD_CHUNK
                          _ _ _))).
  - reflexivity.
  - reflexivity.
  - vm_compute. reflexivity.
Defined.

(** X12 on the car's client: a loud chunk between two quiet ones. *)
Lemma sent_chunks_are_those_left_in_active_speech_witness :
  Mic.sent
    (Mic.stream_audio_to_server Mic.car_config Mic.car_client
       [Mic.QUIET_CHUNK; Mic.LOUD_CHUNK; Mic.QUIET_CHUNK])
  = [Mic.LOUD_CHUNK; Mic.QUIET_CHUNK].
Proof.
  refine (eq_trans
            (proj1 (@sent_chunks_are_those_left_in_active_speech
                      Vad.energy_backend Mic.car_config Mic.car_client
                      (@Vad.Build_VADDetector Vad.energy_backend 16000 32
                         1024 tt 0 false [])
                      [Mic.QUIET_CHUNK; Mic.LOUD_CHUNK; Mic.QUIET_CHUNK]
                      _ _ _)) _).
  - reflexivity.
  - reflexivity.
  - reflexivity.
  - vm_compute. reflexivity.
Defined.

(** X13 on the car's client: a loud chunk and fifty-one quiet ones. *)
Lemma trailing_silence_is_sent_until_the_end_witness :
  Mic.sent
    (Mic.stream_audio_to_server Mic.car_config Mic.car_client
       (Mic.LOUD_CHUNK :: repeat Mic.QUIET_CHUNK 50 ++ [Mic.QUIET_CHUNK]))
  = Mic.LOUD_CHUNK :: repeat Mic.QUIET_CHUNK 50.
Proof.
  apply (@trailing_silence_is_sent_until_the_end Vad.energy_backend
           Mic.car_config Mic.car_client
           (@Vad.Build_VADDetector Vad.energy_backend 16000 32 1024 tt 0
              false [])).
  - reflexivity.
  - reflexivity.
  - reflexivity.
  - reflexivity.
  - discriminate.
  - reflexivity.
  - vm_compute. repeat constructor.
  - vm_compute. reflexivity.
Defined.

(** X11 on a client without detector, as with the fallback settings. *)
Lemma without_detector_every_chunk_is_sent_witness :
  Mic.sent
    (Mic.stream_audio_to_server Mic.fallback_config
       {| Mic.vad := @None (@Vad.VADDetector Vad.energy_backend);
          Mic.is_recording := false |}
       [Mic.QUIET_CHUNK; []; Mic.LOUD_CHUNK])
  = filter Mic.nonempty [Mic.QUIET_CHUNK; []; Mic.LOUD_CHUNK].
Proof.
  apply (@without_detector_every_chunk_is_sent Vad.energy_backend
           Mic.fallback_config). reflexivity.
Defined.

(* ===================================================================== *)
(** * Properties of the action pattern and of the generation stage *)
(* ===================================================================== *)

Section PatternProperties.
Import Streaming Conversation.
Context {tables : UnicodeTables}.

Local Abbreviation opening := ([91; 65; 67; 84; 73; 79; 78; 58]%N).

Lemma span_spec (p : char -> bool) (s : str) :
  s = fst (span p s) ++ snd (span p s)
  /\ forallb p (fst (span p s)) = true
  /\ match snd (span p s) with [] => True | c :: _ => p c = false end.
Proof.
  induction s as [| c s IH]; simpl.
  - auto.
  - destruct (p c) eqn:E.
    + destruct (span p s) as [a b]. simpl in *.
      destruct IH as (H1 & H2 & H3). rewrite E.
      repeat split; [congruence | assumption | assumption].
    + simpl. rewrite E. auto.
Qed.

Lemma span_intro (p : char -> bool) (a b : str) :
  forallb p a = true ->
  match b with [] => True | c :: _ => p c = false end ->
  span p (a ++ b) = (a, b).
Proof.
  induction a as [| c a IH]; simpl; intros Ha Hb.
  - destruct b as [| c b]; simpl; [reflexivity | now rewrite Hb].
  - apply andb_prop in Ha as [H1 H2]. now rewrite H1, IH.
Qed.

Lemma strip_prefix_spec (p s r : str) :
  strip_prefix p s = Some r <-> s = p ++ r.
Proof.
  revert s. induction p as [| x p IH]; intros s; simpl.
  - split; congruence.
  - destruct s as [| y s].
    + split; discriminate.
    + unfold char_eqb. destruct (N.eqb_spec x y) as [-> | Hne].
      * rewrite IH. split; congruence.
      * split; [discriminate | congruence].
Qed.

(** A character known to be a given one, from a test on it that did not
    fail. *)
Ltac pin_char c :=
  destruct c as [| c]; [discriminate |];
  repeat (destruct c as [c | c |]; try discriminate).

(** What a match at the start of a string consists of. *)
Lemma match_here_inv (s g : str) (n : nat) :
  match_here s = Some (g, n) ->
  exists name args rest,
    name <> []
    /\ forallb name_char name = true
    /\ forallb arg_char args = true
    /\ s = opening ++ name ++ 40%N :: args ++ 41%N :: 93%N :: rest
    /\ g = name ++ [40%N] ++ args ++ [41%N]
    /\ n = (8 + List.length g + 1)%nat.
Proof.
  unfold match_here.
  destruct (strip_prefix (lit "[ACTION:") s) as [r |] eqn:Hp; [| discriminate].
  apply strip_prefix_spec in Hp.
  destruct (span_spec name_char r) as (Hr & Hname & _).
  destruct (span name_char r) as [name r1]. simpl in Hr, Hname.
  destruct name as [| n0 name]; [discriminate |].
  destruct r1 as [| c r1]; [discriminate |].
  destruct (span_spec arg_char r1) as (Hr1 & Hargs & _).
  destruct (span arg_char r1) as [args r2]. simpl in Hr1, Hargs.
  intros H.
  assert (c = 40%N) by (pin_char c; reflexivity). subst c.
  destruct r2 as [| c r2]; [discriminate |].
  assert (c = 41%N) by (pin_char c; reflexivity). subst c.
  destruct r2 as [| c r2]; [discriminate |].
  assert (c = 93%N) by (pin_char c; reflexivity). subst c.
  injection H as <- <-.
  exists (n0 :: name), args, r2. subst. repeat split; auto. discriminate.
Qed.

Lemma match_here_intro (name args rest : str) :
  name <> [] ->
  forallb name_char name = true ->
  forallb arg_char args = true ->
  match_here (opening ++ name ++ 40%N :: args ++ 41%N :: 93%N :: rest)
  = Some (name ++ [40%N] ++ args ++ [41%N],
          (8 + List.length (name ++ [40%N] ++ args ++ [41%N]) + 1)%nat).
Proof.
  intros Hne Hname Hargs. unfold match_here.
  assert (Hp : strip_prefix (lit "[ACTION:")
                 (opening ++ name ++ 40%N :: args ++ 41%N :: 93%N :: rest)
               = Some (name ++ 40%N :: args ++ 41%N :: 93%N :: rest))
    by (now apply strip_prefix_spec).
  rewrite Hp, (span_intro name_char name _ Hname) by reflexivity.
  destruct name as [| n0 name]; [contradiction |].
  rewrite (span_intro arg_char args _ Hargs) by reflexivity.
  reflexivity.
Qed.

(** A match at the start of a string is a match of every longer string. *)
Lemma match_here_app (s t : str) (x : str * nat) :
  match_here s = Some x -> match_here (s ++ t) = Some x.
Proof.
  destruct x as [g n]. intros H.
  apply match_here_inv in H.
  destruct H as (name & args & rest & Hne & Hname & Hargs & -> & -> & ->).
  etransitivity;
    [| exact (@match_here_intro name args (rest ++ t) Hne Hname Hargs)].
  f_equal. rewrite <- !app_assoc. simpl. rewrite <- !app_assoc. reflexivity.
Qed.

Lemma search_eq (s : str) :
  search s =
  match match_here s with
  | Some (group, _) => Some group
  | None => match s with [] => None | _ :: r => search r end
  end.
Proof. destruct s; reflexivity. Qed.

(** Every match starts with an opening bracket. *)
Lemma search_without_bracket (u : str) :
  Forall (fun c => c <> 91%N) u -> search u = None.
Proof.
  induction u as [| c u IH]; intros H.
  - reflexivity.
  - inversion H as [| ? ? Hc Hu]; subst. rewrite search_eq.
    assert (Hm : match_here (c :: u) = None).
    { unfold match_here.
      destruct (strip_prefix (lit "[ACTION:") (c :: u)) as [r |] eqn:Hp;
        [| reflexivity].
      apply strip_prefix_spec in Hp. injection Hp as Hp _. congruence. }
    rewrite Hm. now apply IH.
Qed.

Lemma class_without_bracket (p : char -> bool) (l : str) :
  p 91%N = false -> forallb p l = true -> Forall (fun c => c <> 91%N) l.
Proof.
  intros Hp Hl. apply Forall_forall. intros c Hin ->.
  rewrite forallb_forall in Hl. specialize (Hl _ Hin). congruence.
Qed.

(** The string that begins a match without holding all of it holds no
    opening bracket behind its first character. *)
Lemma partial_match_without_bracket (s t : str) (x : str * nat) :
  match_here s = None -> match_here (s ++ t) = Some x ->
  Forall (fun c => c <> 91%N) (tl s).
Proof.
  destruct x as [g n]. intros Hs Hst.
  apply match_here_inv in Hst.
  destruct Hst as (name & args & rest & Hne & Hname & Hargs & Heq & _ & _).
  replace (opening ++ name ++ 40%N :: args ++ 41%N :: 93%N :: rest)
    with ((opening ++ name ++ 40%N :: args ++ [41%N; 93%N]) ++ rest) in Heq
    by (rewrite <- !app_assoc; simpl; rewrite <- !app_assoc; reflexivity).
  apply app_eq_app in Heq. destruct Heq as [l [[Hl _] | [Hl _]]].
  - rewrite Hl in Hs.
    replace ((opening ++ name ++ 40%N :: args ++ [41%N; 93%N]) ++ l)
      with (opening ++ name ++ 40%N :: args ++ 41%N :: 93%N :: l) in Hs
      by (rewrite <- !app_assoc; simpl; rewrite <- !app_assoc; reflexivity).
    rewrite (@match_here_intro name args l Hne Hname Hargs) in Hs.
    discriminate.
  - assert (Hclean : Forall (fun c => c <> 91%N)
                       (tl (opening ++ name ++ 40%N :: args ++ [41%N; 93%N]))).
    { simpl. repeat (constructor; [discriminate |]).
      apply Forall_app. split.
      - now apply (class_without_bracket name_char).
      - constructor; [discriminate |]. apply Forall_app. split.
        + now apply (class_without_bracket arg_char).
        + repeat (constructor; [discriminate |]). constructor. }
    rewrite Hl in Hclean. destruct s as [| c s]; [constructor |].
    simpl in Hclean. apply Forall_app in Hclean. apply Hclean.
Qed.

(** The leftmost match of a string is the leftmost match of every longer
    string. *)
Lemma search_app (s t : str) (g : str) :
  search s = Some g -> search (s ++ t) = Some g.
Proof.
  induction s as [| c s IH]; intros H.
  - discriminate.
  - rewrite search_eq in H. rewrite search_eq.
    destruct (match_here (c :: s)) as [[g' n] |] eqn:Hm.
    + now rewrite (match_here_app _ t Hm).
    + destruct (match_here ((c :: s) ++ t)) as [x |] eqn:Hmt.
      * pose proof (partial_match_without_bracket _ _ Hm Hmt) as Hclean.
        simpl in Hclean. rewrite (search_without_bracket Hclean) in H.
        discriminate.
      * simpl. now apply IH.
Qed.

Lemma search_app_none (s t : str) :
  search (s ++ t) = None -> search s = None.
Proof.
  intros H. destruct (search s) as [g |] eqn:E; [| reflexivity].
  rewrite (search_app _ t E) in H. discriminate.
Qed.

(** Group 1 of a match is not the empty string. *)
Lemma search_truthy (s g : str) : search s = Some g -> truthy (Some g) = true.
Proof.
  induction s as [| c s IH]; rewrite search_eq.
  - discriminate.
  - destruct (match_here (c :: s)) as [[g' n] |] eqn:Hm.
    + intros [= <-]. apply match_here_inv in Hm.
      destruct Hm as (name & args & rest & Hne & _ & _ & _ & -> & _).
      destruct name; [contradiction | reflexivity].
    + exact IH.
Qed.

End PatternProperties.

Section GenerationProperties.
Import Streaming Asr Conversation.
Context {tables : UnicodeTables} {engines : Engines}.

(** One iteration of the loop of [_llm_chat_and_parse] in full. *)
Lemma llm_iteration_eq (v : llm_vars) (chunk : str) :
  llm_iteration v chunk =
  Returned
    {| full_response := full_response v ++ chunk;
       action_command :=
         match search (full_response v ++ chunk) with
         | Some group =>
             if truthy (action_command v) then action_command v
             else Some group
         | None => action_command v
         end;
       llm_text_out :=
         match (match search (full_response v ++ chunk) with
                | Some _ =>
                    if truthy (action_command v) then chunk else sub chunk
                | None => chunk
                end) with
         | [] => llm_text_out v
         | c :: r => after_put (llm_text_out v) (c :: r)
         end |}.
Proof.
  unfold llm_iteration.
  destruct (search (full_response v ++ chunk)) as [g |];
    [destruct (truthy (action_command v)); simpl |];
    match goal with
    | |- context [match ?x with [] => Returned _ | _ :: _ => _ end] =>
        destruct x; [reflexivity | rewrite put_after_put; reflexivity]
    end.
Qed.

(** The loop keeps: the command is group 1 of the leftmost match of the
    reply received so far. *)
Lemma llm_loop_command (stream : list str) :
  forall v : llm_vars,
    action_command v = search (full_response v) ->
    exists v',
      llm_loop v stream = Returned v'
      /\ full_response v' = full_response v ++ concat stream
      /\ action_command v' = search (full_response v').
Proof.
  induction stream as [| chunk rest IH]; intros v Hv.
  - exists v. simpl. now rewrite app_nil_r.
  - simpl llm_loop. rewrite llm_iteration_eq. simpl bind.
    match goal with
    | |- context [llm_loop ?w rest] => destruct (IH w) as (v' & H1 & H2 & H3)
    end.
    + simpl. destruct (search (full_response v ++ chunk)) as [g |] eqn:E.
      * destruct (truthy (action_command v)) eqn:T; [| reflexivity].
        rewrite Hv in *.
        destruct (search (full_response v)) as [g0 |] eqn:E0;
          [| discriminate].
        rewrite (search_app _ chunk E0) in E. congruence.
      * rewrite Hv. now apply search_app_none in E.
    + exists v'. split; [exact H1 |]. split; [| exact H3].
      rewrite H2. simpl. now rewrite <- app_assoc.
Qed.

(** X14.  However the reply is cut into fragments, the loop of
    [_llm_chat_and_parse] ends without an exception, with the whole reply
    in [full_response] and with [action_command] holding group 1 of the
    leftmost action tag of the whole reply, or [None] when the reply holds
    no tag. *)
Theorem parsed_command_is_the_leftmost_tag_of_the_reply
  (command_text : str) (text_out : TextQueue) :
  exists v,
    llm_run command_text text_out = Returned v
    /\ full_response v = concat (chat_stream command_text)
    /\ action_command v = search (concat (chat_stream command_text)).
Proof.
  unfold llm_run.
  destruct (@llm_loop_command (chat_stream command_text)
              {| full_response := []; action_command := None;
                 llm_text_out := text_out |} eq_refl) as (v & H1 & H2 & H3).
  exists v. split; [exact H1 |]. simpl in H2. rewrite <- H2. auto.
Qed.

Lemma llm_loop_plain (stream : list str) :
  forall v : llm_vars,
    search (full_response v ++ concat stream) = None ->
    is_finished (llm_text_out v) = false ->
    exists v',
      llm_loop v stream = Returned v'
      /\ queue (llm_text_out v')
         = queue (llm_text_out v)
           ++ map Some (filter (fun chunk => truthy (Some chunk)) stream)
      /\ is_finished (llm_text_out v') = false.
Proof.
  induction stream as [| chunk rest IH]; intros v Hs Hopen.
  - exists v. simpl. now rewrite app_nil_r.
  - simpl llm_loop. rewrite llm_iteration_eq. simpl bind.
    simpl concat in Hs. rewrite app_assoc in Hs.
    rewrite (search_app_none _ _ Hs).
    match goal with
    | |- context [llm_loop ?w rest] => destruct (IH w) as (v' & H1 & H2 & H3)
    end.
    + exact Hs.
    + simpl. destruct chunk; [exact Hopen |].
      unfold after_put. now rewrite Hopen.
    + exists v'. split; [exact H1 |]. split; [| exact H3].
      rewrite H2. simpl. destruct chunk as [| c r]; simpl; [reflexivity |].
      unfold after_put. rewrite Hopen. simpl. now rewrite <- app_assoc.
Qed.

(** X15.  A reply that holds no action tag reaches the text queue whole:
    every fragment that is not empty is put unchanged, in the order of the
    stream, and the queue is then closed, once. *)
Theorem reply_without_tag_is_forwarded_whole
  (command_text : str) (text_out : TextQueue) :
  search (concat (chat_stream command_text)) = None ->
  is_finished text_out = false ->
  _llm_chat_and_parse command_text text_out
  = {| queue := queue text_out
                ++ map Some (filter (fun chunk => truthy (Some chunk))
                               (chat_stream command_text))
                ++ [None];
       is_finished := true |}.
Proof.
  intros Hs Hopen. unfold _llm_chat_and_parse, llm_run.
  destruct (@llm_loop_plain (chat_stream command_text)
              {| full_response := []; action_command := None;
                 llm_text_out := text_out |} Hs Hopen) as (v & H1 & H2 & _).
  rewrite H1. unfold close. rewrite H2. simpl. now rewrite <- app_assoc.
Qed.

End GenerationProperties.

(** X15 for a greeting that comes in three fragments, one of them empty. *)
Lemma reply_without_tag_is_forwarded_whole_witness :
  @Conversation._llm_chat_and_parse ascii_only
    (Conversation.scripted_engines [lit "你好"; []; lit "呀"])
    (lit "你好") (Streaming.StreamQueue_init str)
  = {| Streaming.queue := [Some (lit "你好"); Some (lit "呀"); None];
       Streaming.is_finished := true |}.
Proof.
  apply (@reply_without_tag_is_forwarded_whole ascii_only
           (Conversation.scripted_engines [lit "你好"; []; lit "呀"])
           (lit "你好") (Streaming.StreamQueue_init str)).
  - vm_compute. reflexivity.
  - reflexivity.
Defined.

(* ===================================================================== *)
(** * Properties of the synthesis stage and of a session *)
(* ===================================================================== *)

Section SessionProperties.
Import Streaming Asr Conversation.
Context {tables : UnicodeTables} {sdk : SenseVoice} {engines : Engines}.

(** X16.  The synthesis stage keeps the order of the texts.  When the
    text queue ends and no synthesis raises, the PCM queue, open at the
    start, holds what it held, then the chunks synthesized for the first
    text, then those for the second, and so on, and a single end marker.
    When the synthesis of a text raises, nothing catches it: the coroutine
    raises, the PCM queue holds the chunks of the texts before and the
    chunks that synthesis yielded, and is left open, without end marker;
    the texts behind stay in the text queue. *)
Theorem synthesis_keeps_the_order_of_the_texts
  (text_in : TextQueue) (pcm_out : PCMQueue) (texts : list str)
  (text_rest : TextQueue) :
  drain text_in = Stopped texts text_rest ->
  is_finished pcm_out = false ->
  (Forall (fun t => raised (synthesize_stream t) = None) texts ->
   _llm_to_tts text_in pcm_out
   = TtsReturned text_rest
       {| queue := queue pcm_out
                   ++ map Some (flat_map
                                  (fun t => yielded (synthesize_stream t))
                                  texts)
                   ++ [None];
          is_finished := true |})
  /\ (forall (before : list str) (t : str) (behind : list str) (e : exn),
        texts = before ++ t :: behind ->
        Forall (fun t => raised (synthesize_stream t) = None) before ->
        raised (synthesize_stream t) = Some e ->
        _llm_to_tts text_in pcm_out
        = TtsRaised e
            {| queue := map Some behind ++ None :: queue text_rest;
               is_finished := is_finished text_rest |}
            {| queue := queue pcm_out
                        ++ map Some (flat_map
                                       (fun t => yielded (synthesize_stream t))
                                       before
                                     ++ yielded (synthesize_stream t));
               is_finished := false |}).
Proof.
  intros Hd Hopen. unfold drain in Hd.
  destruct (drain_stopped_items _ _ _ Hd) as (taken & Ht & Hitems & Hfin).
  simpl in Ht. subst taken. unfold _llm_to_tts. rewrite Hitems, <- Hfin.
  split.
  - intros Hok. rewrite (tts_items_texts _ _ _ Hok). simpl.
    destruct (put_chunks_open
                (flat_map (fun t => yielded (synthesize_stream t)) texts)
                pcm_out Hopen) as [Hq _].
    unfold close. rewrite Hq, <- app_assoc. destruct text_rest. reflexivity.
  - intros before t behind e -> Hok He.
    rewrite map_app, <- app_assoc. simpl.
    rewrite (tts_items_texts _ _ _ Hok). simpl. rewrite He.
    destruct (put_chunks_open
                (flat_map (fun t => yielded (synthesize_stream t)) before)
                pcm_out Hopen) as [Hq Hf].
    destruct (put_chunks_open (yielded (synthesize_stream t)) _ Hf)
      as [Hq' Hf'].
    f_equal.
    match goal with
    | |- ?q = _ => destruct q as [items fin] eqn:E
    end.
    simpl in Hq', Hf'. subst fin. rewrite Hq', Hq, map_app, app_assoc.
    reflexivity.
Qed.

(** X17.  A session is run once: after a call of [run_pipeline] that
    returned, with whatever result, the three queues of the session are
    closed, the manager holds none, the pipeline is not active, and a
    second call raises [RuntimeError]. *)
Theorem a_session_is_run_once (self : ConversationPipeline)
  (r : bool * option str) (s : session) :
  run_pipeline self = Some (Returned r, s) ->
  is_active (self_after s) = false
  /\ is_finished (audio_in_after s) = true
  /\ is_finished (text_out_after s) = true
  /\ is_finished (pcm_out_after s) = true
  /\ option_map fst (run_pipeline (self_after s)) = Some (Raised RuntimeError).
Proof.
  unfold run_pipeline.
  destruct (get_queues (manager self)) as [[[a t] p] | e]; [| discriminate].
  destruct (asr_task self a t) as [fr | e v rest | v]; [| | discriminate].
  - destruct (_llm_to_tts (asr_text_out (after fr)) p)
      as [tr pq | e tr pq | pq]; [| | discriminate];
      intros [= <- <-]; repeat split.
  - intros [= <- <-]; repeat split.
Qed.

End SessionProperties.

(** X16 on a closed text queue of two texts and a new PCM queue, for a
    synthesis engine that breaks down behind its first chunk. *)
Lemma synthesis_keeps_the_order_of_the_texts_witness :
  @Conversation._llm_to_tts (Conversation.failing_synthesis [])
    (Streaming.close
       (Streaming.put_chunks (Streaming.StreamQueue_init str)
          [lit "好的"; lit "走"]))
    (Streaming.StreamQueue_init bytes)
  = Conversation.TtsRaised RuntimeError
      {| Streaming.queue := [Some (lit "走"); None];
         Streaming.is_finished := true |}
      {| Streaming.queue := [Some [x01; x01]];
         Streaming.is_finished := false |}.
Proof.
  refine (proj2 (@synthesis_keeps_the_order_of_the_texts
                   (Conversation.failing_synthesis [])
                   (Streaming.close
                      (Streaming.put_chunks (Streaming.StreamQueue_init str)
                         [lit "好的"; lit "走"]))
                   (Streaming.StreamQueue_init bytes)
                   [lit "好的"; lit "走"]
                   {| Streaming.queue := []; Streaming.is_finished := true |}
                   _ _)
                [] (lit "好的") [lit "走"] RuntimeError _ _ _).
  - reflexivity.
  - reflexivity.
  - reflexivity.
  - constructor.
  - reflexivity.
Defined.

(** X17 on the session of the demonstration. *)
Lemma a_session_is_run_once_witness :
  exists s,
    @Conversation.run_pipeline ascii_only Conversation.demo_sdk
      Conversation.demo_engines
      (@Conversation.demo_session Conversation.demo_sdk
         Asr.default_wakeup_word Conversation.demo_audio)
    = Some (Returned (true, None), s)
    /\ option_map fst
         (@Conversation.run_pipeline ascii_only Conversation.demo_sdk
            Conversation.demo_engines (Conversation.self_after s))
       = Some (Raised RuntimeError).
Proof.
  eexists. split.
  - vm_compute. reflexivity.
  - refine (proj2 (proj2 (proj2 (proj2
              (@a_session_is_run_once ascii_only Conversation.demo_sdk
                 Conversation.demo_engines
                 (@Conversation.demo_session Conversation.demo_sdk
                    Asr.default_wakeup_word Conversation.demo_audio)
                 (true, None) _ _))))).
    vm_compute. reflexivity.
Defined.

(* ===================================================================== *)
(** * Further properties of the server *)
(* ===================================================================== *)

Section ServerCleanup.
Import Streaming Conversation Server.
Context {sdk : Asr.SenseVoice}.
Variable audio_in_handler : PetCarServer -> WebSocket -> run.
Variable audio_out_handler : PetCarServer -> WebSocket -> run.
Variable control_handler : PetCarServer -> WebSocket -> run.

(** X18.  A connection accepted by a free server leaves it free: whatever
    the path, whatever the handler of the path does to the server object
    and however it ends, [_handle_connection] leaves no connection held
    and no conversation active, and it does not raise [ConnectionClosed]. *)
Theorem accepted_connection_leaves_the_server_free (self : PetCarServer)
  (websocket : WebSocket) (path : str) :
  car_connection self = None ->
  let result :=
    _handle_connection audio_in_handler audio_out_handler control_handler
      self websocket path in
  car_connection (snd (fst result)) = None
  /\ is_active (pipeline (snd (fst result))) = false
  /\ fst (fst result) <> Raised ConnectionClosed.
Proof.
  intros Hfree. unfold _handle_connection. rewrite Hfree.
  set (held := set_car_connection self (Some websocket)).
  destruct (if str_eqb path (lit "/audio/in")
            then audio_in_handler held websocket
            else if str_eqb path (lit "/audio/out")
                 then audio_out_handler held websocket
                 else if str_eqb path (lit "/control")
                      then control_handler held websocket
                      else (Returned tt, held,
                            [Close websocket 1000 (lit "Unknown path")]))
    as [[r after] events].
  cbn zeta. cbn [fst snd].
  split; [| split].
  - destruct (is_active (pipeline (set_car_connection after None)));
      reflexivity.
  - destruct (is_active (pipeline (set_car_connection after None))) eqn:E;
      [reflexivity | exact E].
  - destruct r as [[] | []]; discriminate.
Qed.

End ServerCleanup.

(** X18 on a new server and a connection on the audio path. *)
Lemma accepted_connection_leaves_the_server_free_witness :
  Server.car_connection
    (snd (fst (Server._handle_connection Server.idle_handler
                 Server.idle_handler Server.idle_handler
                 (Server.PetCarServer_init (lit "0.0.0.0") 8765
                    (@Conversation.demo_session Conversation.demo_sdk
                       Asr.default_wakeup_word Conversation.demo_audio))
                 1 (lit "/audio/in"))))
  = None.
Proof.
  refine (proj1 (@accepted_connection_leaves_the_server_free
                   Conversation.demo_sdk Server.idle_handler
                   Server.idle_handler Server.idle_handler
                   (Server.PetCarServer_init (lit "0.0.0.0") 8765
                      (@Conversation.demo_session Conversation.demo_sdk
                         Asr.default_wakeup_word Conversation.demo_audio))
                   1 (lit "/audio/in") _)).
  reflexivity.
Defined.

(* ===================================================================== *)
(** * Further properties of the transcription engine *)
(* ===================================================================== *)

Section EngineProperties.
Import Asr.
Context {sdk : SenseVoice}.

Lemma transcribe_all_open (chunks : list bytes) :
  forall (self : ASREngine) (s : Stream),
    stream_instance self = Some s ->
    exists texts self',
      transcribe_all self chunks = Returned (texts, self')
      /\ List.length texts = List.length chunks
      /\ stream_instance self' <> None
      /\ wakeup_word self' = wakeup_word self.
Proof.
  induction chunks as [| c rest IH]; intros self s Hs.
  - exists [], self. repeat split. congruence.
  - simpl. unfold transcribe_stream. rewrite Hs.
    destruct (sdk_process_chunk s c) as [text s'] eqn:E. simpl.
    destruct (IH (set_stream self (Some s')) s' eq_refl)
      as (texts & self' & H1 & H2 & H3 & H4).
    rewrite H1. simpl. exists (text :: texts), self'.
    repeat split; auto. simpl. now rewrite H2.
Qed.

(** X19.  Between [start_stream] and [end_stream] every chunk is
    transcribed without an exception, whatever the engine was doing before;
    once the stream is ended, [transcribe_stream] raises [RuntimeError] and
    a second [end_stream] returns [None].  The wake phrase is never
    changed. *)
Theorem transcription_needs_an_open_stream (self : ASREngine)
  (chunks : list bytes) (late : bytes) :
  exists texts self',
    transcribe_all (start_stream self) chunks = Returned (texts, self')
    /\ List.length texts = List.length chunks
    /\ transcribe_stream (snd (end_stream self')) late = Raised RuntimeError
    /\ end_stream (snd (end_stream self')) = (None, snd (end_stream self'))
    /\ wakeup_word (snd (end_stream self')) = wakeup_word self.
Proof.
  destruct (@transcribe_all_open chunks (start_stream self)
              (create_stream (sample_rate (start_stream self))
                 (channels (start_stream self))))
    as (texts & self' & H1 & H2 & H3 & H4).
  { unfold start_stream. destruct (stream_instance self); reflexivity. }
  exists texts, self'. split; [exact H1 |]. split; [exact H2 |].
  assert (Hw : wakeup_word (start_stream self) = wakeup_word self).
  { unfold start_stream, end_stream.
    destruct (stream_instance self); reflexivity. }
  unfold transcribe_stream, end_stream.
  destruct (stream_instance self') as [s |]; [| contradiction].
  simpl. repeat split. congruence.
Qed.

(** X20.  A wake phrase that holds a full-width comma, an ideographic full
    stop or a space is never detected, in whatever text: these characters
    are removed from the text before the phrase is looked for. *)
Theorem wake_phrase_with_a_removed_character_is_never_detected
  (engine : ASREngine) (text : str) (c : char) :
  In c (wakeup_word engine) -> kept c = false ->
  detect_wakeup_word engine text = false.
Proof.
  intros Hin Hc.
  destruct (detect_wakeup_word engine text) eqn:E; [| reflexivity].
  apply detect_wakeup_word_spec in E. destruct E as [_ (pre & post & H)].
  assert (Hc' : In c (filter kept text)).
  { rewrite H. apply in_or_app. right. apply in_or_app. now left. }
  apply filter_In in Hc'. destruct Hc' as [_ Hc']. congruence.
Qed.

End EngineProperties.

(** X20 for a wake phrase written with a space. *)
Lemma wake_phrase_with_a_removed_character_is_never_detected_witness :
  @Asr.detect_wakeup_word Conversation.demo_sdk
    (Asr.ASREngine_init (lit "小车 小车")) (lit "小车 小车，你好") = false.
Proof.
  apply (@wake_phrase_with_a_removed_character_is_never_detected
           Conversation.demo_sdk (Asr.ASREngine_init (lit "小车 小车"))
           (lit "小车 小车，你好") 32%N).
  - vm_compute. auto.
  - reflexivity.
Defined.

(* ===================================================================== *)
(** * Further properties of the protocol *)
(* ===================================================================== *)

Section ParseProperties.
Import Protocol.
Context {J : JsonLib}.

Lemma str_eqb_eq (a b : str) : str_eqb a b = true <-> a = b.
Proof.
  revert b. induction a as [| x a IH]; intros [| y b]; simpl;
    try (split; [discriminate | congruence]); [tauto |].
  unfold char_eqb. rewrite andb_true_iff, N.eqb_eq, IH.
  split; [intros [-> ->]; reflexivity | intros [= -> ->]; auto].
Qed.

Lemma accepts_keys (required optional : list str) (kw : list (str * value))
  (k : str) :
  accepts required optional kw = true ->
  In k (map fst kw) -> In k (required ++ optional).
Proof.
  unfold accepts. intros H Hin. apply andb_prop in H as [H _].
  rewrite forallb_forall in H. apply in_map_iff in Hin.
  destruct Hin as ([k' v] & <- & Hin). specialize (H _ Hin).
  apply existsb_exists in H. destruct H as (x & Hx & E).
  apply str_eqb_eq in E. simpl in E. now subst.
Qed.

(** X21.  [parse_frame] returns a frame only for a text that decodes to a
    JSON object all of whose keys are fields of the class of the frame: a
    number, a string, a list, or an object with one key too many gives
    [None]. *)
Theorem parsed_frame_has_no_foreign_key (data : str) (f : frame) :
  parse_frame data = Some f ->
  exists kw,
    loads data = Some (VDict kw)
    /\ forall k, In k (map fst kw) -> In k (fields_of f).
Proof.
  unfold parse_frame. destruct (loads data) as [v |]; [| discriminate].
  destruct v as [| b | n | s | b | l | kw];
    try (unfold parse_dict, py_in, and_then, construct;
         repeat match goal with
                | |- context [if ?c then _ else _] => destruct c
                | |- context [match ?c with true => _ | false => _ end] =>
                    destruct c
                end; discriminate).
  intros H. exists kw. split; [reflexivity |].
  unfold parse_dict, py_in, and_then, construct in H.
  repeat match type of H with
         | context [match existsb ?p kw with _ => _ end] =>
             destruct (existsb p kw)
         end;
    match type of H with
    | context [AudioFrame.new kw] =>
        unfold AudioFrame.new in H;
        destruct (accepts _ _ kw) eqn:A; [| discriminate]
    | context [TextFrame.new kw] =>
        unfold TextFrame.new in H;
        destruct (accepts _ _ kw) eqn:A; [| discriminate]
    | context [ControlCmd.new kw] =>
        unfold ControlCmd.new in H;
        destruct (accepts _ _ kw) eqn:A; [| discriminate]
    | context [StatusMsg.new kw] =>
        unfold StatusMsg.new in H;
        destruct (accepts _ _ kw) eqn:A; [| discriminate]
    | _ => discriminate
    end;
    injection H as <-; intros k Hk; exact (accepts_keys _ _ _ k A Hk).
Qed.

End ParseProperties.

(** X21 on the text frame of the demonstration. *)
Lemma parsed_frame_has_no_foreign_key_witness :
  exists kw,
    @Protocol.loads Protocol.ToyJson.toy
      (Protocol.ToyJson.enc (Protocol.TextFrame.asdict Protocol.text_frame))
    = Some (Protocol.VDict kw)
    /\ forall k, In k (map fst kw) ->
                 In k (Protocol.fields_of (Protocol.Text Protocol.text_frame)).
Proof.
  apply (@parsed_frame_has_no_foreign_key Protocol.ToyJson.toy).
  vm_compute. reflexivity.
Defined.

(* ===================================================================== *)
(** * Properties of the car's controller *)
(* ===================================================================== *)

Section CarProperties.
Import Protocol Conversation Car.
Context {tables : UnicodeTables} {ints : IntReader}.

Lemma split_without (sep : char) (s : str) :
  ~ In sep s -> split sep s = [s].
Proof.
  induction s as [| c s IH]; intros H; simpl.
  - reflexivity.
  - unfold char_eqb. destruct (N.eqb_spec c sep) as [-> | _].
    + exfalso. apply H. now left.
    + rewrite IH; [reflexivity |]. intros Hin. apply H. now right.
Qed.

Lemma split_at (sep : char) (a b : str) :
  ~ In sep a -> split sep (a ++ sep :: b) = a :: split sep b.
Proof.
  induction a as [| c a IH]; intros H; simpl.
  - unfold char_eqb. now rewrite N.eqb_refl.
  - unfold char_eqb. destruct (N.eqb_spec c sep) as [-> | _].
    + exfalso. apply H. now left.
    + rewrite IH; [reflexivity |]. intros Hin. apply H. now right.
Qed.

Lemma class_excludes (p : char -> bool) (ch : char) (l : str) :
  p ch = false -> forallb p l = true -> ~ In ch l.
Proof.
  intros Hp Hl Hin. rewrite forallb_forall in Hl.
  specialize (Hl _ Hin). congruence.
Qed.

Lemma lstrip_char_other (ch : char) (s : str) :
  match s with [] => True | c :: _ => c <> ch end -> lstrip_char ch s = s.
Proof.
  destruct s as [| c s]; simpl; [reflexivity |].
  unfold char_eqb. intros H. destruct (N.eqb_spec c ch); [contradiction |].
  reflexivity.
Qed.

Lemma rstrip_char_last (ch : char) (a : str) :
  ~ In ch a -> rstrip_char ch (a ++ [ch]) = a.
Proof.
  intros H. unfold rstrip_char. rewrite rev_app_distr. simpl.
  unfold char_eqb. rewrite N.eqb_refl.
  rewrite lstrip_char_other; [apply rev_involutive |].
  destruct (rev a) as [| c r] eqn:E; [exact I |].
  intros ->. apply H. apply in_rev. rewrite E. now left.
Qed.

Lemma name_char_not_space (c : char) :
  name_char c = true -> isspace c = false.
Proof.
  unfold name_char, isspace, between, char_eqb.
  destruct (N.ltb_spec c 128);
    repeat match goal with
           | |- context [(?a <=? ?b)%N] => destruct (N.leb_spec a b)
           | |- context [(?a =? ?b)%N] => destruct (N.eqb_spec a b)
           end; simpl; intros; try reflexivity; try discriminate; lia.
Qed.

Lemma lstrip_other (s : str) :
  match s with [] => True | c :: _ => isspace c = false end -> lstrip s = s.
Proof.
  destruct s as [| c s]; simpl; [reflexivity |]. now intros ->.
Qed.

(** A command as the pattern extracts it has no white space at its ends. *)
Lemma strip_group (name args : str) :
  name <> [] -> forallb name_char name = true ->
  strip (name ++ [40%N] ++ args ++ [41%N])
  = name ++ [40%N] ++ args ++ [41%N].
Proof.
  intros Hne Hname. unfold strip, rstrip.
  rewrite (lstrip_other (name ++ [40%N] ++ args ++ [41%N])).
  - rewrite !app_assoc, rev_app_distr. simpl.
    now rewrite rev_involutive.
  - destruct name as [| c name]; [contradiction |]. simpl in *.
    apply andb_prop in Hname as [Hc _]. now apply name_char_not_space.
Qed.

Lemma search_inv (s g : str) :
  search s = Some g ->
  exists name args,
    name <> []
    /\ forallb name_char name = true
    /\ forallb arg_char args = true
    /\ g = name ++ [40%N] ++ args ++ [41%N].
Proof.
  induction s as [| c s IH]; rewrite search_eq.
  - discriminate.
  - destruct (match_here (c :: s)) as [[g' n] |] eqn:Hm.
    + intros [= <-]. apply match_here_inv in Hm.
      destruct Hm as (name & args & rest & H1 & H2 & H3 & _ & H4 & _).
      exists name, args. auto.
    + exact IH.
Qed.

(** X22.  An action command whose text, white space stripped, holds no
    opening parenthesis stops the car, whatever its name: [stop] written
    without parentheses, but also [forward] or the empty text. *)
Theorem command_without_parenthesis_stops_the_car (cmd : ControlCmd.t)
  (value : str) :
  ControlCmd.type cmd = VStr (lit "action") ->
  ControlCmd.value_ cmd = VStr value ->
  ~ In 40%N (strip value) ->
  execute_action_command cmd = (Returns, [_stop_car]).
Proof.
  intros Ht Hv Hno. unfold execute_action_command. rewrite Ht, Hv.
  change (str_eqb (lit "action") (lit "action")) with true. simpl negb.
  cbv iota. now rewrite split_without.
Qed.

(** X23.  The car reads a command the way the server's pattern wrote it:
    for every command [name(args)] that [ACTION_PATTERN] extracts from a
    reply, [execute_action_command] takes the branch of [name] with the
    parameters that [args] holds between its commas, and never the
    [except] clause for a command it could not take apart. *)
Theorem extracted_command_is_parsed_back (reply group : str)
  (extra : value) :
  search reply = Some group ->
  exists name args,
    group = name ++ [40%N] ++ args ++ [41%N]
    /\ execute_action_command
         {| ControlCmd.type := VStr (lit "action");
            ControlCmd.value_ := VStr group;
            ControlCmd.extra := extra |}
       = (Returns, perform name (split 44%N args)).
Proof.
  intros H. apply search_inv in H.
  destruct H as (name & args & Hne & Hname & Hargs & ->).
  exists name, args. split; [reflexivity |].
  unfold execute_action_command. cbn [ControlCmd.type ControlCmd.value_].
  change (str_eqb (lit "action") (lit "action")) with true. simpl negb.
  cbv iota. rewrite (strip_group args Hne Hname).
  change (name ++ [40%N] ++ args ++ [41%N])
    with (name ++ 40%N :: args ++ [41%N]).
  rewrite split_at by (apply (class_excludes name_char); auto).
  rewrite split_without.
  - rewrite rstrip_char_last by (apply (class_excludes arg_char); auto).
    reflexivity.
  - intros Hin. apply in_app_or in Hin. destruct Hin as [Hin | [E | []]].
    + revert Hin. apply (class_excludes arg_char); auto.
    + discriminate.
Qed.

Section Wire.
Import Server Client.
Context {sdk : Asr.SenseVoice} {J : JsonLib}.
Hypothesis json_roundtrips : roundtrips J.

(** X24.  What the server sends with [_send_control_cmd] over an open
    connection is a single text message, and the car's listener, given that
    message, hands the controller the command sent: of type [action], with
    the value unchanged and no extra; [execute_action_command] is run on it
    and the listener goes on with the messages that follow. *)
Theorem sent_command_is_executed_by_the_car (self : PetCarServer)
  (ws : WebSocket) (action_cmd_value : str) (rest : list message) :
  car_connection self = Some ws ->
  exists payload,
    _send_control_cmd self false action_cmd_value
    = (Returned tt, [SendText ws payload])
    /\ listen_for_control_commands (Some execute_action_command)
         (TextMessage payload :: rest)
       = snd (execute_action_command
                {| ControlCmd.type := VStr (lit "action");
                   ControlCmd.value_ := VStr action_cmd_value;
                   ControlCmd.extra := VNone |})
         ++ listen_for_control_commands (Some execute_action_command) rest.
Proof.
  intros Hws. unfold _send_control_cmd. rewrite Hws.
  set (cmd := {| ControlCmd.type := VStr (lit "action");
                 ControlCmd.value_ := VStr action_cmd_value;
                 ControlCmd.extra := VNone |}).
  assert (Hnew : ControlCmd.new
                   [(lit "type", VStr (lit "action"));
                    (lit "value", VStr action_cmd_value)] = Returned cmd)
    by reflexivity.
  rewrite Hnew. simpl bind.
  assert (Hjson : ControlCmd.to_json cmd
                  = Returned (dumps (ControlCmd.asdict cmd)))
    by reflexivity.
  rewrite Hjson. eexists. split; [reflexivity |].
  cbn [listen_for_control_commands].
  rewrite (@control_round_trip J json_roundtrips cmd _ Hjson).
  assert (Hret : fst (execute_action_command cmd) = Returns).
  { unfold execute_action_command. cbn [ControlCmd.type ControlCmd.value_ cmd].
    change (str_eqb (lit "action") (lit "action")) with true. simpl negb.
    cbv iota.
    destruct (split 40%N (strip action_cmd_value)) as [| a [| b l]];
      reflexivity. }
  destruct (execute_action_command cmd) as [e calls]. simpl in Hret.
  subst e. reflexivity.
Qed.

(** X25.  An action command whose value is not a string (a number, a
    boolean, null, a list or an object) raises [AttributeError] outside the
    [try] of [execute_action_command]; the car's listener, which calls it,
    ends there: no call is made on the controller for that message nor for
    any message after it. *)
Theorem command_with_a_value_that_is_no_string_ends_the_listener
  (payload : str) (cmd : ControlCmd.t) (rest : list message) :
  parse_frame payload = Some (Control cmd) ->
  ControlCmd.type cmd = VStr (lit "action") ->
  match ControlCmd.value_ cmd with
  | VStr _ | VBytes _ => False
  | _ => True
  end ->
  listen_for_control_commands (Some execute_action_command)
    (TextMessage payload :: rest) = [].
Proof.
  intros Hp Ht Hv. cbn [listen_for_control_commands]. rewrite Hp.
  unfold execute_action_command. rewrite Ht.
  change (str_eqb (lit "action") (lit "action")) with true. simpl negb.
  cbv iota. destruct (ControlCmd.value_ cmd); try contradiction; reflexivity.
Qed.

End Wire.

End CarProperties.

(** X22 for [stop] written without parentheses. *)
Lemma command_without_parenthesis_stops_the_car_witness :
  @Car.execute_action_command ascii_only Car.plain_digits
    {| Protocol.ControlCmd.type := Protocol.VStr (lit "action");
       Protocol.ControlCmd.value_ := Protocol.VStr (lit "stop");
       Protocol.ControlCmd.extra := Protocol.VNone |}
  = (Car.Returns, [Car._stop_car]).
Proof.
  apply (@command_without_parenthesis_stops_the_car ascii_only
           Car.plain_digits _ (lit "stop")).
  - reflexivity.
  - reflexivity.
  - vm_compute. intuition discriminate.
Defined.

(** X23 for a reply that holds the command [forward(5)]. *)
Lemma extracted_command_is_parsed_back_witness :
  exists name args,
    lit "forward(5)" = name ++ [40%N] ++ args ++ [41%N]
    /\ @Car.execute_action_command ascii_only Car.plain_digits
         {| Protocol.ControlCmd.type := Protocol.VStr (lit "action");
            Protocol.ControlCmd.value_ := Protocol.VStr (lit "forward(5)");
            Protocol.ControlCmd.extra := Protocol.VNone |}
       = (Car.Returns,
          @Car.perform Car.plain_digits name (Car.split 44%N args)).
Proof.
  apply (@extracted_command_is_parsed_back ascii_only Car.plain_digits
           (lit "好的[ACTION:forward(5)]") (lit "forward(5)")
           Protocol.VNone).
  vm_compute. reflexivity.
Defined.

(** X24 for the server that holds the connection 1 and the command
    [forward(5)]. *)
Lemma sent_command_is_executed_by_the_car_witness :
  exists payload,
    @Server._send_control_cmd Conversation.demo_sdk Protocol.ToyJson.toy
      Server.busy_server false (lit "forward(5)")
    = (Returned tt, [Server.SendText 1 payload])
    /\ @Client.listen_for_control_commands Protocol.ToyJson.toy
         (Some (@Car.execute_action_command ascii_only Car.plain_digits))
         [Client.TextMessage payload]
       = snd (@Car.execute_action_command ascii_only Car.plain_digits
                {| Protocol.ControlCmd.type := Protocol.VStr (lit "action");
                   Protocol.ControlCmd.value_ :=
                     Protocol.VStr (lit "forward(5)");
                   Protocol.ControlCmd.extra := Protocol.VNone |})
         ++ @Client.listen_for_control_commands Protocol.ToyJson.toy
              (Some (@Car.execute_action_command ascii_only
                       Car.plain_digits)) [].
Proof.
  apply (@sent_command_is_executed_by_the_car ascii_only Car.plain_digits
           Conversation.demo_sdk Protocol.ToyJson.toy toy_roundtrips
           Server.busy_server 1 (lit "forward(5)") []).
  reflexivity.
Defined.

(** X25 for an action command whose value is the number 5, followed by a
    command to stop. *)
Lemma command_with_a_value_that_is_no_string_ends_the_listener_witness :
  @Client.listen_for_control_commands Protocol.ToyJson.toy
    (Some (@Car.execute_action_command ascii_only Car.plain_digits))
    [Client.TextMessage
       (Protocol.ToyJson.enc
          (Protocol.ControlCmd.asdict
             {| Protocol.ControlCmd.type := Protocol.VStr (lit "action");
                Protocol.ControlCmd.value_ := Protocol.VInt 5;
                Protocol.ControlCmd.extra := Protocol.VNone |}));
     Client.TextMessage
       (Protocol.ToyJson.enc
          (Protocol.ControlCmd.asdict
             {| Protocol.ControlCmd.type := Protocol.VStr (lit "action");
                Protocol.ControlCmd.value_ := Protocol.VStr (lit "stop()");
                Protocol.ControlCmd.extra := Protocol.VNone |}))]
  = [].
Proof.
  apply (@command_with_a_value_that_is_no_string_ends_the_listener
           ascii_only Car.plain_digits Protocol.ToyJson.toy _
           {| Protocol.ControlCmd.type := Protocol.VStr (lit "action");
              Protocol.ControlCmd.value_ := Protocol.VInt 5;
              Protocol.ControlCmd.extra := Protocol.VNone |}).
  - vm_compute. reflexivity.
  - reflexivity.
  - exact I.
Defined.

(* ===================================================================== *)
(** * A run that fails *)
(* ===================================================================== *)

Section FailedRun.
Import Streaming Asr Conversation.
Context {tables : UnicodeTables} {sdk : SenseVoice} {engines : Engines}.

(** X26.  A pipeline whose queues exist but whose transcription stream is
    not open fails on the first chunk of audio, whether the audio queue is
    closed or not: [transcribe_stream] raises [RuntimeError], which
    [run_pipeline] catches, and the result is [(False, None)].  The chunk
    has been taken and the audio behind it stays in the queue; with a text
    queue that holds nothing when the call begins, nothing is put into the
    text queue or the PCM queue; the three queues are closed. *)
Theorem run_without_a_transcription_stream_fails (self : ConversationPipeline)
  (audio_in : AudioQueue) (text_out : TextQueue) (pcm_out : PCMQueue)
  (chunk : bytes) (behind : list (option bytes)) :
  get_queues (manager self) = Returned (audio_in, text_out, pcm_out) ->
  queue audio_in = Some chunk :: behind ->
  stream_instance (asr_engine self) = None ->
  queue text_out = [] ->
  exists s,
    run_pipeline self = Some (Returned (false, None), s)
    /\ audio_in_after s
       = close {| queue := behind; is_finished := is_finished audio_in |}
    /\ text_out_after s = close text_out
    /\ pcm_out_after s = close pcm_out.
Proof.
  intros Hq Ha Hs Ht. unfold run_pipeline. rewrite Hq.
  unfold asr_task. rewrite Ha. cbn [asr_items].
  unfold asr_iteration at 1. cbn [pipeline].
  unfold transcribe_stream. rewrite Hs. cbn [bind].
  unfold _llm_to_tts. rewrite Ht. cbn [tts_items text_left pcm_left].
  eexists. split; [reflexivity |]. cbn.
  destruct text_out as [items fin]. repeat split.
Qed.

End FailedRun.

(** X26 on a pipeline for which the manager has started a conversation but
    the engine has started no stream, one chunk uploaded and the audio
    queue left open. *)
Lemma run_without_a_transcription_stream_fails_witness :
  exists s,
    @Conversation.run_pipeline ascii_only Conversation.demo_sdk
      Conversation.demo_engines
      {| Conversation.asr_engine :=
           @Asr.ASREngine_init Conversation.demo_sdk Asr.default_wakeup_word;
         Conversation.manager :=
           {| Streaming.audio_in_queue :=
                Some (Streaming.put_chunks
                        (Streaming.StreamQueue_init bytes) [[x00; x00]]);
              Streaming.llm_text_out_queue :=
                Some (Streaming.StreamQueue_init str);
              Streaming.pcm_out_queue :=
                Some (Streaming.StreamQueue_init bytes) |};
         Conversation.conversation_active := false |}
    = Some (Returned (false, None), s)
    /\ Conversation.audio_in_after s
       = Streaming.close (Streaming.StreamQueue_init bytes)
    /\ Conversation.text_out_after s
       = Streaming.close (Streaming.StreamQueue_init str)
    /\ Conversation.pcm_out_after s
       = Streaming.close (Streaming.StreamQueue_init bytes).
Proof.
  apply (@run_without_a_transcription_stream_fails ascii_only
           Conversation.demo_sdk Conversation.demo_engines _
           (Streaming.put_chunks (Streaming.StreamQueue_init bytes)
              [[x00; x00]])
           _ _ [x00; x00] []);
    reflexivity.
Defined.
